(** * MimicRL: behaviour-cloning support code, model persistence and the
      PPO advantage recursion

    A shallow embedding of the TypeScript sources

      - [bc/DemonstrationCollector.ts]
      - [bc/DemonstrationStorage.ts]
      - [bc/BehaviorCloningTrainer.ts]
      - [utils/ModelManager.ts]
      - [utils/NetworkUtils.ts]
      - [visualization/TrainingVisualizer.js]

    JavaScript objects used as dictionaries are finite maps ([gmap]) from
    property names to values, [localStorage] is a finite map from keys to
    strings, live tensors are a finite map from tensor ids to payloads, and
    code that throws returns an [outcome].  The first part of the file holds
    the embedding, the second part the properties. *)

From Stdlib Require Import QArith Qround Sorted.
From stdpp Require Import gmap strings pretty list fin_maps.

Local Open Scope string_scope.
Local Open Scope nat_scope.
Local Open Scope list_scope.

(* ===================================================================== *)
(** * Part I: the embedding                                               *)
(* ===================================================================== *)

(** ** JavaScript values and outcomes *)

Module Js.

(** The values that travel through configuration bags and metadata
    records.  Numbers are exact rationals. *)
Inductive value : Type :=
| Undefined
| Null
| Bool (b : bool)
| Number (q : Q)
| Str (s : string).

(** A plain object literal: property name to value. *)
Abbreviation object := (gmap string value).

(** [a ?? b]: the right operand is taken when the left one is [null] or
    [undefined]. *)
Definition nullish (a b : value) : value :=
  match a with
  | Undefined | Null => b
  | _ => a
  end.

(** [o?.k] on an optional object: a missing object and a missing property
    both read as [undefined]. *)
Definition opt_get (o : option object) (k : string) : value :=
  match o with
  | None => Undefined
  | Some m => default Undefined (m !! k)
  end.

(** [{...o}] of an optional object: spreading [undefined] adds nothing. *)
Definition spread (o : option object) : object := default ∅ o.

(** The number [n] as a value, for array lengths and indices. *)
Definition of_nat (n : nat) : value := Number (inject_Z (Z.of_nat n)).

(** The result of a call that may throw. *)
Inductive outcome (E A : Type) : Type :=
| Returned (a : A)
| Thrown (e : E).
Arguments Returned {E A} a.
Arguments Thrown {E A} e.

End Js.

(** ** [DemonstrationCollector] *)

Module DemonstrationCollector.

Record DemonstrationStep : Type := mkStep {
  observation : list Q;
  action : list Q;
  step_metadata : Js.object
}.

Record DemonstrationEpisode : Type := mkEpisode {
  id : string;
  steps : list DemonstrationStep;
  metadata : Js.object
}.

Record t : Type := mkCollector {
  autoRecord : bool;
  maxBufferSize : Z;
  currentEpisode : option DemonstrationEpisode;
  episodeBuffer : list DemonstrationEpisode;
  isRecording : bool
}.

(** [constructor(config?)], with the two options already read from the
    bag: [autoRecord ?? false] and [maxBufferSize ?? 10000]. *)
Definition constructor (autoRecord_opt : option bool) (maxBufferSize_opt : option Z) : t :=
  {| autoRecord := default false autoRecord_opt;
     maxBufferSize := default 10000%Z maxBufferSize_opt;
     currentEpisode := None;
     episodeBuffer := [];
     isRecording := false |}.

(** The guard [!this.isRecording || !this.currentEpisode]. *)
Definition notRecording (c : t) : bool :=
  negb (isRecording c)
  || match currentEpisode c with Some _ => false | None => true end.

(** [flushCurrentEpisode()] *)
Definition flushCurrentEpisode (c : t) : t :=
  match currentEpisode c with
  | Some ep =>
      if (0 <? length (steps ep))%nat then
        {| autoRecord := autoRecord c;
           maxBufferSize := maxBufferSize c;
           currentEpisode :=
             Some {| id := id ep; steps := []; metadata := metadata ep |};
           episodeBuffer := episodeBuffer c ++ [ep];
           isRecording := isRecording c |}
      else c
  | None => c
  end.

(** [recordStep(observation, action, stepMetadata?)].  The step metadata is
    [{ stepIndex: steps.length, ...stepMetadata }]: properties of
    [stepMetadata] come later in the literal and win. *)
Definition recordStep (c : t) (obs : list Q) (act : list Q)
    (stepMetadata : option Js.object) : t :=
  if notRecording c then c
  else
    match currentEpisode c with
    | None => c
    | Some ep =>
        let step :=
          {| observation := obs;
             action := act;
             step_metadata :=
               Js.spread stepMetadata
                 ∪ {[ "stepIndex" := Js.of_nat (length (steps ep)) ]} |} in
        let ep' :=
          {| id := id ep; steps := steps ep ++ [step]; metadata := metadata ep |} in
        let c' :=
          {| autoRecord := autoRecord c;
             maxBufferSize := maxBufferSize c;
             currentEpisode := Some ep';
             episodeBuffer := episodeBuffer c;
             isRecording := isRecording c |} in
        if (maxBufferSize c <=? Z.of_nat (length (steps ep')))%Z
        then flushCurrentEpisode c'
        else c'
    end.

(** [endEpisode(episodeMetadata?)].  [duration] is the value the host
    computes for [Date.now() - startTime]. *)
Definition endEpisode (c : t) (episodeMetadata : option Js.object)
    (duration : Js.value) : t * option DemonstrationEpisode :=
  if notRecording c then (c, None)
  else
    match currentEpisode c with
    | None => (c, None)
    | Some ep =>
        let episode :=
          {| id := id ep;
             steps := steps ep;
             metadata :=
               {[ "duration" := duration ]}
                 ∪ (Js.spread episodeMetadata ∪ metadata ep) |} in
        ({| autoRecord := autoRecord c;
            maxBufferSize := maxBufferSize c;
            currentEpisode := None;
            episodeBuffer := episodeBuffer c ++ [episode];
            isRecording := false |},
         Some episode)
    end.

(** [startEpisode(episodeId, metadata?)].  [timestamp] is [Date.now()] at
    the start, [duration] the value used if a running episode is ended
    first. *)
Definition startEpisode (c : t) (episodeId : string)
    (md : option Js.object) (timestamp : Q) (duration : Js.value) : t :=
  let c1 := if isRecording c then fst (endEpisode c None duration) else c in
  {| autoRecord := autoRecord c1;
     maxBufferSize := maxBufferSize c1;
     currentEpisode :=
       Some {| id := episodeId;
               steps := [];
               metadata := Js.spread md ∪ {[ "timestamp" := Js.Number timestamp ]} |};
     episodeBuffer := episodeBuffer c1;
     isRecording := true |}.

(** [discardEpisode()] *)
Definition discardEpisode (c : t) : t :=
  {| autoRecord := autoRecord c;
     maxBufferSize := maxBufferSize c;
     currentEpisode := None;
     episodeBuffer := episodeBuffer c;
     isRecording := false |}.

(** The episode object that received the step of a [recordStep] call: the
    current episode, or, when the call flushed, the episode just moved to
    the end of the buffer. *)
Definition receivingEpisode (before after : t) : option DemonstrationEpisode :=
  if (length (episodeBuffer before) <? length (episodeBuffer after))%nat
  then last (episodeBuffer after)
  else currentEpisode after.

(** Every step of the episode carries its own position as [stepIndex]. *)
Definition stepIndexIsPosition (ep : DemonstrationEpisode) : Prop :=
  ∀ i st, steps ep !! i = Some st →
    step_metadata st !! "stepIndex" = Some (Js.of_nat i).

(** [getEpisodes()]: a copy of the buffer. *)
Definition getEpisodes (c : t) : list DemonstrationEpisode := episodeBuffer c.

(** [clearEpisodes()] *)
Definition clearEpisodes (c : t) : t :=
  {| autoRecord := autoRecord c;
     maxBufferSize := maxBufferSize c;
     currentEpisode := currentEpisode c;
     episodeBuffer := [];
     isRecording := isRecording c |}.

(** [getRecording()] *)
Definition getRecording (c : t) : bool := isRecording c.

(** The steps of the running episode. *)
Definition currentSteps (c : t) : list DemonstrationStep :=
  match currentEpisode c with
  | Some ep => steps ep
  | None => []
  end.

(** Every step the collector holds, oldest first: those of the buffered
    episodes, then those of the running one. *)
Definition allSteps (c : t) : list DemonstrationStep :=
  flat_map steps (episodeBuffer c) ++ currentSteps c.

(** The running episode is below the flush threshold. *)
Definition belowThreshold (c : t) : Prop :=
  (Z.of_nat (length (currentSteps c)) < maxBufferSize c)%Z.

End DemonstrationCollector.

(** ** Demonstration types ([Demonstration.ts]) *)

Module Demonstration.

(** [ActionSpace]: the kind of one action index. *)
Inductive ActionSpace : Type := discrete | continuous.

(** The [gameCoreInfo] of a data set. *)
Record GameCoreInfo : Type := mkInfo {
  observationSize : nat;
  actionSize : nat;
  actionSpaces : list ActionSpace
}.

Record DatasetMetadata : Type := mkDatasetMetadata {
  totalSteps : nat;
  createdAt : Q;
  updatedAt : Q;
  gameCoreInfo : option GameCoreInfo
}.

(** [DemonstrationDataset] *)
Record DemonstrationDataset : Type := mkDataset {
  episodes : list DemonstrationCollector.DemonstrationEpisode;
  metadata : DatasetMetadata
}.

End Demonstration.

(** ** [BehaviorCloningTrainer] *)

Module BehaviorCloningTrainer.

(** *** Configuration *)

(** [Required<BehaviorCloningTrainerConfig>].  At run time nothing checks
    the type of an option, so each field holds whatever value was read. *)
Record Config : Type := mkConfig {
  learningRate : Js.value;
  batchSize : Js.value;
  epochs : Js.value;
  lossType : Js.value;
  weightDecay : Js.value;
  validationSplit : Js.value
}.

(** The options the constructor reads. *)
Definition recognizedKeys : list string :=
  ["learningRate"; "batchSize"; "epochs"; "lossType"; "weightDecay";
   "validationSplit"].

Definition defaultConfig : Config :=
  {| learningRate := Js.Number (1 # 1000);
     batchSize := Js.Number 32;
     epochs := Js.Number 10;
     lossType := Js.Str "mixed";
     weightDecay := Js.Number (1 # 10000);
     validationSplit := Js.Number (2 # 10) |}.

(** The object literal assigned to [this.config]: [config?.k ?? default]
    for each option. *)
Definition readConfig (config : option Js.object) : Config :=
  {| learningRate :=
       Js.nullish (Js.opt_get config "learningRate") (learningRate defaultConfig);
     batchSize :=
       Js.nullish (Js.opt_get config "batchSize") (batchSize defaultConfig);
     epochs :=
       Js.nullish (Js.opt_get config "epochs") (epochs defaultConfig);
     lossType :=
       Js.nullish (Js.opt_get config "lossType") (lossType defaultConfig);
     weightDecay :=
       Js.nullish (Js.opt_get config "weightDecay") (weightDecay defaultConfig);
     validationSplit :=
       Js.nullish (Js.opt_get config "validationSplit")
         (validationSplit defaultConfig) |}.

(** [BCTrainingStats].  The two losses are numbers read back from the
    engine ([loss.dataSync()[0]]) or computed from them: a rational, or
    [NaN], which is [None]. *)
Record BCTrainingStats : Type := mkStats {
  trainLoss : option Q;
  valLoss : option Q;
  epoch : nat;
  step : nat
}.

(** The trainer object.  [yieldChannelResolve] holds the promise whose
    resolver is parked for the message channel.  The optimizer
    ([tf.train.adam(this.config.learningRate)]) is part of the trainable
    state that [trainBatch] moves. *)
Record t : Type := mkTrainer {
  config : Config;
  trainingStats : BCTrainingStats;
  yieldChannelResolve : option nat
}.

(** [constructor(config?)].  The body has no [throw] and no check of the
    bag's keys: every call returns a trainer. *)
Definition constructor (cfg : option Js.object) : Js.outcome string t :=
  Js.Returned
    {| config := readConfig cfg;
       trainingStats :=
         {| trainLoss := Some 0%Q; valLoss := Some 0%Q; epoch := 0; step := 0 |};
       yieldChannelResolve := None |}.

Definition rejected {A} (r : Js.outcome string A) : Prop :=
  match r with Js.Thrown _ => True | Js.Returned _ => False end.

(** *** Tensor memory *)

(** A tensor's payload: a 1-d [int32] index tensor or a 2-d tensor of
    rows. *)
Inductive Tensor : Type :=
| Tensor1d (indices : list nat)
| Tensor2d (rows : list (list Q)).

(** The live tensors of the engine, by id, and the next fresh id. *)
Record Memory : Type := mkMemory {
  tensors : gmap nat Tensor;
  nextId : nat
}.

Definition alloc (payload : Tensor) (m : Memory) : nat * Memory :=
  (nextId m, {| tensors := <[nextId m := payload]> (tensors m); nextId := S (nextId m) |}).

(** [t.dispose()] *)
Definition dispose (id : nat) (m : Memory) : Memory :=
  {| tensors := delete id (tensors m); nextId := nextId m |}.

Definition live (m : Memory) : gset nat := dom (tensors m).

(** The engine registers the given payloads one after the other. *)
Definition allocAll (payloads : list Tensor) (m : Memory) : Memory :=
  foldl (λ m' payload, (alloc payload m').2) m payloads.

(** [tf.tensor1d(values, 'int32')] *)
Definition tensor1d (values : list nat) (m : Memory) : nat * Memory :=
  alloc (Tensor1d values) m.

(** [tf.gather(x, indices)] on a 2-d tensor: a new tensor with the selected
    rows; a disposed operand throws. *)
Definition gather (x indices : nat) (m : Memory) : Js.outcome string (nat * Memory) :=
  match tensors m !! x, tensors m !! indices with
  | Some (Tensor2d rows), Some (Tensor1d idx) =>
      Js.Returned (alloc (Tensor2d (map (λ i, nth i rows []) idx)) m)
  | _, _ => Js.Thrown "Tensor is disposed."
  end.

(** [x.shape[0]] *)
Definition shape0 (x : nat) (m : Memory) : nat :=
  match tensors m !! x with
  | Some (Tensor2d rows) => length rows
  | Some (Tensor1d idx) => length idx
  | None => 0
  end.

(** *** The optimization loop *)

Inductive Event : Type :=
| BatchTrained (epoch i : nat)
| EpochDone (epoch : nat)
| Yield.

#[export] Instance Event_eq_dec : EqDecision Event.
Proof. solve_decision. Defined.

(** [Math.ceil(totalSamples / batchSize)] for a positive integer batch
    size. *)
Definition numBatchesOf (totalSamples : nat) (batchSize : positive) : nat :=
  let b := Pos.to_nat batchSize in (totalSamples + b - 1) / b.

(** [totalLoss += loss]: [NaN] absorbs. *)
Definition addLoss (total loss : option Q) : option Q :=
  match total, loss with
  | Some x, Some y => Some (x + y)%Q
  | _, _ => None
  end.

(** [total / n] in floating point: [NaN / n] is [NaN], and so is
    [0 / 0]. *)
Definition meanLoss (total : option Q) (n : nat) : option Q :=
  match total with
  | Some x => if (n =? 0)%nat then None else Some (x / inject_Z (Z.of_nat n))%Q
  | None => None
  end.

Section Training.

(** The trainable state: the weights of the policy network and the state
    of the optimizer. *)
Context {Policy : Type}.

(** [trainBatch(observations, actions, policyAgent)]: forward pass, loss
    and one optimizer step.  The body runs inside [tf.tidy], which on both
    exits releases the tensors the body created, but not the variables:
    those the optimizer creates for its moments (on its first step) stay
    allocated.  The body disposes [predictions] and none of its arguments.
    The call gives the new trainable state, the variables it leaves
    allocated, and the loss it read back ([loss.dataSync()[0]], which may
    be [NaN]) or the exception. *)
Variable trainBatch :
  Policy → Tensor → Tensor → Policy * list Tensor * Js.outcome string (option Q).

(** [computeValidationLoss(valData, policyAgent)], also inside [tf.tidy]:
    a forward pass and the loss read back, no optimizer step. *)
Variable computeValidationLoss :
  Policy → Tensor → Tensor → Js.outcome string (option Q).

(** [shuffleArray(indices)] as drawn in the given epoch. *)
Variable shuffleArray : nat → list nat → list nat.

Record LoopState : Type := mkLoop {
  mem : Memory;
  policy : Policy;
  trace : list Event;
  totalLoss : option Q
}.

Definition payload (x : nat) (m : Memory) : Tensor :=
  default (Tensor2d []) (tensors m !! x).

(** The body of the [for] loop of [trainEpoch] at batch index [i].  An
    exception leaves the body at once: the statements after the throwing
    call do not run.  The variables [trainBatch] leaves are allocated when
    it ends, whichever way it ends. *)
Definition batchStep (batchSize : positive) (observations actions : nat)
    (indices : list nat) (totalSamples epoch i : nat) (s : LoopState)
    : LoopState * Js.outcome string unit :=
  let b := Pos.to_nat batchSize in
  let start := i * b in
  let stop := Nat.min (start + b) totalSamples in
  let batchIndices := take (stop - start) (drop start indices) in
  let '(batchIndicesTensor, m1) := tensor1d batchIndices (mem s) in
  match gather observations batchIndicesTensor m1 with
  | Js.Thrown e =>
      ({| mem := m1; policy := policy s; trace := trace s; totalLoss := totalLoss s |},
       Js.Thrown e)
  | Js.Returned (batchObs, m2) =>
      match gather actions batchIndicesTensor m2 with
      | Js.Thrown e =>
          ({| mem := m2; policy := policy s; trace := trace s; totalLoss := totalLoss s |},
           Js.Thrown e)
      | Js.Returned (batchAct, m3) =>
          match trainBatch (policy s) (payload batchObs m3) (payload batchAct m3) with
          | (pol', variables, Js.Thrown e) =>
              ({| mem := allocAll variables m3; policy := pol'; trace := trace s;
                  totalLoss := totalLoss s |},
               Js.Thrown e)
          | (pol', variables, Js.Returned loss) =>
              let m4 :=
                dispose batchIndicesTensor
                  (dispose batchAct (dispose batchObs (allocAll variables m3))) in
              let tr := trace s ++ [BatchTrained epoch i] in
              ({| mem := m4;
                  policy := pol';
                  trace := if (i mod 10 =? 0)%nat then tr ++ [Yield] else tr;
                  totalLoss := addLoss (totalLoss s) loss |},
               Js.Returned tt)
          end
      end
  end.

(** [for (let i = from; i < from + n; i++) body]. *)
Fixpoint batchLoop (batchSize : positive) (observations actions : nat)
    (indices : list nat) (totalSamples epoch : nat) (n from : nat) (s : LoopState)
    : LoopState * Js.outcome string unit :=
  match n with
  | O => (s, Js.Returned tt)
  | S n' =>
      match batchStep batchSize observations actions indices totalSamples epoch from s with
      | (s', Js.Thrown e) => (s', Js.Thrown e)
      | (s', Js.Returned _) =>
          batchLoop batchSize observations actions indices totalSamples epoch n' (S from) s'
      end
  end.

(** [trainEpoch(data, policyAgent, epoch)] with [batchSize] the value of
    [this.config.batchSize]. *)
Definition trainEpoch (batchSize : positive) (observations actions : nat)
    (epoch : nat) (m : Memory) (pol : Policy) (tr : list Event)
    : LoopState * Js.outcome string (option Q) :=
  let totalSamples := shape0 observations m in
  let numBatches := numBatchesOf totalSamples batchSize in
  let indices := shuffleArray epoch (seq 0 totalSamples) in
  match batchLoop batchSize observations actions indices totalSamples epoch numBatches 0
          {| mem := m; policy := pol; trace := tr; totalLoss := Some 0%Q |} with
  | (s, Js.Thrown e) => (s, Js.Thrown e)
  | (s, Js.Returned _) => (s, Js.Returned (meanLoss (totalLoss s) numBatches))
  end.

(** The state [train] threads through its epochs. *)
Record TrainState : Type := mkTrain {
  t_mem : Memory;
  t_policy : Policy;
  t_trace : list Event;
  t_stats : BCTrainingStats
}.

(** The [for] loop of [train] over the epochs [from .. from + n - 1].
    [valData] is the pair of validation tensors when there is one. *)
Fixpoint epochLoop (batchSize : positive) (observations actions : nat)
    (valData : option (nat * nat)) (n from : nat) (s : TrainState)
    : TrainState * Js.outcome string unit :=
  match n with
  | O => (s, Js.Returned tt)
  | S n' =>
      match trainEpoch batchSize observations actions from (t_mem s) (t_policy s) (t_trace s) with
      | (l, Js.Thrown e) =>
          ({| t_mem := mem l; t_policy := policy l; t_trace := trace l; t_stats := t_stats s |},
           Js.Thrown e)
      | (l, Js.Returned loss) =>
          let val :=
            match valData with
            | Some (vo, va) =>
                if (0 <? shape0 vo (mem l))%nat
                then computeValidationLoss (policy l) (payload vo (mem l)) (payload va (mem l))
                else Js.Returned (Some 0%Q)
            | None => Js.Returned (Some 0%Q)
            end in
          match val with
          | Js.Thrown e =>
              ({| t_mem := mem l; t_policy := policy l; t_trace := trace l; t_stats := t_stats s |},
               Js.Thrown e)
          | Js.Returned v =>
              epochLoop batchSize observations actions valData n' (S from)
                {| t_mem := mem l;
                   t_policy := policy l;
                   t_trace := trace l ++ [EpochDone from; Yield];
                   t_stats :=
                     {| trainLoss := loss; valLoss := v; epoch := from + 1;
                        step := (from + 1) * Pos.to_nat batchSize |} |}
          end
      end
  end.

End Training.

(** *** Yielding to the event loop *)

(** The part of [document] the trainer reads. *)
Record Document : Type := mkDocument {
  hidden : bool;
  visibilityState : string
}.

(** A task waiting in the host's queue. *)
Inductive Task : Type :=
| TimerCallback (p : nat)      (* [setTimeout(resolve, 0)] of promise [p] *)
| PortMessage                  (* a message of [port2] arriving at [port1] *)
| VisibilityChange (d : Document)
| OtherWork.

(** The host: [document] (absent outside a browser), the task queue, the
    promises resolved so far and the next fresh promise. *)
Record Host : Type := mkHost {
  document : option Document;
  queue : list Task;
  resolved : gset nat;
  nextPromise : nat
}.

(** [typeof document !== 'undefined' &&
     (document.hidden || document.visibilityState === 'hidden')] *)
Definition isHidden (h : Host) : bool :=
  match document h with
  | Some d => hidden d || String.eqb (visibilityState d) "hidden"
  | None => false
  end.

(** [yieldToEventLoop()]: the promise returned, the trainer and the host
    after the call. *)
Definition yieldToEventLoop (tr : t) (h : Host) : nat * t * Host :=
  let p := nextPromise h in
  if isHidden h then
    (p,
     {| config := config tr; trainingStats := trainingStats tr;
        yieldChannelResolve := Some p |},
     {| document := document h; queue := queue h ++ [PortMessage];
        resolved := resolved h; nextPromise := S p |})
  else
    (p, tr,
     {| document := document h; queue := queue h ++ [TimerCallback p];
        resolved := resolved h; nextPromise := S p |}).

(** One task of the queue.  [PortMessage] runs the [port1.onmessage]
    handler installed by the constructor. *)
Definition runTask (task : Task) (tr : t) (h : Host) : t * Host :=
  match task with
  | TimerCallback p =>
      (tr, {| document := document h; queue := queue h;
              resolved := {[p]} ∪ resolved h; nextPromise := nextPromise h |})
  | PortMessage =>
      match yieldChannelResolve tr with
      | Some p =>
          ({| config := config tr; trainingStats := trainingStats tr;
              yieldChannelResolve := None |},
           {| document := document h; queue := queue h;
              resolved := {[p]} ∪ resolved h; nextPromise := nextPromise h |})
      | None => (tr, h)
      end
  | VisibilityChange d =>
      (tr, {| document := match document h with Some _ => Some d | None => None end;
              queue := queue h; resolved := resolved h;
              nextPromise := nextPromise h |})
  | OtherWork => (tr, h)
  end.

(** The host takes the oldest task and runs it to completion. *)
Definition eventLoopStep (tr : t) (h : Host) : t * Host :=
  match queue h with
  | [] => (tr, h)
  | task :: rest =>
      runTask task tr
        {| document := document h; queue := rest;
           resolved := resolved h; nextPromise := nextPromise h |}
  end.

Fixpoint runEventLoop (n : nat) (tr : t) (h : Host) : t * Host :=
  match n with
  | O => (tr, h)
  | S n' => let '(tr', h') := eventLoopStep tr h in runEventLoop n' tr' h'
  end.

(** *** Shuffling, mini-batches and validation of the data set *)

(** [[array[i], array[j]] = [array[j], array[i]]] for two indices inside
    the array. *)
Definition swap {A} (i j : nat) (l : list A) : list A :=
  match l !! i, l !! j with
  | Some x, Some y => <[i := y]> (<[j := x]> l)
  | _, _ => l
  end.

(** [Math.floor(r * (i + 1))] for the value [r] of [Math.random()]. *)
Definition randomIndex (r : Q) (i : nat) : nat :=
  Z.to_nat (Qfloor (r * inject_Z (Z.of_nat (i + 1)))).

(** The loop of [shuffleArray] from index [i] down to 1; [random i] is the
    value [Math.random()] returns in the iteration with index [i]. *)
Fixpoint shuffleFrom {A} (random : nat → Q) (i : nat) (l : list A) : list A :=
  match i with
  | O => l
  | S i' => shuffleFrom random i' (swap i (randomIndex (random i) i) l)
  end.

(** [shuffleArray(array)] *)
Definition shuffleArrayWith {A} (random : nat → Q) (l : list A) : list A :=
  shuffleFrom random (length l - 1) l.

(** [indices.slice(start, end)] of the loop body of [trainEpoch] at batch
    index [i]. *)
Definition batchIndices (batchSize : positive) (indices : list nat)
    (totalSamples i : nat) : list nat :=
  let b := Pos.to_nat batchSize in
  let start := i * b in
  let stop := Nat.min (start + b) totalSamples in
  take (stop - start) (drop start indices).

(** The first step of the first episode, the only step [validateDataset]
    looks at. *)
Definition firstStep (dataset : Demonstration.DemonstrationDataset)
    : option DemonstrationCollector.DemonstrationStep :=
  match Demonstration.episodes dataset with
  | ep :: _ => head (DemonstrationCollector.steps ep)
  | [] => None
  end.

(** [validateDataset(dataset, policyAgent)], with the two sizes of the
    policy agent. *)
Definition validateDataset (dataset : Demonstration.DemonstrationDataset)
    (observationSize actionSize : nat) : Js.outcome string unit :=
  let infoError :=
    match Demonstration.gameCoreInfo (Demonstration.metadata dataset) with
    | Some info =>
        if negb (Demonstration.observationSize info =? observationSize)%nat then
          Some ("Observation size mismatch: dataset has "
                  +:+ pretty (Demonstration.observationSize info)
                  +:+ ", policy agent expects " +:+ pretty observationSize)
        else if negb (Demonstration.actionSize info =? actionSize)%nat then
          Some ("Action size mismatch: dataset has "
                  +:+ pretty (Demonstration.actionSize info)
                  +:+ ", policy agent expects " +:+ pretty actionSize)
        else None
    | None => None
    end in
  match infoError with
  | Some e => Js.Thrown e
  | None =>
      match firstStep dataset with
      | Some step =>
          if negb (length (DemonstrationCollector.observation step) =? observationSize)%nat
          then Js.Thrown "Observation size mismatch in dataset"
          else if negb (length (DemonstrationCollector.action step) =? actionSize)%nat
          then Js.Thrown "Action size mismatch in dataset"
          else Js.Returned tt
      | None => Js.Returned tt
      end
  end.

(** *** The training call *)

(** The rows [x.slice([begin, 0], [size, -1])] selects from a 2-d tensor:
    a size of -1 takes all the rows from [begin] on; a begin of -1, any
    other negative size and a range that leaves the tensor are rejected.
    (The calls in [prepareTrainingData] reach this with a negative begin
    only when it is -1.) *)
Definition sliceRows (rows : list (list Q)) (begin size : Z)
    : Js.outcome string (list (list Q)) :=
  let len := Z.of_nat (length rows) in
  if (begin <? 0)%Z then Js.Thrown "slice() does not support negative begin indexing."
  else
    let size' := if (size =? -1)%Z then (len - begin)%Z else size in
    if (size' <? 0)%Z then Js.Thrown "Negative size values should be exactly -1"
    else if (len <? begin + size')%Z then Js.Thrown "slice: begin + size exceeds the shape"
    else Js.Returned (take (Z.to_nat size') (drop (Z.to_nat begin) rows)).

(** [x.slice([begin, 0], [size, -1])]: a new tensor. *)
Definition slice (x : nat) (begin size : Z) (m : Memory) : Js.outcome string (nat * Memory) :=
  match tensors m !! x with
  | Some (Tensor2d rows) =>
      match sliceRows rows begin size with
      | Js.Returned selected => Js.Returned (alloc (Tensor2d selected) m)
      | Js.Thrown e => Js.Thrown e
      end
  | _ => Js.Thrown "Tensor is disposed."
  end.

Section TrainCall.

Context {Policy : Type}.
Variable trainBatch :
  Policy → Tensor → Tensor → Policy * list Tensor * Js.outcome string (option Q).
Variable computeValidationLoss :
  Policy → Tensor → Tensor → Js.outcome string (option Q).
Variable shuffleArray : nat → list nat → list nat.

(** The rows of the tensor [tf.tensor2d(values, [rows, cols])] builds, or
    the error it throws when the values do not fit the shape. *)
Variable tensor2dRows : list (list Q) → nat → nat → Js.outcome string (list (list Q)).

(** [Math.floor(totalSamples * validationSplit)] as the host computes it:
    the product is a double, rounded before the floor is taken, so that it
    need not be the floor of the exact product. *)
Variable floorOfProduct : nat → Q → Z.

(** [tf.tensor2d(values, [rows, cols])] *)
Definition tensor2d (values : list (list Q)) (rows cols : nat) (m : Memory)
    : Js.outcome string (nat * Memory) :=
  match tensor2dRows values rows cols with
  | Js.Returned built => Js.Returned (alloc (Tensor2d built) m)
  | Js.Thrown e => Js.Thrown e
  end.

(** [prepareTrainingData(dataset, policyAgent)] with [validationSplit] the
    value of [this.config.validationSplit]: the memory after the call, and
    the training tensors with the validation tensors when there is a
    split.  An exception leaves the tensors built so far allocated. *)
Definition prepareTrainingData (validationSplit : Q)
    (dataset : Demonstration.DemonstrationDataset) (observationSize actionSize : nat)
    (m : Memory) : Memory * Js.outcome string (nat * nat * option (nat * nat)) :=
  let steps := flat_map DemonstrationCollector.steps (Demonstration.episodes dataset) in
  let observations := map DemonstrationCollector.observation steps in
  let actions := map DemonstrationCollector.action steps in
  match tensor2d observations (length observations) observationSize m with
  | Js.Thrown e => (m, Js.Thrown e)
  | Js.Returned (obsTensor, m1) =>
      match tensor2d actions (length actions) actionSize m1 with
      | Js.Thrown e => (m1, Js.Thrown e)
      | Js.Returned (actTensor, m2) =>
          if negb (Qle_bool validationSplit 0) then
            let totalSamples := length observations in
            let valSize := floorOfProduct totalSamples validationSplit in
            let trainSize := (Z.of_nat totalSamples - valSize)%Z in
            match slice obsTensor 0 trainSize m2 with
            | Js.Thrown e => (m2, Js.Thrown e)
            | Js.Returned (trainObs, m3) =>
                match slice actTensor 0 trainSize m3 with
                | Js.Thrown e => (m3, Js.Thrown e)
                | Js.Returned (trainAct, m4) =>
                    match slice obsTensor trainSize valSize m4 with
                    | Js.Thrown e => (m4, Js.Thrown e)
                    | Js.Returned (valObs, m5) =>
                        match slice actTensor trainSize valSize m5 with
                        | Js.Thrown e => (m5, Js.Thrown e)
                        | Js.Returned (valAct, m6) =>
                            (dispose actTensor (dispose obsTensor m6),
                             Js.Returned (trainObs, trainAct, Some (valObs, valAct)))
                        end
                    end
                end
            end
          else (m2, Js.Returned (obsTensor, actTensor, None))
      end
  end.

(** [train(dataset, policyAgent, onProgress?)], with [batchSize], [epochs]
    and [validationSplit] the values of the configuration, the two sizes of
    the policy agent, its trainable state, and the tensor memory and the
    trace before the call. *)
Definition train (this : t) (batchSize : positive) (epochs : nat) (validationSplit : Q)
    (dataset : Demonstration.DemonstrationDataset) (observationSize actionSize : nat)
    (pol : Policy) (m : Memory) (tr : list Event)
    : TrainState * Js.outcome string BCTrainingStats :=
  let start m' :=
    {| t_mem := m'; t_policy := pol; t_trace := tr; t_stats := trainingStats this |} in
  match validateDataset dataset observationSize actionSize with
  | Js.Thrown e => (start m, Js.Thrown e)
  | Js.Returned _ =>
      match prepareTrainingData validationSplit dataset observationSize actionSize m with
      | (m1, Js.Thrown e) => (start m1, Js.Thrown e)
      | (m1, Js.Returned (trainObs, trainAct, valData)) =>
          match epochLoop trainBatch computeValidationLoss shuffleArray
                  batchSize trainObs trainAct valData epochs 0 (start m1) with
          | (s, Js.Thrown e) => (s, Js.Thrown e)
          | (s, Js.Returned _) =>
              let m2 := dispose trainAct (dispose trainObs (t_mem s)) in
              let m3 :=
                match valData with
                | Some (valObs, valAct) => dispose valAct (dispose valObs m2)
                | None => m2
                end in
              ({| t_mem := m3; t_policy := t_policy s; t_trace := t_trace s;
                  t_stats := t_stats s |},
               Js.Returned (t_stats s))
          end
      end
  end.

End TrainCall.

(** The rows a tensor id holds (none when it is disposed or 1-d). *)
Definition rowsOf (x : nat) (m : Memory) : list (list Q) :=
  match tensors m !! x with
  | Some (Tensor2d rows) => rows
  | _ => []
  end.

(** *** Vocabulary of the properties *)

(** [this.config[k]] *)
Definition getOption (c : Config) (k : string) : option Js.value :=
  if String.eqb k "learningRate" then Some (learningRate c)
  else if String.eqb k "batchSize" then Some (batchSize c)
  else if String.eqb k "epochs" then Some (epochs c)
  else if String.eqb k "lossType" then Some (lossType c)
  else if String.eqb k "weightDecay" then Some (weightDecay c)
  else if String.eqb k "validationSplit" then Some (validationSplit c)
  else None.

Definition isNullish (v : Js.value) : bool :=
  match v with Js.Undefined | Js.Null => true | _ => false end.

(** Ids are handed out in increasing order: every live tensor is older
    than the next id. *)
Definition wfMemory (m : Memory) : Prop :=
  ∀ id, id ∈ live m → id < nextId m.

(** The events after which the loop calls [yieldToEventLoop]. *)
Definition yieldsAfter (ev : Event) : bool :=
  match ev with
  | BatchTrained _ i => (i mod 10 =? 0)%nat
  | EpochDone _ => true
  | Yield => false
  end.

(** The trace keeps the cadence: every event that calls for a yield is
    directly followed by one. *)
Definition cadence (T : list Event) : Prop :=
  ∀ n ev, T !! n = Some ev → yieldsAfter ev = true → T !! S n = Some Yield.

(** The events of one completed mini-batch. *)
Definition block (epoch i : nat) : list Event :=
  BatchTrained epoch i :: if (i mod 10 =? 0)%nat then [Yield] else [].

(** *** Sample runs *)

(** A training step that throws, and one that returns loss 1; neither
    leaves a variable. *)
Definition failingTrainBatch (pol : unit) (o a : Tensor)
    : unit * list Tensor * Js.outcome string (option Q) :=
  (pol, [], Js.Thrown "loss is NaN").

Definition okTrainBatch (pol : unit) (o a : Tensor)
    : unit * list Tensor * Js.outcome string (option Q) :=
  (pol, [], Js.Returned (Some 1%Q)).

(** A training step with an optimizer that creates one variable on its
    first step; the trainable state records whether the optimizer has made
    a step. *)
Definition firstStepTrainBatch (stepped : bool) (o a : Tensor)
    : bool * list Tensor * Js.outcome string (option Q) :=
  (true, if stepped then [] else [Tensor2d [[0%Q]]], Js.Returned (Some 1%Q)).

(** A training step whose loss is not a number. *)
Definition nanTrainBatch (pol : unit) (o a : Tensor)
    : unit * list Tensor * Js.outcome string (option Q) :=
  (pol, [], Js.Returned None).

(** A data set of two rows held in tensors 0 (observations) and 1
    (actions). *)
Definition twoRows : LoopState :=
  {| mem := {| tensors := {[ 0 := Tensor2d [[1%Q]; [2%Q]]; 1 := Tensor2d [[0%Q]; [1%Q]] ]};
               nextId := 2 |};
     policy := tt;
     trace := [];
     totalLoss := Some 0%Q |}.

(** The same data set in front of an optimizer that has made no step. *)
Definition twoRowsFirstStep : LoopState :=
  {| mem := mem twoRows; policy := false; trace := []; totalLoss := Some 0%Q |}.

(** A data set of twelve rows, before the first epoch. *)
Definition twelveRows : TrainState :=
  {| t_mem := {| tensors := {[ 0 := Tensor2d (replicate 12 [1%Q]);
                               1 := Tensor2d (replicate 12 [0%Q]) ]};
                 nextId := 2 |};
     t_policy := tt;
     t_trace := [];
     t_stats := {| trainLoss := Some 0%Q; valLoss := Some 0%Q; epoch := 0; step := 0 |} |}.

(** One epoch over the twelve rows in mini-batches of one row, without
    shuffling and without validation data. *)
Definition twelveRowsRun : TrainState * Js.outcome string unit :=
  epochLoop okTrainBatch (λ _ _ _, Js.Returned (Some 0%Q)) (λ _ l, l)
    1%positive 0 1 None 1 0 twelveRows.

(** A hidden tab with other work queued, and a page in the foreground. *)
Definition hiddenHost : Host :=
  {| document := Some {| hidden := true; visibilityState := "hidden" |};
     queue := [OtherWork; VisibilityChange {| hidden := false; visibilityState := "visible" |}];
     resolved := ∅;
     nextPromise := 0 |}.

Definition visibleHost : Host :=
  {| document := Some {| hidden := false; visibilityState := "visible" |};
     queue := [OtherWork];
     resolved := ∅;
     nextPromise := 0 |}.

Definition freshTrainer : t :=
  {| config := defaultConfig;
     trainingStats :=
       {| trainLoss := Some 0%Q; valLoss := Some 0%Q; epoch := 0; step := 0 |};
     yieldChannelResolve := None |}.

(** A [tf.tensor2d] that takes the rows as they are. *)
Definition rowsAsGiven (values : list (list Q)) (rows cols : nat)
    : Js.outcome string (list (list Q)) :=
  Js.Returned values.

(** A data set of one episode with three steps. *)
Definition threeSteps : Demonstration.DemonstrationDataset :=
  let step (x : Q) :=
    {| DemonstrationCollector.observation := [x; x];
       DemonstrationCollector.action := [x];
       DemonstrationCollector.step_metadata := ∅ |} in
  {| Demonstration.episodes :=
       [ {| DemonstrationCollector.id := "e";
            DemonstrationCollector.steps := [step 1%Q; step 2%Q; step 3%Q];
            DemonstrationCollector.metadata := ∅ |} ];
     Demonstration.metadata :=
       {| Demonstration.totalSteps := 3; Demonstration.createdAt := 0%Q;
          Demonstration.updatedAt := 0%Q; Demonstration.gameCoreInfo := None |} |}.

(** An engine with no tensor allocated. *)
Definition emptyMemory : Memory := {| tensors := ∅; nextId := 0 |}.

(** [Math.floor] of a product that is exact in floating point. *)
Definition exactFloor (n : nat) (q : Q) : Z := Qfloor (inject_Z (Z.of_nat n) * q).

End BehaviorCloningTrainer.

(** ** [ModelManager] *)

Module ModelManager.

(** [ModelData]: the record written on each save.  [model] is the result
    of [model.serialize()]. *)
Record ModelData : Type := mkModelData {
  id : string;
  model : Js.value;
  metadata : Js.object
}.

(** The caller's model object: its optional [id] and what [serialize()]
    returns when it returns. *)
Record SerializableModel : Type := mkModel {
  model_id : option string;
  serialize : Js.value
}.

(** The manager.  [db] is the IndexedDB handle, [null] until the database
    has been opened; its object stores are keyed by (store name, record
    id). *)
Record t : Type := mkManager {
  storagePrefix : string;
  maxModels : nat;
  autoSaveInterval : nat;
  compressionEnabled : bool;
  db : option (gmap (string * string) ModelData)
}.

(** [key.startsWith(p)] *)
Definition startsWith (p key : string) : bool := String.prefix p key.

(** [key.includes(sub)] *)
Fixpoint includes (sub key : string) : bool :=
  String.prefix sub key
  || match key with
     | EmptyString => false
     | String _ rest => includes sub rest
     end.

(** [`${this.storagePrefix}current_model`] *)
Definition FIXED_MODEL_KEY (this : t) : string :=
  storagePrefix this +:+ "current_model".

(** [`${this.storagePrefix}model_list`] *)
Definition modelListKey (this : t) : string :=
  storagePrefix this +:+ "model_list".

(** [`${this.storagePrefix}model_${modelId}`], the key [loadModel] and
    [deleteModel] use for a model saved under its own id. *)
Definition modelKey (this : t) (modelId : string) : string :=
  storagePrefix this +:+ "model_" +:+ modelId.

(** The test of the loop in [cleanupOldModels]. *)
Definition isOldModelKey (this : t) (key : string) : bool :=
  startsWith (storagePrefix this) key
  && includes "model_" key
  && negb (String.eqb key (FIXED_MODEL_KEY this)).

(** [keysToRemove.forEach(key => localStorage.removeItem(key))] *)
Definition removeItems (keys : list string) (localStorage : gmap string string)
    : gmap string string :=
  foldl (λ ls key, delete key ls) localStorage keys.

(** [cleanupOldModels()]: the keys are collected first, in the order
    [localStorage.key(i)] enumerates them, and removed afterwards; the
    model list goes last. *)
Definition cleanupOldModels (this : t) (localStorage : gmap string string)
    : gmap string string :=
  let keysToRemove :=
    filter (λ key, isOldModelKey this key = true) (map_to_list localStorage).*1 in
  delete (modelListKey this) (removeItems keysToRemove localStorage).

(** [deleteFromIndexedDB(storeName, key)]: nothing without a database. *)
Definition deleteFromIndexedDB (this : t) (storeName key : string) : t :=
  match db this with
  | None => this
  | Some stores =>
      {| storagePrefix := storagePrefix this;
         maxModels := maxModels this;
         autoSaveInterval := autoSaveInterval this;
         compressionEnabled := compressionEnabled this;
         db := Some (delete (storeName, key) stores) |}
  end.

(** [saveToIndexedDB(storeName, data)]: [store.put(data)] files the record
    under its [id]. *)
Definition saveToIndexedDB (this : t) (storeName : string) (data : ModelData) : t :=
  match db this with
  | None => this
  | Some stores =>
      {| storagePrefix := storagePrefix this;
         maxModels := maxModels this;
         autoSaveInterval := autoSaveInterval this;
         compressionEnabled := compressionEnabled this;
         db := Some (<[(storeName, id data) := data]> stores) |}
  end.

Section SaveModel.

(** [JSON.stringify] on the records written by [saveModel]. *)
Variable stringify : ModelData → string.

(** The [id] found in a stored string: [JSON.parse(s).id] when [s] parses
    and the [id] is truthy, nothing otherwise (a parse error is caught and
    ignored). *)
Variable parsedId : string → option string.

(** What a [saveModel(model, metadata)] call does when nothing in it
    throws: the manager, [localStorage] and the model id it returns.
    [generated] is what [generateModelId()] would return and [savedAt] is
    [new Date().toISOString()].  The call with its exceptions is
    [saveModelCall] below, which gives this result when it returns with
    its delete request served. *)
Definition saveModel (this : t) (localStorage : gmap string string)
    (m : SerializableModel) (md : Js.object) (generated savedAt : string)
    : t * gmap string string * string :=
  let key := FIXED_MODEL_KEY this in
  let this1 :=
    match localStorage !! key with
    | Some oldModelData =>
        if String.eqb oldModelData "" then this
        else match parsedId oldModelData with
             | Some oldId => deleteFromIndexedDB this "models" oldId
             | None => this
             end
    | None => this
    end in
  let ls1 := cleanupOldModels this localStorage in
  let modelId :=
    match model_id m with
    | Some i => if String.eqb i "" then generated else i
    | None => generated
    end in
  let modelData :=
    {| id := modelId;
       model := serialize m;
       metadata :=
         {[ "version" := Js.Str "1.0.0" ]}
           ∪ ({[ "savedAt" := Js.Str savedAt ]} ∪ md) |} in
  let ls2 := <[key := stringify modelData]> ls1 in
  let indexedDBData :=
    {| id := "current_model"; model := model modelData; metadata := metadata modelData |} in
  (saveToIndexedDB this1 "models" indexedDBData, ls2, modelId).

(** The exception of the statement
    [localStorage.setItem(FIXED_MODEL_KEY, JSON.stringify(modelData))] on
    the given storage, if it throws: [JSON.stringify] refusing the record,
    or the storage refusing the item (quota). *)
Variable writeError : gmap string string → ModelData → option string.

(** The error of the IndexedDB [put] request for the given record, if the
    request fails. *)
Variable putError : ModelData → option string.

(** Whether the IndexedDB [delete] request for the given key fails; the
    rejection is caught together with the parse errors. *)
Variable deleteFails : string → bool.

(** The [id] of the record stored under the fixed key, when there is one
    with a truthy [id]. *)
Definition oldModelId (this : t) (localStorage : gmap string string) : option string :=
  match localStorage !! FIXED_MODEL_KEY this with
  | Some oldModelData => if String.eqb oldModelData "" then None else parsedId oldModelData
  | None => None
  end.

(** [saveModel(model, metadata)] with its exceptions.  The body is one
    [try] whose [catch] logs and rethrows, so an exception ends the call
    where it is raised, with what was done before it left in place:
    [cleanupOldModels()] has run by the time [model.serialize()], the write
    to [localStorage] or the IndexedDB [put] can fail.  [serializeError] is
    the exception [model.serialize()] throws, if it throws; otherwise the
    call returns [serialize m].  Parse errors on the old record and a
    failed [delete] request are caught inside. *)
Definition saveModelCall (this : t) (localStorage : gmap string string)
    (m : SerializableModel) (serializeError : option string)
    (md : Js.object) (generated savedAt : string)
    : t * gmap string string * Js.outcome string string :=
  let key := FIXED_MODEL_KEY this in
  let this1 :=
    match oldModelId this localStorage with
    | Some oldId =>
        if deleteFails oldId then this else deleteFromIndexedDB this "models" oldId
    | None => this
    end in
  let ls1 := cleanupOldModels this localStorage in
  let modelId :=
    match model_id m with
    | Some i => if String.eqb i "" then generated else i
    | None => generated
    end in
  match serializeError with
  | Some e => (this1, ls1, Js.Thrown e)
  | None =>
      let modelData :=
        {| id := modelId;
           model := serialize m;
           metadata :=
             {[ "version" := Js.Str "1.0.0" ]}
               ∪ ({[ "savedAt" := Js.Str savedAt ]} ∪ md) |} in
      match writeError ls1 modelData with
      | Some e => (this1, ls1, Js.Thrown e)
      | None =>
          let ls2 := <[key := stringify modelData]> ls1 in
          let indexedDBData :=
            {| id := "current_model"; model := model modelData;
               metadata := metadata modelData |} in
          match db this1, putError indexedDBData with
          | Some _, Some e => (this1, ls2, Js.Thrown e)
          | _, _ => (saveToIndexedDB this1 "models" indexedDBData, ls2, Js.Returned modelId)
          end
      end
  end.

End SaveModel.

(** The keys under the manager's prefix that hold a model: the current
    model's fixed key and every key the cleanup recognizes (those with
    [model_] in them, among which [model_<id>] and the model list). *)
Definition isModelEntry (this : t) (key : string) : bool :=
  String.eqb key (FIXED_MODEL_KEY this)
  || (startsWith (storagePrefix this) key && includes "model_" key).

(** *** A sample store *)

Definition sampleManager : t :=
  {| storagePrefix := "saber_rl_"; maxModels := 10; autoSaveInterval := 50;
     compressionEnabled := false; db := None |}.

(** A current model, an older model saved under its id, the model list and
    an entry that is no model. *)
Definition sampleStorage : gmap string string :=
  {[ "saber_rl_current_model" := "old";
     "saber_rl_model_17" := "older";
     "saber_rl_model_list" := "[17]";
     "saber_rl_settings" := "s" ]}.

Definition sampleSerializable : SerializableModel :=
  {| model_id := None; serialize := Js.Str "weights" |}.

(** *** Loading, listing and deleting *)

(** A string used as a condition ([if (storedData)], [modelId ? .. : ..],
    [modelId || ..]): [null] and the empty string are falsy. *)
Definition truthy (s : option string) : option string :=
  match s with
  | Some x => if String.eqb x "" then None else Some x
  | None => None
  end.

(** [loadFromIndexedDB(storeName, key)]: [null] without a database,
    [undefined] for a record that is not stored. *)
Definition loadFromIndexedDB (this : t) (storeName key : string) : option ModelData :=
  match db this with
  | None => None
  | Some stores => stores !! (storeName, key)
  end.

(** [deserializeModel(modelData)] *)
Definition deserializeModel (modelData : Js.value) : Js.value := modelData.

(** [ModelInfo], an entry of [listModels]. *)
Record ModelInfo : Type := mkModelInfo {
  info_id : string;
  info_metadata : Js.object;
  size : nat
}.

(** [StorageStats] *)
Record StorageStats : Type := mkStorageStats {
  totalSize : nat;
  modelCount : nat;
  localStorageUsage : nat;
  maxStorage : nat;
  usagePercentage : Q
}.

(** [modelList.slice(-n)]: the last [n] elements; [slice(-0)] is
    [slice(0)], the whole array. *)
Definition sliceLast (n : nat) (modelList : list string) : list string :=
  if n =? 0 then modelList else drop (length modelList - n) modelList.

Section LoadModel.

(** [JSON.parse] on a stored model record; it may throw. *)
Variable parse : string → Js.outcome string ModelData.

(** [JSON.parse] and [JSON.stringify] on the stored model list. *)
Variable parseList : string → Js.outcome string (list string).
Variable stringifyList : list string → string.

(** [new Date(metadata.savedAt).getTime()], taken to be a number. *)
Variable getTime : Js.object → Z.

(** [loadModel(modelId)]: [localStorage] first, IndexedDB as the
    fallback. *)
Definition loadModel (this : t) (localStorage : gmap string string)
    (modelId : option string) : Js.outcome string Js.value :=
  let storageKey :=
    match truthy modelId with
    | Some i => modelKey this i
    | None => FIXED_MODEL_KEY this
    end in
  match truthy (localStorage !! storageKey) with
  | Some storedData =>
      match parse storedData with
      | Js.Returned modelData => Js.Returned (deserializeModel (model modelData))
      | Js.Thrown e => Js.Thrown e
      end
  | None =>
      let dbId := default "current_model" (truthy modelId) in
      match loadFromIndexedDB this "models" dbId with
      | Some modelData => Js.Returned (deserializeModel (model modelData))
      | None => Js.Thrown ("Model not found: " +:+ dbId)
      end
  end.

(** The loop of [listModels] over the ids of the model list. *)
Fixpoint collectModels (this : t) (localStorage : gmap string string)
    (ids : list string) (models : list ModelInfo)
    : Js.outcome string (list ModelInfo) :=
  match ids with
  | [] => Js.Returned models
  | modelId :: rest =>
      match truthy (localStorage !! modelKey this modelId) with
      | Some storedData =>
          match parse storedData with
          | Js.Returned modelData =>
              collectModels this localStorage rest
                (models ++ [ {| info_id := modelId;
                                info_metadata := metadata modelData;
                                size := String.length storedData |} ])
          | Js.Thrown e => Js.Thrown e
          end
      | None => collectModels this localStorage rest models
      end
  end.

(** [models.sort((a, b) => time(b) - time(a))]: newest first, entries of
    equal time in the order they had. *)
Fixpoint insertByTime (a : ModelInfo) (models : list ModelInfo) : list ModelInfo :=
  match models with
  | [] => [a]
  | b :: rest =>
      if (getTime (info_metadata b) <=? getTime (info_metadata a))%Z
      then a :: b :: rest
      else b :: insertByTime a rest
  end.

Definition sortByTime (models : list ModelInfo) : list ModelInfo :=
  foldr insertByTime [] models.

(** [listModels()]: an exception is caught and gives the empty list. *)
Definition listModels (this : t) (localStorage : gmap string string) : list ModelInfo :=
  let collected :=
    match truthy (localStorage !! modelListKey this) with
    | Some modelList =>
        match parseList modelList with
        | Js.Returned ids => collectModels this localStorage ids []
        | Js.Thrown e => Js.Thrown e
        end
    | None => Js.Returned []
    end in
  match collected with
  | Js.Returned models => sortByTime models
  | Js.Thrown _ => []
  end.

(** Newest first, the order [listModels] answers in. *)
Definition newestFirst (a b : ModelInfo) : Prop :=
  (getTime (info_metadata b) ≤ getTime (info_metadata a))%Z.

(** An entry backed by a stored, non-empty text that parses, of which it
    reports the metadata and the length. *)
Definition listed (this : t) (localStorage : gmap string string) (a : ModelInfo) : Prop :=
  ∃ stored d, localStorage !! modelKey this (info_id a) = Some stored ∧ stored ≠ ""
              ∧ parse stored = Js.Returned d
              ∧ info_metadata a = metadata d
              ∧ size a = String.length stored.

(** [removeFromModelList(modelId)] *)
Definition removeFromModelList (this : t) (localStorage : gmap string string)
    (modelId : string) : Js.outcome string (gmap string string) :=
  match truthy (localStorage !! modelListKey this) with
  | Some stored =>
      match parseList stored with
      | Js.Returned modelList =>
          let filteredList := filter (λ id, id ≠ modelId) modelList in
          Js.Returned (<[modelListKey this := stringifyList filteredList]> localStorage)
      | Js.Thrown e => Js.Thrown e
      end
  | None => Js.Returned localStorage
  end.

(** [deleteModel(modelId)]: an exception is caught and gives [false], with
    what was done before it left in place. *)
Definition deleteModel (this : t) (localStorage : gmap string string) (modelId : string)
    : t * gmap string string * bool :=
  let ls1 := delete (modelKey this modelId) localStorage in
  let this1 := deleteFromIndexedDB this "models" modelId in
  match removeFromModelList this1 ls1 modelId with
  | Js.Returned ls2 => (this1, ls2, true)
  | Js.Thrown _ => (this1, ls1, false)
  end.

(** [updateModelList(modelId, _modelData)] *)
Definition updateModelList (this : t) (localStorage : gmap string string)
    (modelId : string) : Js.outcome string (gmap string string) :=
  let parsed :=
    match truthy (localStorage !! modelListKey this) with
    | Some stored => parseList stored
    | None => Js.Returned []
    end in
  match parsed with
  | Js.Thrown e => Js.Thrown e
  | Js.Returned modelList =>
      if bool_decide (modelId ∈ modelList) then Js.Returned localStorage
      else
        let pushed := modelList ++ [modelId] in
        let kept :=
          if maxModels this <? length pushed
          then sliceLast (maxModels this) pushed
          else pushed in
        Js.Returned (<[modelListKey this := stringifyList kept]> localStorage)
  end.

End LoadModel.

(** [getStorageStats()]: one pass over the keys of [localStorage]. *)
Definition getStorageStats (this : t) (localStorage : gmap string string) : StorageStats :=
  let '(total, count) :=
    foldl (λ '(total, count) '(key, value),
             if negb (String.eqb key "") && startsWith (storagePrefix this) key then
               if String.eqb value "" then (total, count)
               else (total + String.length value,
                     if includes "model_" key then S count else count)
             else (total, count))
          (0, 0) (map_to_list localStorage) in
  {| totalSize := total;
     modelCount := count;
     localStorageUsage := total;
     maxStorage := 5 * 1024 * 1024;
     usagePercentage :=
       (inject_Z (Z.of_nat total) / inject_Z (5 * 1024 * 1024) * 100)%Q |}.

(** The object stores that [initializeIndexedDB] creates when the database
    is new or older than version 1: each of the three, unless it is
    there. *)
Definition onupgradeneeded (objectStoreNames : list string) : list string :=
  let create name names :=
    if bool_decide (name ∈ names) then names else names ++ [name] in
  create "metrics" (create "experiences" (create "models" objectStoreNames)).

(** The stores [clearAllData] opens its transaction on. *)
Definition storesToClear : list string :=
  ["models"; "experiences"; "metrics"; "sessions"].

(** [clearAllData()].  [objectStoreNames] are the object stores of the open
    database: [db.transaction(names)] throws when one of the names is not
    among them, which is caught and gives [false]. *)
Definition clearAllData (this : t) (localStorage : gmap string string)
    (objectStoreNames : list string) : t * gmap string string * bool :=
  let keysToRemove :=
    filter (λ key, key ≠ "" ∧ startsWith (storagePrefix this) key = true)
           (map_to_list localStorage).*1 in
  let ls1 := removeItems keysToRemove localStorage in
  match db this with
  | None => (this, ls1, true)
  | Some stores =>
      if forallb (λ name, bool_decide (name ∈ objectStoreNames)) storesToClear
      then ({| storagePrefix := storagePrefix this;
               maxModels := maxModels this;
               autoSaveInterval := autoSaveInterval this;
               compressionEnabled := compressionEnabled this;
               db := Some (filter (λ kv, kv.1.1 ∉ storesToClear) stores) |},
            ls1, true)
      else (this, ls1, false)
  end.

(** A manager whose database is open and holds a record of an earlier
    session. *)
Definition openManager : t :=
  {| storagePrefix := "saber_rl_"; maxModels := 2; autoSaveInterval := 50;
     compressionEnabled := false;
     db := Some {[ ("models", "m1") :=
                     {| id := "m1"; model := Js.Str "w1"; metadata := ∅ |} ]} |}.

End ModelManager.

(** ** [DemonstrationStorage] *)

Module DemonstrationStorage.

(** The globals of the host: whether [window] is defined, and
    [localStorage] when it is defined. *)
Record Ambient : Type := mkAmbient {
  hasWindow : bool;
  localStorage : option (gmap string string)
}.

(** What a piece of code does to the host, in order: a [typeof] probe of a
    global, or a call on [localStorage]. *)
Inductive Event : Type :=
| TypeofWindow
| TypeofLocalStorage
| SetItem (key value : string)
| GetItem (key : string)
| RemoveItem (key : string)
| Length
| Key (i : nat).

#[export] Instance StorageEvent_eq_dec : EqDecision Event.
Proof. solve_decision. Defined.

Definition isProbe (ev : Event) : bool :=
  match ev with TypeofWindow | TypeofLocalStorage => true | _ => false end.

Definition isStorageCall (ev : Event) : bool := negb (isProbe ev).

Inductive Error : Type :=
| NotImplemented      (* 'File system storage not implemented. ...' *)
| DatasetNotFound (key : string)
| SyntaxError         (* [JSON.parse] on a string that is not JSON *)
| ReferenceError.     (* [localStorage] is not defined *)

(** Code that logs events, may throw, and may change [localStorage]. *)
Definition M (A : Type) : Type := Ambient → list Event * Js.outcome Error A * Ambient.

Definition ret {A} (a : A) : M A := λ amb, ([], Js.Returned a, amb).

Definition throw {A} (e : Error) : M A := λ amb, ([], Js.Thrown e, amb).

Definition bind {A B} (c : M A) (k : A → M B) : M B :=
  λ amb,
    match c amb with
    | (evs, Js.Thrown e, amb') => (evs, Js.Thrown e, amb')
    | (evs, Js.Returned a, amb') =>
        let '(evs', r, amb'') := k a amb' in (evs ++ evs', r, amb'')
    end.

Notation "'let!' x ':=' c 'in' k" := (bind c (λ x, k))
  (at level 10, x binder, c at level 100, k at level 200).

(** A call on the global [localStorage]: logged, and a [ReferenceError]
    when the global is not defined. *)
Definition storageCall {A} (ev : Event)
    (f : gmap string string → A * gmap string string) : M A :=
  λ amb,
    match localStorage amb with
    | None => ([ev], Js.Thrown ReferenceError, amb)
    | Some ls =>
        let '(a, ls') := f ls in
        ([ev], Js.Returned a, {| hasWindow := hasWindow amb; localStorage := Some ls' |})
    end.

Definition setItem (key value : string) : M unit :=
  storageCall (SetItem key value) (λ ls, (tt, <[key := value]> ls)).

Definition getItem (key : string) : M (option string) :=
  storageCall (GetItem key) (λ ls, (ls !! key, ls)).

Definition removeItem (key : string) : M unit :=
  storageCall (RemoveItem key) (λ ls, (tt, delete key ls)).

Definition length_ : M nat :=
  storageCall Length (λ ls, (length (map_to_list ls), ls)).

Definition key_ (i : nat) : M (option string) :=
  storageCall (Key i) (λ ls, ((map_to_list ls).*1 !! i, ls)).

Inductive Format : Type := json | binary.

Record t : Type := mkStorage {
  storageKey : string;
  format : Format;
  isBrowser : bool
}.

(** [a || b] on strings: the empty string is falsy. *)
Definition orElse (a : option string) (b : string) : string :=
  match a with
  | Some s => if String.eqb s "" then b else s
  | None => b
  end.

(** [constructor(config?)], with the two options read from the bag.  The
    probes are those of
    [typeof window !== 'undefined' && typeof localStorage !== 'undefined'];
    the second is skipped when the first fails. *)
Definition constructor (storageKey_opt : option string) (format_opt : option Format)
    (amb : Ambient) : list Event * t :=
  (if hasWindow amb then [TypeofWindow; TypeofLocalStorage] else [TypeofWindow],
   {| storageKey := orElse storageKey_opt "mimicrl_demonstrations";
      format := default json format_opt;
      isBrowser := hasWindow amb && bool_decide (is_Some (localStorage amb)) |}).

Section Operations.

(** A [DemonstrationDataset] and its JSON text. *)
Context {Dataset : Type}.
Variable stringify : Dataset → string.
Variable parse : string → option Dataset.

(** [saveDataset(dataset, filename?)]; [timestamp] is the decimal text of
    [Date.now()]. *)
Definition saveDataset (this : t) (dataset : Dataset) (filename : option string)
    (timestamp : string) : M string :=
  let filename :=
    orElse filename
      ("demonstrations_" +:+ timestamp +:+ "."
         +:+ match format this with json => "json" | binary => "bin" end) in
  if isBrowser this then
    let key := storageKey this +:+ "_" +:+ filename in
    let! _ := setItem key (stringify dataset) in
    ret key
  else throw NotImplemented.

(** [loadDataset(key)] *)
Definition loadDataset (this : t) (key : string) : M Dataset :=
  if isBrowser this then
    let! found := getItem key in
    match found with
    | None => throw (DatasetNotFound key)
    | Some text =>
        if String.eqb text "" then throw (DatasetNotFound key)
        else match parse text with
             | Some d => ret d
             | None => throw SyntaxError
             end
    end
  else throw NotImplemented.

(** The loop [for (let i = from; i < localStorage.length; i++) body] over
    at most [fuel] indices; the storage has finitely many keys and the body
    removes none, so [fuel] = number of keys is enough. *)
Fixpoint forEachKey {A} (fuel from : nat) (body : string → A → M A) (acc : A) : M A :=
  let! n := length_ in
  if (from <? n)%nat then
    match fuel with
    | O => ret acc
    | S fuel' =>
        let! k := key_ from in
        let! acc' :=
          match k with
          | Some key => if String.eqb key "" then ret acc else body key acc
          | None => ret acc
          end in
        forEachKey fuel' (S from) body acc'
    end
  else ret acc.

Definition keyCount (amb : Ambient) : nat :=
  match localStorage amb with Some ls => length (map_to_list ls) | None => 0 end.

(** [listDatasets()] *)
Definition listDatasets (this : t) : M (list string) :=
  if isBrowser this then
    λ amb,
      forEachKey (keyCount amb) 0
        (λ key keys,
           if String.prefix (storageKey this +:+ "_") key
           then ret (keys ++ [key]) else ret keys)
        [] amb
  else throw NotImplemented.

(** [deleteDataset(key)] *)
Definition deleteDataset (this : t) (key : string) : M unit :=
  if isBrowser this then removeItem key else throw NotImplemented.

(** [getStorageSize()] *)
Definition getStorageSize (this : t) : M nat :=
  if isBrowser this then
    λ amb,
      forEachKey (keyCount amb) 0
        (λ key total,
           if String.prefix (storageKey this +:+ "_") key then
             let! value := getItem key in
             match value with
             | Some v => if String.eqb v "" then ret total
                         else ret (total + String.length v)%nat
             | None => ret total
             end
           else ret total)
        0%nat amb
  else ret 0%nat.

(** The storage operations of the class, with their arguments. *)
Inductive Op : Type :=
| SaveDataset (dataset : Dataset) (filename : option string) (timestamp : string)
| LoadDataset (key : string)
| ListDatasets
| DeleteDataset (key : string)
| GetStorageSize.

(** The events of an operation and whether it ended in the
    not-implemented error of the file-system branch. *)
Definition isNotImplemented {A} (r : Js.outcome Error A) : bool :=
  match r with Js.Thrown NotImplemented => true | _ => false end.

Definition observe {A} (r : list Event * Js.outcome Error A * Ambient)
    : list Event * bool :=
  (r.1.1, isNotImplemented r.1.2).

Definition run (op : Op) (this : t) (amb : Ambient) : list Event * bool :=
  match op with
  | SaveDataset d f ts => observe (saveDataset this d f ts amb)
  | LoadDataset k => observe (loadDataset this k amb)
  | ListDatasets => observe (listDatasets this amb)
  | DeleteDataset k => observe (deleteDataset this k amb)
  | GetStorageSize => observe (getStorageSize this amb)
  end.

End Operations.

(** The backend an operation went to, read off what it did: the
    local-storage branch calls [localStorage] first thing, the other branch
    never does. *)
Inductive Backend : Type := LocalStorageBackend | FileSystemBackend.

Definition backendTaken (events : list Event) : Backend :=
  if existsb isStorageCall events then LocalStorageBackend else FileSystemBackend.

Definition backendOf (this : t) : Backend :=
  if isBrowser this then LocalStorageBackend else FileSystemBackend.

(** Code that probes no global. *)
Definition quiet {A} (c : M A) : Prop :=
  ∀ amb, Forall (λ ev, isProbe ev = false) (c amb).1.1.

(** Code that starts with a call on [localStorage]. *)
Definition startsWithStorageCall {A} (c : M A) : Prop :=
  ∀ amb, ∃ ev rest, (c amb).1.1 = ev :: rest ∧ isStorageCall ev = true.

(** Code that never ends in the not-implemented error. *)
Definition implemented {A} (c : M A) : Prop :=
  ∀ amb, isNotImplemented (c amb).1.2 = false.

(** *** Sample runs *)

(** A browser with one stored data set, and the same host after
    [localStorage] has gone. *)
Definition browser : Ambient :=
  {| hasWindow := true;
     localStorage := Some {[ "mimicrl_demonstrations_a.json" := "{}" ]} |}.

Definition noStorage : Ambient :=
  {| hasWindow := true; localStorage := None |}.

(** [createDataset(episodes, gameCoreInfo?)]; the two time stamps are the
    two readings of [Date.now()]. *)
Definition createDataset (episodes : list DemonstrationCollector.DemonstrationEpisode)
    (gameCoreInfo : option Demonstration.GameCoreInfo) (createdAt updatedAt : Q)
    : Demonstration.DemonstrationDataset :=
  let totalSteps :=
    foldl (λ sum ep, sum + length (DemonstrationCollector.steps ep)) 0 episodes in
  {| Demonstration.episodes := episodes;
     Demonstration.metadata :=
       {| Demonstration.totalSteps := totalSteps;
          Demonstration.createdAt := createdAt;
          Demonstration.updatedAt := updatedAt;
          Demonstration.gameCoreInfo := gameCoreInfo |} |}.

(** The keys of the store: those that start with [storageKey + '_']. *)
Definition ownKey (this : t) (key : string) : bool :=
  String.prefix (storageKey this +:+ "_") key.

(** The characters an entry adds to the store's size: the length of its
    value when the key is the store's, nothing otherwise. *)
Definition entrySize (this : t) (entry : string * string) : nat :=
  if ownKey this entry.1 then String.length entry.2 else 0.

End DemonstrationStorage.

(** ** [NetworkUtils] *)

Module NetworkUtils.

(** [NetworkArchitecture] *)
Record NetworkArchitecture : Type := mkArchitecture {
  inputSize : nat;
  hiddenLayers : list nat;
  outputSize : nat;
  activation : string
}.

Section Tf.

(** The values a tensor holds ([Float32Array] entries) and JavaScript
    numbers.  [toNumber] reads a tensor entry as a number
    ([Array.from(w.dataSync())]); [convert dtype] stores a number in a
    tensor of the given dtype. *)
Context {Float32 Number : Type}.
Variable toNumber : Float32 → Number.
Variable convert : string → Number → Float32.

(** The activations [tf.layers.dense] accepts. *)
Variable knownActivation : string → bool.

(** The initial values [tf.layers.dense] draws for the weight of the given
    name and shape. *)
Variable initialValues : string → list nat → list Float32.

(** One entry of [SerializedNetworkData.weights]. *)
Record SerializedWeight : Type := mkWeight {
  data : list Number;
  shape : list nat;
  dtype : string
}.

Record SerializedNetworkData : Type := mkSerialized {
  architecture : NetworkArchitecture;
  weights : list SerializedWeight
}.

(** A tensor: flat values, shape and dtype. *)
Record Tensor : Type := mkTensor {
  t_data : list Float32;
  t_shape : list nat;
  t_dtype : string
}.

(** A dense layer of a sequential model, with its two weights. *)
Record DenseLayer : Type := mkDense {
  units : nat;
  l_activation : string;
  name : string;
  kernel : Tensor;
  bias : Tensor
}.

(** A [tf.sequential()] model of dense layers. *)
Abbreviation LayersModel := (list DenseLayer).

(** The number of entries a shape calls for. *)
Definition sizeFromShape (shape : list nat) : nat := foldr Nat.mul 1 shape.

(** [tf.tensor(values, shape, dtype)]: the flat values must fill the
    shape. *)
Definition tensor (values : list Number) (shape : list nat) (dtype : string)
    : Js.outcome string Tensor :=
  if (length values =? sizeFromShape shape)%nat then
    Js.Returned {| t_data := map (convert dtype) values; t_shape := shape; t_dtype := dtype |}
  else Js.Thrown "Based on the provided shape, the tensor should have a different number of values".

(** [model.add(tf.layers.dense({units, activation, name}))] on a model
    whose output so far has [inputDim] entries: [units] must be a positive
    integer and the activation a known one; the layer gets a kernel of
    shape [[inputDim, units]] and a bias of shape [[units]], both
    [float32]. *)
Definition dense (inputDim : nat) (units_opt : option nat) (act name : string)
    : Js.outcome string DenseLayer :=
  match units_opt with
  | None => Js.Thrown "units is not a positive integer"
  | Some u =>
      if (u =? 0)%nat then Js.Thrown "units is not a positive integer"
      else if negb (knownActivation act) then Js.Thrown "Unknown activation"
      else
        Js.Returned
          {| units := u;
             l_activation := act;
             name := name;
             kernel := {| t_data := initialValues (name +:+ "/kernel") [inputDim; u];
                          t_shape := [inputDim; u];
                          t_dtype := "float32" |};
             bias := {| t_data := initialValues (name +:+ "/bias") [u];
                        t_shape := [u];
                        t_dtype := "float32" |} |}
  end.

(** [model.getWeights()]: kernel then bias, layer by layer. *)
Definition getWeights (m : LayersModel) : list Tensor :=
  flat_map (λ l, [kernel l; bias l]) m.

(** The layers with their weights replaced, two tensors per layer. *)
Fixpoint assign (m : LayersModel) (ws : list Tensor) : LayersModel :=
  match m, ws with
  | l :: m', k :: b :: ws' =>
      {| units := units l; l_activation := l_activation l; name := name l;
         kernel := k; bias := b |} :: assign m' ws'
  | _, _ => m
  end.

(** [model.setWeights(tensors)]: as many tensors as the model has weights,
    each of the shape and dtype of the weight it replaces. *)
Definition setWeights (m : LayersModel) (ws : list Tensor) : Js.outcome string LayersModel :=
  let params := getWeights m in
  if negb (length params =? length ws)%nat then
    Js.Thrown "You called setWeights(weights) with a weight list of the wrong length"
  else if negb (bool_decide (map t_shape params = map t_shape ws)) then
    Js.Thrown "Layer weight shape not compatible with provided weight shape"
  else if negb (bool_decide (map t_dtype params = map t_dtype ws)) then
    Js.Thrown "dtype of the new value and previous value must match"
  else Js.Returned (assign m ws).

(** The hidden layers after the first: [hidden_layer_i] for
    [i = from, from + 1, ...]. *)
Fixpoint addHidden (inputDim from : nat) (sizes : list nat) (act : string)
    : Js.outcome string (LayersModel * nat) :=
  match sizes with
  | [] => Js.Returned ([], inputDim)
  | u :: rest =>
      match dense inputDim (Some u) act ("hidden_layer_" +:+ pretty from) with
      | Js.Thrown e => Js.Thrown e
      | Js.Returned l =>
          match addHidden u (S from) rest act with
          | Js.Thrown e => Js.Thrown e
          | Js.Returned (ls, out) => Js.Returned (l :: ls, out)
          end
      end
  end.

(** [tensors.map(w => tf.tensor(w.data, w.shape, w.dtype))] *)
Fixpoint toTensors (ws : list SerializedWeight) : Js.outcome string (list Tensor) :=
  match ws with
  | [] => Js.Returned []
  | w :: rest =>
      match tensor (data w) (shape w) (dtype w) with
      | Js.Thrown e => Js.Thrown e
      | Js.Returned t =>
          match toTensors rest with
          | Js.Thrown e => Js.Thrown e
          | Js.Returned ts => Js.Returned (t :: ts)
          end
      end
  end.

(** [NetworkUtils.loadNetworkFromSerialized(serializedData)] *)
Definition loadNetworkFromSerialized (sd : SerializedNetworkData)
    : Js.outcome string LayersModel :=
  let arch := architecture sd in
  match dense (inputSize arch) (head (hiddenLayers arch)) (activation arch) "input_layer" with
  | Js.Thrown e => Js.Thrown e
  | Js.Returned first =>
      match addHidden (units first) 1 (tail (hiddenLayers arch)) (activation arch) with
      | Js.Thrown e => Js.Thrown e
      | Js.Returned (hidden, lastDim) =>
          match dense lastDim (Some (outputSize arch)) "linear" "output_layer" with
          | Js.Thrown e => Js.Thrown e
          | Js.Returned output =>
              let m := first :: hidden ++ [output] in
              if (0 <? length (weights sd))%nat then
                match toTensors (weights sd) with
                | Js.Thrown e => Js.Thrown e
                | Js.Returned weightTensors => setWeights m weightTensors
                end
              else Js.Returned m
          end
      end
  end.

(** [NetworkUtils.serializeNetwork(model, architecture)] *)
Definition serializeNetwork (m : LayersModel) (arch : NetworkArchitecture)
    : SerializedNetworkData :=
  {| architecture := arch;
     weights :=
       map (λ w, {| data := map toNumber (t_data w);
                    shape := t_shape w;
                    dtype := t_dtype w |})
         (getWeights m) |}.

(** The shapes of the weights of a dense chain: a kernel [[in, out]] and a
    bias [[out]] per layer. *)
Fixpoint chainShapes (inputDim : nat) (sizes : list nat) : list (list nat) :=
  match sizes with
  | [] => []
  | u :: rest => [inputDim; u] :: [u] :: chainShapes u rest
  end.

(** A weight list consistent with an architecture: the shapes are those of
    the architecture's layers, and every weight is a well-formed [float32]
    tensor. *)
Definition consistent (arch : NetworkArchitecture) (ws : list Tensor) : Prop :=
  map t_shape ws = chainShapes (inputSize arch) (hiddenLayers arch ++ [outputSize arch])
  ∧ Forall (λ w, t_dtype w = "float32" ∧ length (t_data w) = sizeFromShape (t_shape w)) ws.


(** A well-formed [float32] tensor. *)
Definition wellFormed (w : Tensor) : Prop :=
  t_dtype w = "float32" ∧ length (t_data w) = sizeFromShape (t_shape w).

(** The dimension a chain of layers ends with. *)
Fixpoint lastDim (inputDim : nat) (sizes : list nat) : nat :=
  match sizes with
  | [] => inputDim
  | u :: rest => lastDim u rest
  end.

(** Size, activation and name of a layer. *)
Definition layerSpec (l : DenseLayer) : nat * string * string :=
  (units l, l_activation l, name l).

(** The layers an architecture declares: [input_layer], then
    [hidden_layer_i], all with the architecture's activation, and a linear
    [output_layer]. *)
Fixpoint hiddenSpecs (from : nat) (sizes : list nat) (act : string)
    : list (nat * string * string) :=
  match sizes with
  | [] => []
  | u :: rest => (u, act, "hidden_layer_" +:+ pretty from) :: hiddenSpecs (S from) rest act
  end.

Definition declaredLayers (arch : NetworkArchitecture) : list (nat * string * string) :=
  match hiddenLayers arch with
  | [] => []
  | u :: rest =>
      (u, activation arch, "input_layer") :: hiddenSpecs 1 rest (activation arch)
      ++ [(outputSize arch, "linear", "output_layer")]
  end.

End Tf.

(** *** A sample network *)

(** Two inputs, one hidden layer of two [relu] units, one output; tensor
    entries and numbers are both integers here. *)
Definition sampleArchitecture : NetworkArchitecture :=
  {| inputSize := 2; hiddenLayers := [2]; outputSize := 1; activation := "relu" |}.

Definition sampleKnown (act : string) : bool :=
  String.eqb act "relu" || String.eqb act "linear".

Definition sampleInitial (name : string) (shape : list nat) : list Z :=
  replicate (foldr Nat.mul 1 shape) 0%Z.

Definition sampleModel : list (@DenseLayer Z) :=
  [ {| units := 2; l_activation := "relu"; name := "input_layer";
       kernel := {| t_data := [1; 2; 3; 4]%Z; t_shape := [2; 2]; t_dtype := "float32" |};
       bias := {| t_data := [5; 6]%Z; t_shape := [2]; t_dtype := "float32" |} |};
    {| units := 1; l_activation := "linear"; name := "output_layer";
       kernel := {| t_data := [7; 8]%Z; t_shape := [2; 1]; t_dtype := "float32" |};
       bias := {| t_data := [9]%Z; t_shape := [1]; t_dtype := "float32" |} |} ].

End NetworkUtils.

(** ** [PPOTrainer] *)

(** The trainer's source is not among the files above; its advantage
    estimation and the outline of its training call are modelled from the
    design document, over exact rationals. *)

Module PPOTrainer.

Local Open Scope Q_scope.

(** Modelled from the spec: the [Transition] record of section 3, with
    the fields the trainer computes with; the trainer's code is not in the
    sources. *)
Record Transition : Type := mkTransition {
  reward : Q;
  value : Q;
  logProb : Q;
  done : bool
}.

(** Modelled from the spec: how a trajectory ended (section 4.3), with its
    episode, or cut by the collection budget, in which case a bootstrap
    value stands for the rest; the collector's code is not in the sources. *)
Inductive Ending : Type :=
| Terminated
| Truncated (bootstrap : Q).

Record Trajectory : Type := mkTrajectory {
  steps : list Transition;
  ending : Ending;
  valueAfter : Q       (* the value estimate of the state after the last step *)
}.

(** [1 − done_t] *)
Definition notDone (d : bool) : Q := if d then 0 else 1.

(** Modelled from the spec: the one-step TD residual of section 4.4,
    [δ_t = r_t + γ·V(s_{t+1})·(1 − done_t) − V(s_t)]; the trainer's code is
    not in the sources. *)
Definition tdResidual (γ : Q) (tr : Transition) (vNext : Q) : Q :=
  reward tr + γ * vNext * notDone (done tr) - value tr.

(** [V(s_{t+1})] for the first transition of [rest]'s predecessor. *)
Definition nextValue (vAfter : Q) (rest : list Transition) : Q :=
  match rest with
  | [] => vAfter
  | next :: _ => value next
  end.

(** Modelled from the spec: the residuals [δ_t] of a whole trajectory;
    the trainer's code is not in the sources. *)
Fixpoint tdResiduals (γ vAfter : Q) (traj : list Transition) : list Q :=
  match traj with
  | [] => []
  | tr :: rest => tdResidual γ tr (nextValue vAfter rest) :: tdResiduals γ vAfter rest
  end.

(** Modelled from the spec: "A after the last step = 0, or the bootstrap
    value if truncated"; the trainer's code is not in the sources. *)
Definition advantageAfter (e : Ending) : Q :=
  match e with
  | Terminated => 0
  | Truncated bootstrap => bootstrap
  end.

(** Modelled from the spec: the GAE recursion of section 4.4, walking
    backward from the last transition to the first,
    [A_t = δ_t + γ·λ·(1 − done_t)·A_{t+1}]; the trainer's code is not in
    the sources. *)
Fixpoint advantages (γ lam vAfter aAfter : Q) (traj : list Transition) : list Q :=
  match traj with
  | [] => []
  | tr :: rest =>
      let later := advantages γ lam vAfter aAfter rest in
      let aNext := match later with [] => aAfter | a :: _ => a end in
      (tdResidual γ tr (nextValue vAfter rest) + γ * lam * notDone (done tr) * aNext)
        :: later
  end.

(** Modelled from the spec: [Return_t = A_t + V(s_t)]; the trainer's code
    is not in the sources. *)
Fixpoint returns (advs : list Q) (traj : list Transition) : list Q :=
  match advs, traj with
  | a :: advs', tr :: rest => (a + value tr) :: returns advs' rest
  | _, _ => []
  end.

(** Modelled from the spec: the full discounted Monte-Carlo return of
    section 8, from each step to the end of its episode,
    [G_t = r_t + γ·G_{t+1}], where nothing is collected past a [done] step
    or past the last step; the trainer's code is not in the sources. *)
Fixpoint monteCarloReturns (γ : Q) (traj : list Transition) : list Q :=
  match traj with
  | [] => []
  | tr :: rest =>
      let later := monteCarloReturns γ rest in
      let gNext := match later with [] => 0 | g :: _ => g end in
      (reward tr + γ * notDone (done tr) * gNext) :: later
  end.

(** The Monte-Carlo return minus the baseline [V(s_t)], step by step. *)
Fixpoint minusBaseline (gs : list Q) (traj : list Transition) : list Q :=
  match gs, traj with
  | g :: gs', tr :: rest => (g - value tr) :: minusBaseline gs' rest
  | _, _ => []
  end.

(** The episode of the trajectory is over: its last transition is a
    [done] one. *)
Definition endsDone (traj : list Transition) : Prop :=
  match last traj with
  | Some tr => done tr = true
  | None => True
  end.

(** The advantages of a collected trajectory. *)
Definition gae (γ lam : Q) (t : Trajectory) : list Q :=
  advantages γ lam (valueAfter t) (advantageAfter (ending t)) (steps t).

(** *** The training call *)

(** Modelled from the spec: the scalar diagnostics a training call
    outputs (section 4.4); the trainer's code is not in the sources. *)
Record Diagnostics : Type := mkDiagnostics {
  policyLoss : Q;
  valueLoss : Q;
  entropy : Q;
  klDivergence : Q;
  clipFraction : Q
}.

Definition zeroDiagnostics : Diagnostics :=
  {| policyLoss := 0; valueLoss := 0; entropy := 0; klDivergence := 0; clipFraction := 0 |}.

Definition addDiagnostics (a b : Diagnostics) : Diagnostics :=
  {| policyLoss := policyLoss a + policyLoss b;
     valueLoss := valueLoss a + valueLoss b;
     entropy := entropy a + entropy b;
     klDivergence := klDivergence a + klDivergence b;
     clipFraction := clipFraction a + clipFraction b |}.

Definition scaleDiagnostics (c : Q) (a : Diagnostics) : Diagnostics :=
  {| policyLoss := c * policyLoss a;
     valueLoss := c * valueLoss a;
     entropy := c * entropy a;
     klDivergence := c * klDivergence a;
     clipFraction := c * clipFraction a |}.

(** A transition decorated with its advantage and return. *)
Record Sample : Type := mkSample {
  transition : Transition;
  advantage : Q;
  return_ : Q
}.

Record Hyperparameters : Type := mkHyper {
  gamma : Q;
  gaeLambda : Q;
  epochs : nat;
  miniBatchSize : positive
}.

Definition decorate (h : Hyperparameters) (t : Trajectory) : list Sample :=
  let advs := gae (gamma h) (gaeLambda h) t in
  zip_with (λ tr ar, {| transition := tr; advantage := ar.1; return_ := ar.2 |})
    (steps t) (zip advs (returns advs (steps t))).

(** Cut a list into pieces of [n] elements (the last one may be
    shorter); [fuel] bounds the number of pieces. *)
Fixpoint chunks {A} (fuel n : nat) (l : list A) : list (list A) :=
  match fuel, l with
  | O, _ | _, [] => []
  | S fuel', _ => take n l :: chunks fuel' n (drop n l)
  end.

Section Train.

(** The agent's trainable parameters. *)
Context {Params : Type}.

(** Advantage normalization across the pool (zero mean, unit variance). *)
Variable normalize : list Sample → list Sample.

(** The reshuffle drawn in the given epoch. *)
Variable shuffle : nat → list Sample → list Sample.

(** One clipped-objective gradient step on a mini-batch: the parameters
    after it and the mini-batch's diagnostics. *)
Variable gradientStep : Params → list Sample → Params * Diagnostics.

(** One pass over the mini-batches of an epoch. *)
Definition runBatches (state : Params * list Diagnostics) (batches : list (list Sample))
    : Params * list Diagnostics :=
  foldl (λ st batch,
           let '(agent', d) := gradientStep st.1 batch in (agent', st.2 ++ [d]))
    state batches.

(** Modelled from the spec: step 2 of section 4.4, [epochs] passes over the
    pool, each partitioned into reshuffled mini-batches of [miniBatchSize]
    transitions; the trainer's code is not in the sources. *)
Definition optimize (h : Hyperparameters) (pool : list Sample) (agent : Params)
    : Params * list Diagnostics :=
  foldl (λ st epoch,
           runBatches st
             (chunks (length pool) (Pos.to_nat (miniBatchSize h)) (shuffle epoch pool)))
    (agent, []) (seq 0 (epochs h)).

(** Modelled from the spec: "diagnostics aggregated across all
    mini-batches of the call", as their mean, and zero when there is no
    mini-batch (section 7); the trainer's code is not in the sources. *)
Definition aggregate (ds : list Diagnostics) : Diagnostics :=
  match ds with
  | [] => zeroDiagnostics
  | _ => scaleDiagnostics (1 / inject_Z (Z.of_nat (length ds)))
           (foldr addDiagnostics zeroDiagnostics ds)
  end.

(** Modelled from the spec: the training call of section 4.4 with its
    failure mode "empty transition pool → trainer returns a no-op
    zero-diagnostic result rather than erroring"; the trainer's code is not
    in the sources. *)
Definition train (h : Hyperparameters) (trajectories : list Trajectory) (agent : Params)
    : Js.outcome string (Diagnostics * Params) :=
  let pool := flat_map (decorate h) trajectories in
  match pool with
  | [] => Js.Returned (zeroDiagnostics, agent)
  | _ =>
      let '(agent', ds) := optimize h (normalize pool) agent in
      Js.Returned (aggregate ds, agent')
  end.

End Train.

(** *** Samples *)

(** Two steps, the second one ending the episode. *)
Definition sampleTrajectory : Trajectory :=
  {| steps := [ {| reward := 1; value := 1 # 2; logProb := 0; done := false |};
                {| reward := 2; value := 1 # 4; logProb := 0; done := true |} ];
     ending := Terminated;
     valueAfter := 0 |}.

Definition emptyTrajectory : Trajectory :=
  {| steps := []; ending := Terminated; valueAfter := 0 |}.

Definition sampleHyper : Hyperparameters :=
  {| gamma := 99 # 100; gaeLambda := 95 # 100; epochs := 4; miniBatchSize := 64 |}.

(** A gradient step that would move the parameters if it ran. *)
Definition countingStep (agent : nat) (batch : list Sample) : nat * Diagnostics :=
  (S agent, zeroDiagnostics).

End PPOTrainer.

(** ** [TrainingVisualizer]: the data of the charts *)

Module TrainingVisualizer.

(** The [data] of a chart: the labels of the x axis and the [data] array of
    each dataset. *)
Record ChartData : Type := mkChartData {
  labels : list string;
  datasets : list (list Q)
}.

(** The result of [calculateBatchStats]. *)
Record BatchStats : Type := mkBatchStats {
  avgReward : Q;
  minReward : Q;
  maxReward : Q;
  avgLength : Q;
  completionRate : Q;
  policyEntropy : Q;
  policyLoss : Q;
  valueLoss : Q
}.

(** [metrics.rewardStats] and the metrics object, with the properties the
    visualizer reads for its charts; a property that is [undefined] is
    [None]. *)
Record RewardStats : Type := mkRewardStats {
  avg : option Q;
  min : option Q;
  max : option Q
}.

Record Metrics : Type := mkMetrics {
  gamesCompleted : option Q;
  rewardStats : option RewardStats;
  averageGameLength : option Q;
  winRate : option Q;
  m_completionRate : option Q;
  m_policyEntropy : option Q;
  m_policyLoss : option Q;
  m_valueLoss : option Q
}.

(** The visualizer: the options the charts depend on, the rollout counter
    and the four charts ([null] until they are created). *)
Record t : Type := mkVisualizer {
  maxDataPoints : nat;
  episodeLengthUnit : string;
  actionIntervalSeconds : Q;
  batchNumber : nat;
  isInitialized : bool;
  rewardChart : option ChartData;
  lengthChart : option ChartData;
  completionChart : option ChartData;
  policyChart : option ChartData
}.

(** [x || 0] on a number that may be [undefined]. *)
Definition orZero (x : option Q) : Q := default 0%Q x.

(** [calculateBatchStats(metrics)] *)
Definition calculateBatchStats (this : t) (metrics : Metrics) : BatchStats :=
  let rewardStats :=
    default {| avg := Some 0%Q; min := Some 0%Q; max := Some 0%Q |} (rewardStats metrics) in
  let avgLength := orZero (averageGameLength metrics) in
  let avgLength :=
    if String.eqb (episodeLengthUnit this) "seconds" && negb (Qle_bool avgLength 0)
    then (avgLength * actionIntervalSeconds this)%Q
    else avgLength in
  let completionRate :=
    match winRate metrics with
    | Some w => (w * 100)%Q
    | None =>
        match m_completionRate metrics with
        | Some c => (c * 100)%Q
        | None => 0%Q
        end
    end in
  {| avgReward := orZero (avg rewardStats);
     minReward := orZero (min rewardStats);
     maxReward := orZero (max rewardStats);
     avgLength := avgLength;
     completionRate := completionRate;
     policyEntropy := default 0%Q (m_policyEntropy metrics);
     policyLoss := default 0%Q (m_policyLoss metrics);
     valueLoss := default 0%Q (m_valueLoss metrics) |}.

(** [array.push(x)] and [array.shift()]. *)
Definition push {A} (x : A) (l : list A) : list A := l ++ [x].
Definition shift {A} (l : list A) : list A := tail l.

(** [chart.data.labels.push(`Rollout ${this.batchNumber}`)] *)
Definition pushLabel (batchNumber : nat) (chart : ChartData) : ChartData :=
  {| labels := push ("Rollout " +:+ pretty batchNumber) (labels chart);
     datasets := datasets chart |}.

(** [chart.data.datasets[i].data.push(x)]; the charts are created with
    the datasets the update functions write to. *)
Definition pushData (i : nat) (x : Q) (chart : ChartData) : ChartData :=
  {| labels := labels chart; datasets := alter (push x) i (datasets chart) |}.

(** [updateRewardChart(batchStats)] *)
Definition updateRewardChart (this : t) (batchStats : BatchStats) : option ChartData :=
  match rewardChart this with
  | None => None
  | Some chart =>
      let chart := pushLabel (batchNumber this) chart in
      let chart := pushData 0 (avgReward batchStats) chart in
      let chart := pushData 1 (minReward batchStats) chart in
      let chart := pushData 2 (maxReward batchStats) chart in
      Some (if maxDataPoints this <? length (labels chart)
            then {| labels := shift (labels chart); datasets := shift <$> datasets chart |}
            else chart)
  end.

(** [updateLengthChart(batchStats)] *)
Definition updateLengthChart (this : t) (batchStats : BatchStats) : option ChartData :=
  match lengthChart this with
  | None => None
  | Some chart =>
      let chart := pushLabel (batchNumber this) chart in
      let chart := pushData 0 (avgLength batchStats) chart in
      Some (if maxDataPoints this <? length (labels chart)
            then {| labels := shift (labels chart);
                    datasets := alter shift 0 (datasets chart) |}
            else chart)
  end.

(** [updateCompletionChart(batchStats)] *)
Definition updateCompletionChart (this : t) (batchStats : BatchStats) : option ChartData :=
  match completionChart this with
  | None => None
  | Some chart =>
      let chart := pushLabel (batchNumber this) chart in
      let chart := pushData 0 (completionRate batchStats) chart in
      Some (if maxDataPoints this <? length (labels chart)
            then {| labels := shift (labels chart);
                    datasets := alter shift 0 (datasets chart) |}
            else chart)
  end.

(** [updatePolicyChart(batchStats)] *)
Definition updatePolicyChart (this : t) (batchStats : BatchStats) : option ChartData :=
  match policyChart this with
  | None => None
  | Some chart =>
      let chart := pushLabel (batchNumber this) chart in
      let chart := pushData 0 (policyEntropy batchStats) chart in
      let chart := pushData 1 (policyLoss batchStats) chart in
      let chart := pushData 2 (valueLoss batchStats) chart in
      Some (if maxDataPoints this <? length (labels chart)
            then {| labels := shift (labels chart); datasets := shift <$> datasets chart |}
            else chart)
  end.

Section UpdateMetrics.

(** [initializeCharts()]: it depends on Chart.js and on the canvases of the
    page whether the charts are created. *)
Variable initializeCharts : t → t.

(** [updateCharts(metrics)] *)
Definition updateCharts (this : t) (metrics : Metrics) : t :=
  let this := if isInitialized this then this else initializeCharts this in
  let batchStats := calculateBatchStats this metrics in
  {| maxDataPoints := maxDataPoints this;
     episodeLengthUnit := episodeLengthUnit this;
     actionIntervalSeconds := actionIntervalSeconds this;
     batchNumber := batchNumber this;
     isInitialized := isInitialized this;
     rewardChart := updateRewardChart this batchStats;
     lengthChart := updateLengthChart this batchStats;
     completionChart := updateCompletionChart this batchStats;
     policyChart := updatePolicyChart this batchStats |}.

(** [updateMetrics(metrics)], as far as the charts go (the summary line is
    text in the page). *)
Definition updateMetrics (this : t) (metrics : option Metrics) : t :=
  match metrics with
  | None => this
  | Some metrics =>
      if negb (Qle_bool (orZero (gamesCompleted metrics)) 0) then
        updateCharts
          {| maxDataPoints := maxDataPoints this;
             episodeLengthUnit := episodeLengthUnit this;
             actionIntervalSeconds := actionIntervalSeconds this;
             batchNumber := S (batchNumber this);
             isInitialized := isInitialized this;
             rewardChart := rewardChart this;
             lengthChart := lengthChart this;
             completionChart := completionChart this;
             policyChart := policyChart this |}
          metrics
      else this
  end.

End UpdateMetrics.

(** The part of [reset()] on one chart: no label, and every dataset
    empty. *)
Definition resetChart (chart : ChartData) : ChartData :=
  {| labels := []; datasets := (λ _, []) <$> datasets chart |}.

(** [reset()] *)
Definition reset (this : t) : t :=
  {| maxDataPoints := maxDataPoints this;
     episodeLengthUnit := episodeLengthUnit this;
     actionIntervalSeconds := actionIntervalSeconds this;
     batchNumber := 0;
     isInitialized := isInitialized this;
     rewardChart := resetChart <$> rewardChart this;
     lengthChart := resetChart <$> lengthChart this;
     completionChart := resetChart <$> completionChart this;
     policyChart := resetChart <$> policyChart this |}.

(** A chart whose labels and datasets all have [n] points. *)
Definition aligned (n : nat) (chart : ChartData) : Prop :=
  length (labels chart) = n ∧ Forall (λ d, length d = n) (datasets chart).

(** The last [n] elements of an array. *)
Definition lastPoints {A} (n : nat) (l : list A) : list A := drop (length l - n) l.

(** The charts that exist. *)
Definition charts (this : t) : list ChartData :=
  omap id [rewardChart this; lengthChart this; completionChart this; policyChart this].

(** A visualizer with a window of two points, after two rollouts. *)
Definition sampleVisualizer : t :=
  {| maxDataPoints := 2; episodeLengthUnit := "steps"; actionIntervalSeconds := 1 # 5;
     batchNumber := 2; isInitialized := true;
     rewardChart :=
       Some {| labels := ["Rollout 1"; "Rollout 2"];
               datasets := [[1; 2]; [0; 1]; [2; 3]]%Q |};
     lengthChart :=
       Some {| labels := ["Rollout 1"; "Rollout 2"]; datasets := [[10; 20]]%Q |};
     completionChart :=
       Some {| labels := ["Rollout 1"; "Rollout 2"]; datasets := [[0; 50]]%Q |};
     policyChart := None |}.

Definition sampleMetrics : Metrics :=
  {| gamesCompleted := Some 4%Q;
     rewardStats := Some {| avg := Some 3%Q; min := Some 2%Q; max := Some 4%Q |};
     averageGameLength := Some 30%Q;
     winRate := None;
     m_completionRate := Some (1 # 1)%Q;
     m_policyEntropy := None; m_policyLoss := None; m_valueLoss := None |}.

End TrainingVisualizer.

(* ===================================================================== *)
(** * Part II: properties                                                 *)
(* ===================================================================== *)

Module DemonstrationCollectorProps.
Import DemonstrationCollector.

Lemma notRecording_true_iff c :
  notRecording c = true ↔ isRecording c = false ∨ currentEpisode c = None.
Proof.
  unfold notRecording.
  destruct (isRecording c), (currentEpisode c) as [ep|]; simpl; split;
    intros; try done; try (by left); try (by right); destruct_or?; done.
Qed.

Lemma notRecording_false c ep :
  isRecording c = true → currentEpisode c = Some ep → notRecording c = false.
Proof.
  intros Hr Hc. destruct (notRecording c) eqn:E; [|done].
  destruct (proj1 (notRecording_true_iff c) E); congruence.
Qed.

Lemma receivingEpisode_same_buffer c c' :
  episodeBuffer c' = episodeBuffer c →
  receivingEpisode c c' = currentEpisode c'.
Proof.
  intros H. unfold receivingEpisode. rewrite H.
  by rewrite (proj2 (Nat.ltb_ge _ _)) by lia.
Qed.

Lemma receivingEpisode_pushed c c' ep :
  episodeBuffer c' = episodeBuffer c ++ [ep] →
  receivingEpisode c c' = Some ep.
Proof.
  intros H. unfold receivingEpisode. rewrite H.
  rewrite length_app, (proj2 (Nat.ltb_lt _ _)) by (simpl; lia).
  apply last_snoc.
Qed.

(** What a [recordStep] call does while recording, whatever the caller's
    metadata: exactly one step is appended to the episode that was current,
    and its metadata is the caller's over a default [stepIndex]. *)
Lemma recordStep_recording c ep obs act md :
  isRecording c = true →
  currentEpisode c = Some ep →
  ∃ ep',
    receivingEpisode c (recordStep c obs act md) = Some ep'
    ∧ id ep' = id ep
    ∧ steps ep' =
        steps ep ++
          [ {| observation := obs; action := act;
               step_metadata :=
                 Js.spread md ∪ {[ "stepIndex" := Js.of_nat (length (steps ep)) ]} |} ].
Proof.
  intros Hr Hc. unfold recordStep.
  rewrite (notRecording_false c ep Hr Hc), Hc.
  destruct (_ <=? _)%Z.
  - unfold flushCurrentEpisode; simpl.
    rewrite length_app; simpl.
    rewrite (proj2 (Nat.ltb_lt _ _)) by lia.
    eexists; split; [by apply receivingEpisode_pushed | done].
  - eexists; split; [by rewrite receivingEpisode_same_buffer | done].
Qed.

(** C10 as stated fails: a caller that passes its own [stepIndex] in the
    step metadata overrides the position.  After [startEpisode] on a fresh
    collector, [recordStep] with [{ stepIndex: 7 }] stores a step at
    position 0 whose [stepIndex] is 7. *)
Lemma C10_stepIndex_overridden :
  let c0 := startEpisode (constructor None None) "e" None 0%Q Js.Undefined in
  let c1 := recordStep c0 [] [] (Some {[ "stepIndex" := Js.of_nat 7 ]}) in
  isRecording c0 = true
  ∧ ∃ ep st,
      currentEpisode c1 = Some ep
      ∧ steps ep !! 0%nat = Some st
      ∧ step_metadata st !! "stepIndex" = Some (Js.of_nat 7)
      ∧ ¬ stepIndexIsPosition ep.
Proof.
  simpl. split; [done|].
  eexists _, _. split; [reflexivity|]. split; [reflexivity|].
  split; [by vm_compute|].
  intros H. specialize (H 0%nat _ eq_refl). vm_compute in H. discriminate.
Qed.

(** C10 (amended): when the collector is not recording, [recordStep] leaves
    the collector as it is and [endEpisode] returns [null] and leaves the
    collector as it is; when it is recording, [recordStep] appends exactly
    one step to the episode, whatever the caller's step metadata: the step
    carries the observation and the action of the call, every property of
    the caller's metadata, and a [stepIndex] that is the caller's when the
    metadata has one and the step's position in the episode otherwise. *)
Theorem C10_recordStep_endEpisode c obs act md emd dur :
  (isRecording c = false ∨ currentEpisode c = None →
     recordStep c obs act md = c ∧ endEpisode c emd dur = (c, None))
  ∧ (∀ ep,
       isRecording c = true →
       currentEpisode c = Some ep →
       ∃ ep' st,
         receivingEpisode c (recordStep c obs act md) = Some ep'
         ∧ steps ep' = steps ep ++ [st]
         ∧ observation st = obs ∧ action st = act
         ∧ steps ep' !! length (steps ep) = Some st
         ∧ step_metadata st !! "stepIndex" =
             Some (default (Js.of_nat (length (steps ep))) (Js.spread md !! "stepIndex"))
         ∧ (∀ k, k ≠ "stepIndex" → step_metadata st !! k = Js.spread md !! k)
         ∧ (Js.spread md !! "stepIndex" = None →
              step_metadata st !! "stepIndex" = Some (Js.of_nat (length (steps ep))))).
Proof.
  split.
  - intros H. apply notRecording_true_iff in H.
    unfold recordStep, endEpisode. by rewrite H.
  - intros ep Hr Hc.
    destruct (recordStep_recording c ep obs act md Hr Hc) as (ep' & Hrecv & _ & Hsteps).
    eexists ep', _. split; [done|]. split; [done|]. simpl.
    split; [done|]. split; [done|]. split; [|split; [|split]].
    + rewrite Hsteps. by rewrite lookup_app_r, Nat.sub_diag by lia.
    + destruct (Js.spread md !! "stepIndex") as [v|] eqn:Hmd; simpl.
      * by apply lookup_union_Some_l.
      * rewrite lookup_union_r by done. apply lookup_singleton_eq.
    + intros k Hk. destruct (Js.spread md !! k) as [v|] eqn:Hmd.
      * by apply lookup_union_Some_l.
      * rewrite lookup_union_r by done. by apply lookup_singleton_ne.
    + intros Hmd. rewrite lookup_union_r by done. apply lookup_singleton_eq.
Qed.

(** An idle collector, and a recording one with one stored step that
    receives a step whose metadata carries a [stepIndex] of its own and a
    [reward]: the step is appended at position 1 with the caller's
    [stepIndex] 7 and the caller's [reward]. *)
Lemma C10_recordStep_endEpisode_witness :
  let idle := constructor None None in
  let c0 := startEpisode idle "e" None 0%Q Js.Undefined in
  let c := recordStep c0 [1%Q] [0%Q] None in
  let md := Some {[ "stepIndex" := Js.of_nat 7; "reward" := Js.of_nat 1 ]} in
  (recordStep idle [1%Q] [0%Q] None = idle
   ∧ endEpisode idle None Js.Undefined = (idle, None))
  ∧ ∃ ep' st,
      receivingEpisode c (recordStep c [2%Q] [1%Q] md) = Some ep'
      ∧ length (steps ep') = 2%nat
      ∧ steps ep' !! 1%nat = Some st
      ∧ observation st = [2%Q]
      ∧ step_metadata st !! "stepIndex" = Some (Js.of_nat 7)
      ∧ step_metadata st !! "reward" = Some (Js.of_nat 1).
Proof.
  intros idle c0 c md.
  split.
  - apply (C10_recordStep_endEpisode idle [1%Q] [0%Q] None None Js.Undefined).
    left; reflexivity.
  - destruct (proj2 (C10_recordStep_endEpisode c [2%Q] [1%Q] md None Js.Undefined)
                _ eq_refl eq_refl)
      as (ep' & st & H1 & H2 & H3 & _ & H5 & H6 & H7 & _).
    exists ep', st. split; [exact H1|]. split; [by rewrite H2|]. split; [exact H5|].
    split; [exact H3|]. split; [exact H6|].
    rewrite H7 by done. reflexivity.
Defined.

End DemonstrationCollectorProps.

Module BehaviorCloningTrainerProps.
Import BehaviorCloningTrainer.

(** *** The configuration record *)

Lemma nullish_defined a b : isNullish b = false → isNullish (Js.nullish a b) = false.
Proof. by destruct a. Qed.

Lemma getOption_recognized c k :
  k ∈ recognizedKeys → is_Some (getOption c k).
Proof.
  unfold recognizedKeys. rewrite !elem_of_cons, elem_of_nil.
  intros H. destruct_or!; subst; try done; by eexists.
Qed.

Lemma getOption_unknown c k :
  k ∉ recognizedKeys → getOption c k = None.
Proof.
  unfold recognizedKeys, getOption. rewrite !not_elem_of_cons.
  intros (H1 & H2 & H3 & H4 & H5 & H6 & _).
  by rewrite !(proj2 (String.eqb_neq _ _)).
Qed.

Lemma readConfig_defined cfg k v :
  getOption (readConfig cfg) k = Some v → isNullish v = false.
Proof.
  unfold getOption.
  repeat (case_match; [intros [= <-]; by apply nullish_defined|]).
  done.
Qed.

Lemma readConfig_agree cfg cfg' :
  (∀ k, k ∈ recognizedKeys → Js.opt_get cfg' k = Js.opt_get cfg k) →
  readConfig cfg' = readConfig cfg.
Proof.
  intros H. unfold readConfig.
  by rewrite !H by (unfold recognizedKeys; set_solver).
Qed.

(** The trainer's methods only read the configuration. *)
Lemma yieldToEventLoop_config tr h : config (yieldToEventLoop tr h).1.2 = config tr.
Proof. unfold yieldToEventLoop. by destruct (isHidden h). Qed.

Lemma runTask_config task tr h : config (runTask task tr h).1 = config tr.
Proof. destruct task; simpl; try done. by destruct (yieldChannelResolve tr). Qed.

Lemma runEventLoop_config n tr h : config (runEventLoop n tr h).1 = config tr.
Proof.
  revert tr h. induction n as [|n IH]; intros tr h; [done|].
  simpl. unfold eventLoopStep. destruct (queue h) as [|task rest]; [apply IH|].
  destruct (runTask task tr _) as [tr1 h1] eqn:E.
  rewrite IH.
  match type of E with
  | runTask _ _ ?h0 = _ => pose proof (runTask_config task tr h0) as Hc
  end.
  by rewrite E in Hc.
Qed.

(** C1 as stated fails: a bag with the key [momentum], which the trainer
    does not know, is accepted, and the trainer built from it is the one
    built from the bag without that key. *)
Lemma C1_unknown_key_not_rejected :
  let bag : Js.object :=
    {[ "learningRate" := Js.Number (1 # 100); "momentum" := Js.Number (9 # 10) ]} in
  ("momentum" ∉ recognizedKeys)
  ∧ is_Some (bag !! "momentum")
  ∧ ¬ rejected (constructor (Some bag))
  ∧ constructor (Some bag) = constructor (Some (delete "momentum" bag)).
Proof.
  intros bag. split; [|split; [|split]].
  - unfold recognizedKeys. rewrite !not_elem_of_cons. repeat split; try done.
    apply not_elem_of_nil.
  - eexists. by vm_compute.
  - by intros [].
  - by vm_compute.
Qed.

(** C1 (amended): for every configuration bag, absent or not, the
    constructor returns a trainer whose configuration record has exactly
    the six recognized options, each holding the bag's value or, when the
    bag has none (or [null]), its explicit default, so that no option is
    left undefined; keys the trainer does not know are ignored, not
    rejected: two bags that agree on the recognized options build the same
    trainer.  The record is written once: yielding and the channel's
    message handler leave it as the constructor made it. *)
Theorem C1_config_defaults_unknown_ignored (cfg : option Js.object) :
  ∃ tr,
    constructor cfg = Js.Returned tr
    ∧ (∀ k, k ∈ recognizedKeys →
         ∃ v d, getOption (config tr) k = Some v
                ∧ getOption defaultConfig k = Some d
                ∧ v = Js.nullish (Js.opt_get cfg k) d
                ∧ isNullish v = false)
    ∧ (∀ k, k ∉ recognizedKeys → getOption (config tr) k = None)
    ∧ (∀ cfg' : option Js.object,
         (∀ k, k ∈ recognizedKeys → Js.opt_get cfg' k = Js.opt_get cfg k) →
         constructor cfg' = Js.Returned tr)
    ∧ (∀ h n, config (yieldToEventLoop tr h).1.2 = config tr
              ∧ config (runEventLoop n tr h).1 = config tr).
Proof.
  eexists. split; [reflexivity|]. simpl. split; [|split; [|split]].
  - intros k Hk. unfold recognizedKeys in Hk.
    rewrite !elem_of_cons, elem_of_nil in Hk.
    destruct_or!; subst; try done;
      (eexists _, _; split; [reflexivity|]; split; [reflexivity|];
       split; [reflexivity|]; by apply nullish_defined).
  - apply getOption_unknown.
  - intros cfg' H. unfold constructor. by rewrite (readConfig_agree cfg cfg').
  - intros h n. split; [apply yieldToEventLoop_config | apply runEventLoop_config].
Qed.

(** The defaults are what the source writes, and a caller's value wins. *)
Lemma C1_config_defaults_unknown_ignored_witness :
  ∃ tr,
    constructor (Some {[ "epochs" := Js.Number 3; "bogus" := Js.Bool true ]}) = Js.Returned tr
    ∧ getOption (config tr) "epochs" = Some (Js.Number 3)
    ∧ getOption (config tr) "batchSize" = Some (Js.Number 32)
    ∧ getOption (config tr) "bogus" = None
    ∧ constructor (Some {[ "epochs" := Js.Number 3 ]}) = Js.Returned tr.
Proof.
  destruct (C1_config_defaults_unknown_ignored
              (Some {[ "epochs" := Js.Number 3; "bogus" := Js.Bool true ]}))
    as (tr & Hc & Hk & Hu & Hagree & _).
  exists tr. split; [exact Hc|].
  injection Hc as <-.
  split; [reflexivity|]. split; [reflexivity|]. split; [reflexivity|].
  apply Hagree. intros k Hk'. unfold recognizedKeys in Hk'.
  rewrite !elem_of_cons, elem_of_nil in Hk'.
  destruct_or!; subst; try done.
Defined.

(** *** Tensor memory *)

Lemma live_alloc pl m : live (alloc pl m).2 = {[nextId m]} ∪ live m.
Proof. unfold live, alloc; simpl. by rewrite dom_insert_L. Qed.

Lemma live_dispose id m : live (dispose id m) = live m ∖ {[id]}.
Proof. unfold live, dispose; simpl. by rewrite dom_delete_L. Qed.

Lemma nextId_fresh m : wfMemory m → nextId m ∉ live m.
Proof. intros Hwf Hin. apply Hwf in Hin. lia. Qed.

Lemma wfMemory_alloc pl m : wfMemory m → wfMemory (alloc pl m).2.
Proof.
  intros Hwf id. rewrite live_alloc. simpl.
  rewrite elem_of_union, elem_of_singleton. intros [->|Hin]; [lia|].
  apply Hwf in Hin. lia.
Qed.

Lemma wfMemory_dispose id m : wfMemory m → wfMemory (dispose id m).
Proof.
  intros Hwf id'. rewrite live_dispose. simpl.
  rewrite elem_of_difference. intros [Hin _]. by apply Hwf.
Qed.

Lemma gather_returned x idx m r m' :
  gather x idx m = Js.Returned (r, m') →
  r = nextId m ∧ nextId m' = S (nextId m)
  ∧ live m' = {[nextId m]} ∪ live m
  ∧ (wfMemory m → wfMemory m').
Proof.
  unfold gather. repeat case_match; try done.
  intros [= <- <-]. split; [done|]. split; [done|].
  split; [apply live_alloc | apply wfMemory_alloc].
Qed.

Lemma allocAll_spec payloads m :
  nextId (allocAll payloads m) = nextId m + length payloads
  ∧ live (allocAll payloads m) = live m ∪ list_to_set (seq (nextId m) (length payloads))
  ∧ (wfMemory m → wfMemory (allocAll payloads m)).
Proof.
  revert m. induction payloads as [|pl payloads IH]; intros m.
  - simpl. split; [lia|]. split; [set_solver | done].
  - change (allocAll (pl :: payloads) m) with (allocAll payloads (alloc pl m).2).
    destruct (IH (alloc pl m).2) as (Hn & Hl & Hwf).
    rewrite Hn, Hl, live_alloc. cbn [length seq list_to_set nextId alloc snd].
    split; [lia|]. split; [set_solver|].
    intros Hm. by apply Hwf, wfMemory_alloc.
Qed.

Section BatchProps.

Context {Policy : Type}.
Variable trainBatch :
  Policy → Tensor → Tensor → Policy * list Tensor * Js.outcome string (option Q).

Abbreviation batchStep' := (batchStep trainBatch).
Abbreviation batchLoop' := (batchLoop trainBatch).

(** A step that returns has released its three buffers: what is live
    after it is what was live before and the variables [trainBatch]
    left. *)
Lemma batchStep_returned bs obs act idx total e i (s s' : LoopState) :
  wfMemory (mem s) →
  batchStep' bs obs act idx total e i s = (s', Js.Returned tt) →
  ∃ o a pol' variables loss,
    trainBatch (policy s) o a = (pol', variables, Js.Returned loss)
    ∧ live (mem s')
      = live (mem s) ∪ list_to_set (seq (nextId (mem s) + 3) (length variables))
    ∧ wfMemory (mem s')
    ∧ nextId (mem s') = nextId (mem s) + 3 + length variables
    ∧ totalLoss s' = addLoss (totalLoss s) loss.
Proof.
  intros Hwf. unfold batchStep, tensor1d.
  destruct (alloc _ (mem s)) as [it m1] eqn:E1.
  assert (it = nextId (mem s) ∧ m1 = (alloc (Tensor1d
            (take (Nat.min (i * Pos.to_nat bs + Pos.to_nat bs) total - i * Pos.to_nat bs)
               (drop (i * Pos.to_nat bs) idx))) (mem s)).2) as [-> Hm1]
    by (by rewrite E1; unfold alloc in E1; injection E1 as <- _).
  assert (live m1 = {[nextId (mem s)]} ∪ live (mem s)) as Hl1
    by (rewrite Hm1; apply live_alloc).
  assert (wfMemory m1) as Hwf1 by (rewrite Hm1; by apply wfMemory_alloc).
  assert (nextId m1 = S (nextId (mem s))) as Hn1 by (by rewrite Hm1).
  destruct (gather obs _ m1) as [[bo m2]|] eqn:E2; [|intros [= _ ?]; done].
  apply gather_returned in E2 as (-> & Hn2 & Hl2 & Hwf2).
  destruct (gather act _ m2) as [[ba m3]|] eqn:E3; [|intros [= _ ?]; done].
  apply gather_returned in E3 as (-> & Hn3 & Hl3 & Hwf3).
  destruct (trainBatch _ _ _) as [[pol' variables] [loss|err]] eqn:Etb;
    [|intros [= _ ?]; done].
  intros [= <-]. cbn [mem totalLoss].
  destruct (allocAll_spec variables m3) as (Hn4 & Hl4 & Hwf4).
  pose proof (nextId_fresh _ Hwf) as Hf.
  assert (∀ id, id ∈ live (mem s) → id < nextId (mem s)) as Hlt by exact Hwf.
  eexists _, _, pol', variables, loss. split; [exact Etb|].
  split; [|split; [|split; [|done]]].
  - rewrite !live_dispose, Hl4, Hl3, Hl2, Hl1, Hn3, Hn2, Hn1.
    apply set_eq. intros x.
    rewrite !elem_of_difference, !elem_of_union, !elem_of_singleton,
      !elem_of_list_to_set, !elem_of_seq.
    split.
    + intros [[[[[?|[?|[?|?]]]|?] ?] ?] ?]; try done; [by left | right; lia].
    + intros [Hx|Hx]; [specialize (Hlt x Hx)|]; repeat split; try lia; auto 10.
  - repeat apply wfMemory_dispose. eauto.
  - cbn [nextId dispose]. rewrite Hn4, Hn3, Hn2, Hn1. lia.
Qed.

(** A step that throws leaves its index tensor allocated; when the
    exception comes from [trainBatch], all three buffers stay allocated. *)
Lemma batchStep_thrown bs obs act idx total e i (s s' : LoopState) err :
  wfMemory (mem s) →
  batchStep' bs obs act idx total e i s = (s', Js.Thrown err) →
  nextId (mem s) ∈ live (mem s')
  ∧ (nextId (mem s) ∉ live (mem s))
  ∧ live (mem s) ⊆ live (mem s').
Proof.
  intros Hwf. unfold batchStep, tensor1d.
  destruct (alloc _ (mem s)) as [it m1] eqn:E1.
  assert (it = nextId (mem s) ∧ m1 = (alloc (Tensor1d
            (take (Nat.min (i * Pos.to_nat bs + Pos.to_nat bs) total - i * Pos.to_nat bs)
               (drop (i * Pos.to_nat bs) idx))) (mem s)).2) as [-> Hm1]
    by (by rewrite E1; unfold alloc in E1; injection E1 as <- _).
  assert (live m1 = {[nextId (mem s)]} ∪ live (mem s)) as Hl1
    by (rewrite Hm1; apply live_alloc).
  pose proof (nextId_fresh _ Hwf) as Hf.
  destruct (gather obs _ m1) as [[bo m2]|] eqn:E2;
    [|intros [= <- _]; simpl; set_solver].
  apply gather_returned in E2 as (-> & Hn2 & Hl2 & Hwf2).
  destruct (gather act _ m2) as [[ba m3]|] eqn:E3;
    [|intros [= <- _]; simpl; set_solver].
  apply gather_returned in E3 as (-> & Hn3 & Hl3 & Hwf3).
  destruct (trainBatch _ _ _) as [[pol' variables] [loss|err']]; [intros [= _ ?]; done|].
  intros [= <- _]. cbn [mem].
  destruct (allocAll_spec variables m3) as (_ & Hl4 & _). rewrite Hl4.
  set_solver.
Qed.

(** A loop that returns has released the buffers of all its steps and
    nothing else; with a [trainBatch] that leaves no variable, the live
    tensors are those of before. *)
Lemma batchLoop_returned bs obs act idx total e n from (s s' : LoopState) :
  wfMemory (mem s) →
  batchLoop' bs obs act idx total e n from s = (s', Js.Returned tt) →
  live (mem s) ⊆ live (mem s') ∧ wfMemory (mem s')
  ∧ ((∀ pol o a, (trainBatch pol o a).1.2 = []) → live (mem s') = live (mem s)).
Proof.
  revert from s. induction n as [|n IH]; intros from s Hwf; simpl.
  - by intros [= <-].
  - destruct (batchStep _ _ _ _ _ _ _ _ s) as [s1 [[]|err]] eqn:E; [|done].
    apply batchStep_returned in E
      as (o & a & pol' & variables & loss & Etb & Hl & Hwf1 & _); [|done].
    intros H. apply IH in H as (Hl' & Hwf' & Hq); [|done].
    split; [set_solver|]. split; [done|].
    intros Hquiet. rewrite (Hq Hquiet), Hl.
    pose proof (Hquiet (policy s) o a) as Hv. rewrite Etb in Hv. simpl in Hv.
    subst variables. simpl. set_solver.
Qed.

(** C2 (amended): a mini-batch step of [trainEpoch] that runs to its end
    has acquired three buffers (the index tensor and the two gathered
    tensors) and released all three, and has released no tensor that was
    live before it; the tensors that are live after it and were not before
    are the variables that [trainBatch] left allocated, so that with a
    [trainBatch] call that leaves none the live tensors are those of
    before.  A step that throws skips the release: the exception leaves the
    loop body with the index tensor (and whatever was gathered) still
    allocated. *)
Theorem C2_batch_buffers_released_on_success
    bs obs act idx total e i (s s' : LoopState) r :
  wfMemory (mem s) →
  batchStep' bs obs act idx total e i s = (s', r) →
  (r = Js.Returned tt →
     ∃ o a pol' variables loss,
       trainBatch (policy s) o a = (pol', variables, Js.Returned loss)
       ∧ nextId (mem s') = nextId (mem s) + 3 + length variables
       ∧ (∀ id, nextId (mem s) ≤ id < nextId (mem s) + 3 → id ∉ live (mem s'))
       ∧ live (mem s) ⊆ live (mem s')
       ∧ live (mem s')
         = live (mem s) ∪ list_to_set (seq (nextId (mem s) + 3) (length variables))
       ∧ (variables = [] → live (mem s') = live (mem s)))
  ∧ (∀ err, r = Js.Thrown err →
       nextId (mem s) ∈ live (mem s') ∧ (nextId (mem s) ∉ live (mem s))).
Proof.
  intros Hwf Hstep. split.
  - intros ->. apply batchStep_returned in Hstep
      as (o & a & pol' & variables & loss & Etb & Hl & Hwf' & Hn & _); [|done].
    exists o, a, pol', variables, loss.
    split; [done|]. split; [done|]. split; [|split; [|split; [done|]]].
    + intros id Hid. rewrite Hl, elem_of_union, elem_of_list_to_set, elem_of_seq.
      intros [Hin|Hin]; [apply Hwf in Hin|]; lia.
    + rewrite Hl. set_solver.
    + intros ->. rewrite Hl. simpl. set_solver.
  - intros err ->. apply batchStep_thrown in Hstep as (H1 & H2 & _); done.
Qed.

End BatchProps.

Lemma wfMemory_twoRows : wfMemory (mem twoRows).
Proof.
  intros id. unfold live, twoRows; simpl.
  rewrite dom_insert_L, dom_singleton_L, elem_of_union, !elem_of_singleton. lia.
Qed.

(** C2 as stated fails: when [trainBatch] throws in the first mini-batch,
    the step ends with the index tensor and both gathered tensors (ids 2, 3
    and 4) still allocated. *)
Lemma C2_buffers_leak_on_failure :
  ∃ s',
    batchStep failingTrainBatch 1%positive 0 1 [0; 1] 2 0 0 twoRows = (s', Js.Thrown "loss is NaN")
    ∧ tensors (mem twoRows) !! 2 = None
    ∧ tensors (mem s') !! 2 = Some (Tensor1d [0])
    ∧ tensors (mem s') !! 3 = Some (Tensor2d [[1%Q]])
    ∧ tensors (mem s') !! 4 = Some (Tensor2d [[0%Q]]).
Proof. eexists. split; [reflexivity|]. repeat split; by vm_compute. Qed.

(** The first step of an optimizer that creates one variable: the buffers
    2, 3 and 4 are released and the variable 5 stays; a step that throws
    leaves the index tensor 2. *)
Lemma C2_batch_buffers_released_on_success_witness :
  let ok := batchStep firstStepTrainBatch 1%positive 0 1 [0; 1] 2 0 0 twoRowsFirstStep in
  let ko := batchStep failingTrainBatch 1%positive 0 1 [0; 1] 2 0 0 twoRows in
  (ok.2 = Js.Returned tt
   ∧ (∀ id, 2 ≤ id < 5 → id ∉ live (mem ok.1))
   ∧ live (mem ok.1) = {[0; 1; 5]})
  ∧ (ko.2 = Js.Thrown "loss is NaN" ∧ 2 ∈ live (mem ko.1)).
Proof.
  intros ok ko. split; (split; [reflexivity|]).
  - destruct (proj1 (C2_batch_buffers_released_on_success firstStepTrainBatch 1%positive
                       0 1 [0; 1] 2 0 0 twoRowsFirstStep ok.1 ok.2 wfMemory_twoRows
                       (surjective_pairing ok)) eq_refl)
      as (o & a & pol' & variables & loss & Etb & _ & Hrel & _ & Hlive & _).
    split; [exact Hrel|].
    assert (variables = [Tensor2d [[0%Q]]]) as -> by (by injection Etb as _ <- _).
    rewrite Hlive. apply set_eq. intros x. unfold live, twoRowsFirstStep, twoRows. simpl.
    rewrite dom_insert_L, dom_singleton_L. set_solver.
  - apply (proj2 (C2_batch_buffers_released_on_success failingTrainBatch 1%positive 0 1
                    [0; 1] 2 0 0 twoRows ko.1 ko.2 wfMemory_twoRows
                    (surjective_pairing ko)) "loss is NaN" eq_refl).
Defined.

(** *** The yield cadence *)

#[local] Arguments block : simpl never.
#[local] Arguments Nat.modulo : simpl never.

Lemma cadence_nil : cadence [].
Proof. intros n ev H. by rewrite lookup_nil in H. Qed.

Lemma cadence_app T B : cadence T → cadence B → cadence (T ++ B).
Proof.
  intros HT HB n ev Hn Hy.
  destruct (decide (n < length T)) as [Hlt|Hge].
  - rewrite lookup_app_l in Hn by done.
    pose proof (HT n ev Hn Hy) as HS.
    rewrite lookup_app_l; [done|]. by apply lookup_lt_Some in HS.
  - rewrite lookup_app_r in Hn by lia.
    pose proof (HB _ ev Hn Hy) as HS.
    rewrite lookup_app_r by lia.
    by replace (S n - length T) with (S (n - length T)) by lia.
Qed.

Lemma cadence_block e i : cadence (block e i).
Proof.
  unfold block. intros n ev Hn Hy. destruct (i mod 10 =? 0) eqn:E.
  - destruct n as [|[|n]]; simpl in *; by simplify_eq.
  - destruct n as [|n]; simpl in *; simplify_eq. simpl in Hy. congruence.
Qed.

Lemma cadence_blocks e l : cadence (flat_map (block e) l).
Proof.
  induction l as [|i l IH]; [apply cadence_nil|].
  change (cadence (block e i ++ flat_map (block e) l)).
  apply cadence_app; [apply cadence_block | done].
Qed.

Lemma cadence_epochDone e : cadence [EpochDone e; Yield].
Proof. intros [|[|n]] ev Hn Hy; simpl in *; by simplify_eq. Qed.

Lemma cadence_lookup T ev :
  cadence T → ev ∈ T → yieldsAfter ev = true →
  ∃ j, T !! j = Some ev ∧ T !! S j = Some Yield.
Proof.
  intros HT Hin Hy. apply list_elem_of_lookup in Hin as [j Hj].
  exists j. split; [done|]. by apply (HT j ev).
Qed.

(** Ten consecutive indices contain a multiple of ten. *)
Lemma multiple_of_ten_in_window k :
  ∃ i, k ≤ i < k + 10 ∧ i mod 10 = 0.
Proof.
  exists (10 * ((k + 9) / 10)).
  pose proof (Nat.div_mod_eq (k + 9) 10) as H.
  pose proof (Nat.mod_upper_bound (k + 9) 10) as Hb.
  split; [lia|]. by rewrite Nat.mul_comm, Nat.Div0.mod_mul.
Qed.

Section EpochProps.

Context {Policy : Type}.
Variable trainBatch :
  Policy → Tensor → Tensor → Policy * list Tensor * Js.outcome string (option Q).
Variable computeValidationLoss :
  Policy → Tensor → Tensor → Js.outcome string (option Q).
Variable shuffleArray : nat → list nat → list nat.

Abbreviation trainEpoch' := (trainEpoch trainBatch shuffleArray).
Abbreviation epochLoop' := (epochLoop trainBatch computeValidationLoss shuffleArray).

Lemma batchStep_trace bs obs act idx total e i (s s' : LoopState) r :
  batchStep trainBatch bs obs act idx total e i s = (s', r) →
  trace s' = trace s ++ match r with Js.Returned _ => block e i | Js.Thrown _ => [] end.
Proof.
  unfold batchStep, tensor1d, block.
  destruct (alloc _ (mem s)) as [it m1].
  destruct (gather obs _ m1) as [[bo m2]|];
    [|intros [= <- <-]; simpl; by rewrite app_nil_r].
  destruct (gather act _ m2) as [[ba m3]|];
    [|intros [= <- <-]; simpl; by rewrite app_nil_r].
  destruct (trainBatch _ _ _) as [[pol' variables] [loss|err]];
    [|intros [= <- <-]; simpl; by rewrite app_nil_r].
  intros [= <- <-]. simpl.
  destruct (i mod 10 =? 0); [by rewrite <- app_assoc | done].
Qed.

(** The loop appends the blocks of the batches it completed, in order;
    all of them when it returns. *)
Lemma batchLoop_trace bs obs act idx total e n from (s s' : LoopState) r :
  batchLoop trainBatch bs obs act idx total e n from s = (s', r) →
  ∃ k, k ≤ n
       ∧ (r = Js.Returned tt → k = n)
       ∧ trace s' = trace s ++ flat_map (block e) (seq from k).
Proof.
  revert from s. induction n as [|n IH]; intros from s; simpl.
  - intros [= <- <-]. exists 0. simpl. by rewrite app_nil_r.
  - destruct (batchStep _ _ _ _ _ _ _ _ s) as [s1 [[]|err]] eqn:E;
      apply batchStep_trace in E.
    + intros H. apply IH in H as (k & Hk & Hr & Ht).
      exists (S k). split; [lia|]. split; [intros ?; f_equal; auto|].
      rewrite Ht, E. simpl. by rewrite <- app_assoc.
    + intros [= <- <-]. exists 0. split; [lia|]. split; [done|].
      rewrite E. simpl. by rewrite !app_nil_r.
Qed.

Lemma trainEpoch_trace bs obs act e m pol tr (l : LoopState) r :
  trainEpoch' bs obs act e m pol tr = (l, r) →
  ∃ k, k ≤ numBatchesOf (shape0 obs m) bs
       ∧ (∀ loss, r = Js.Returned loss → k = numBatchesOf (shape0 obs m) bs)
       ∧ trace l = tr ++ flat_map (block e) (seq 0 k).
Proof.
  unfold trainEpoch.
  destruct (batchLoop _ _ _ _ _ _ _ _ _ _) as [s [[]|err]] eqn:E;
    apply batchLoop_trace in E as (k & Hk & Hr & Ht); simpl in Ht;
    intros [= <- <-]; exists k; (split; [done|]); (split; [|done]).
  - intros _ _. by apply Hr.
  - done.
Qed.

Lemma trainEpoch_cadence bs obs act e m pol tr (l : LoopState) r :
  trainEpoch' bs obs act e m pol tr = (l, r) →
  cadence tr → cadence (trace l) ∧ (∀ ev, ev ∈ tr → ev ∈ trace l).
Proof.
  intros H Htr. apply trainEpoch_trace in H as (k & _ & _ & ->).
  split; [apply cadence_app; [done | apply cadence_blocks]|].
  intros ev Hev. apply elem_of_app. by left.
Qed.

Lemma trainEpoch_all_batches bs obs act e m pol tr (l : LoopState) loss i :
  trainEpoch' bs obs act e m pol tr = (l, Js.Returned loss) →
  i < numBatchesOf (shape0 obs m) bs →
  BatchTrained e i ∈ trace l.
Proof.
  intros H Hi. apply trainEpoch_trace in H as (k & _ & Hk & ->).
  rewrite (Hk loss eq_refl). apply elem_of_app. right.
  apply list_elem_of_In, in_flat_map. exists i. split.
  - apply in_seq. lia.
  - unfold block. by left.
Qed.

Lemma epochLoop_cadence bs obs act val n from (s s' : TrainState) r :
  epochLoop' bs obs act val n from s = (s', r) →
  cadence (t_trace s) →
  cadence (t_trace s')
  ∧ (∀ ev, ev ∈ t_trace s → ev ∈ t_trace s')
  ∧ (r = Js.Returned tt → ∀ e, from ≤ e < from + n → EpochDone e ∈ t_trace s').
Proof.
  revert from s. induction n as [|n IH]; intros from s H Hc; simpl in H.
  - injection H as <- <-. split; [done|]. split; [done|]. intros _ e He. lia.
  - destruct (trainEpoch _ _ _ _ _ _ _ _ _) as [l [loss|err]] eqn:E;
      destruct (trainEpoch_cadence _ _ _ _ _ _ _ _ _ E Hc) as [Hcl Hincl].
    + destruct (match val with Some _ => _ | None => _ end) as [v|err].
      * apply IH in H as (Hc' & Hincl' & Hdone); simpl in *.
        2: { apply cadence_app; [done | apply cadence_epochDone]. }
        split; [done|]. split.
        { intros ev Hev. apply Hincl', elem_of_app. left. by apply Hincl. }
        intros Hr e He. destruct (decide (e = from)) as [->|Hne].
        -- apply Hincl', elem_of_app. right. apply list_elem_of_here.
        -- apply Hdone; [done | lia].
      * injection H as <- <-. simpl. split; [done|]. split; [done|]. done.
    + injection H as <- <-. simpl. split; [done|]. split; [done|]. done.
Qed.

(** C7: in every run of the epoch loop of [train], each completed
    mini-batch whose index is divisible by 10 and each completed epoch is
    directly followed by a yield to the event loop; hence among any 10
    consecutive mini-batches of an epoch one is followed by a yield, and a
    run that returns has yielded after every epoch.  An epoch that returns
    has trained every one of its mini-batches. *)
Theorem C7_yield_cadence bs obs act val n from (s s' : TrainState) r :
  cadence (t_trace s) →
  epochLoop' bs obs act val n from s = (s', r) →
  (∀ j e i, t_trace s' !! j = Some (BatchTrained e i) → i mod 10 = 0 →
       t_trace s' !! S j = Some Yield)
  ∧ (∀ e k, (∀ i, k ≤ i < k + 10 → BatchTrained e i ∈ t_trace s') →
       ∃ i j, k ≤ i < k + 10
              ∧ t_trace s' !! j = Some (BatchTrained e i)
              ∧ t_trace s' !! S j = Some Yield)
  ∧ (∀ j e, t_trace s' !! j = Some (EpochDone e) → t_trace s' !! S j = Some Yield)
  ∧ (r = Js.Returned tt → ∀ e, from ≤ e < from + n →
       ∃ j, t_trace s' !! j = Some (EpochDone e) ∧ t_trace s' !! S j = Some Yield)
  ∧ (∀ e m pol tr (l : LoopState) loss i,
       trainEpoch' bs obs act e m pol tr = (l, Js.Returned loss) →
       i < numBatchesOf (shape0 obs m) bs →
       BatchTrained e i ∈ trace l).
Proof.
  intros Hc Hrun.
  apply epochLoop_cadence in Hrun as (Hc' & _ & Hdone); [|done].
  split; [|split; [|split; [|split]]].
  - intros j e i Hj Hi. apply (Hc' j _ Hj). simpl. by apply Nat.eqb_eq.
  - intros e k Hall. destruct (multiple_of_ten_in_window k) as (i & Hi & Hmod).
    destruct (cadence_lookup _ (BatchTrained e i) Hc' (Hall i Hi)) as (j & Hj & HS).
    { simpl. by apply Nat.eqb_eq. }
    by exists i, j.
  - intros j e Hj. by apply (Hc' j _ Hj).
  - intros Hr e He. by apply cadence_lookup; [|apply Hdone|].
  - intros e m pol tr l loss i. apply trainEpoch_all_batches.
Qed.

End EpochProps.

Lemma C7_yield_cadence_witness :
  cadence (t_trace twelveRows)
  ∧ twelveRowsRun.2 = Js.Returned tt
  ∧ t_trace twelveRowsRun.1 =
      [BatchTrained 0 0; Yield] ++ map (BatchTrained 0) (seq 1 9)
      ++ [BatchTrained 0 10; Yield; BatchTrained 0 11; EpochDone 0; Yield]
  ∧ ∃ j, t_trace twelveRowsRun.1 !! j = Some (EpochDone 0)
         ∧ t_trace twelveRowsRun.1 !! S j = Some Yield.
Proof.
  split; [apply cadence_nil|]. split; [by vm_compute|]. split; [by vm_compute|].
  destruct (C7_yield_cadence okTrainBatch (λ _ _ _, Js.Returned (Some 0%Q)) (λ _ l, l)
              1%positive 0 1 None 1 0 twelveRows twelveRowsRun.1 twelveRowsRun.2
              cadence_nil (surjective_pairing twelveRowsRun))
    as (_ & _ & _ & H & _).
  apply (H eq_refl 0). lia.
Defined.

(** *** Yielding to the event loop *)

Lemma runTask_queue task tr h : queue (runTask task tr h).2 = queue h.
Proof. destruct task; simpl; try done. by destruct (yieldChannelResolve tr). Qed.

Lemma runTask_resolved task tr h p :
  yieldChannelResolve tr = Some p ∨ p ∈ resolved h →
  yieldChannelResolve (runTask task tr h).1 = Some p ∨ p ∈ resolved (runTask task tr h).2.
Proof.
  destruct task; simpl; try done.
  - intros [?|?]; [by left | right; set_solver].
  - destruct (yieldChannelResolve tr) as [p'|] eqn:E; simpl.
    + intros [[= ->]|?]; right; set_solver.
    + intros [?|?]; [done | by right].
Qed.

(** The message posted by a hidden-tab yield resolves the parked promise,
    whatever the host runs before it. *)
Lemma runEventLoop_port p q tr h :
  queue h = q ++ [PortMessage] →
  yieldChannelResolve tr = Some p ∨ p ∈ resolved h →
  p ∈ resolved (runEventLoop (S (length q)) tr h).2.
Proof.
  revert tr h. induction q as [|task q IH]; intros tr h Hq Hp.
  - simpl. unfold eventLoopStep. rewrite Hq. simpl.
    revert Hp. destruct (yieldChannelResolve tr) as [p'|]; simpl.
    + intros [[= ->]|?]; set_solver.
    + by intros [?|?].
  - change (runEventLoop (S (length (task :: q))) tr h)
      with (let '(tr', h') := eventLoopStep tr h in runEventLoop (S (length q)) tr' h').
    unfold eventLoopStep. rewrite Hq. simpl.
    destruct (runTask task tr _) as [tr1 h1] eqn:E.
    match type of E with
    | runTask _ _ ?h0 = _ =>
        pose proof (runTask_queue task tr h0) as Hq';
        pose proof (runTask_resolved task tr h0 p Hp) as Hp'
    end.
    rewrite E in Hq', Hp'. by apply IH.
Qed.

(** The timer of a foreground yield resolves its promise. *)
Lemma runEventLoop_timer p q tr h :
  queue h = q ++ [TimerCallback p] →
  p ∈ resolved (runEventLoop (S (length q)) tr h).2.
Proof.
  revert tr h. induction q as [|task q IH]; intros tr h Hq.
  - simpl. unfold eventLoopStep. rewrite Hq. simpl. set_solver.
  - change (runEventLoop (S (length (task :: q))) tr h)
      with (let '(tr', h') := eventLoopStep tr h in runEventLoop (S (length q)) tr' h').
    unfold eventLoopStep. rewrite Hq. simpl.
    destruct (runTask task tr _) as [tr1 h1] eqn:E.
    match type of E with
    | runTask _ _ ?h0 = _ => pose proof (runTask_queue task tr h0) as Hq'
    end.
    rewrite E in Hq'. by apply IH.
Qed.

Lemma isHidden_spec h :
  isHidden h = true ↔
  ∃ d, document h = Some d ∧ (hidden d = true ∨ visibilityState d = "hidden").
Proof.
  unfold isHidden. destruct (document h) as [d|]; [|split; [done | by intros (? & ? & _)]].
  rewrite orb_true_iff, String.eqb_eq. split.
  - intros H. by exists d.
  - by intros (? & [= <-] & H).
Qed.

(** C8: [yieldToEventLoop] chooses by the visibility of the page: when the
    document is hidden it parks the promise's resolver and posts a message
    on the channel, otherwise (visible, or no document at all) it sets a
    zero-delay timer; in both cases the promise is resolved once the host
    has run the tasks queued up to and including that message or timer. *)
Theorem C8_yield_strategy_and_progress tr h p tr' h' :
  yieldToEventLoop tr h = (p, tr', h') →
  (isHidden h = true →
     queue h' = queue h ++ [PortMessage] ∧ yieldChannelResolve tr' = Some p)
  ∧ (isHidden h = false →
       queue h' = queue h ++ [TimerCallback p] ∧ tr' = tr)
  ∧ ((∀ x, x ∈ resolved h → x < nextPromise h) → p ∉ resolved h')
  ∧ p ∈ resolved (runEventLoop (length (queue h')) tr' h').2.
Proof.
  unfold yieldToEventLoop. destruct (isHidden h) eqn:E; intros [= <- <- <-]; simpl.
  - split; [done|]. split; [done|]. split.
    + intros Hwf Hin. apply Hwf in Hin. lia.
    + rewrite length_app, Nat.add_1_r.
      apply runEventLoop_port; [done | by left].
  - split; [done|]. split; [done|]. split.
    + intros Hwf Hin. apply Hwf in Hin. lia.
    + rewrite length_app, Nat.add_1_r. by apply runEventLoop_timer.
Qed.

(** In a hidden tab the promise is resolved after the three queued tasks,
    in a visible one after two. *)
Lemma C8_yield_strategy_and_progress_witness :
  let bg := yieldToEventLoop freshTrainer hiddenHost in
  let fg := yieldToEventLoop freshTrainer visibleHost in
  (isHidden hiddenHost = true
   ∧ queue bg.2 = queue hiddenHost ++ [PortMessage]
   ∧ bg.1.1 ∈ resolved (runEventLoop 3 bg.1.2 bg.2).2)
  ∧ (isHidden visibleHost = false
     ∧ queue fg.2 = queue visibleHost ++ [TimerCallback fg.1.1]
     ∧ fg.1.1 ∈ resolved (runEventLoop 2 fg.1.2 fg.2).2).
Proof.
  intros bg fg. split.
  - destruct (C8_yield_strategy_and_progress freshTrainer hiddenHost
                bg.1.1 bg.1.2 bg.2 eq_refl) as (H1 & _ & _ & H4).
    split; [reflexivity|]. split; [exact (proj1 (H1 eq_refl)) | exact H4].
  - destruct (C8_yield_strategy_and_progress freshTrainer visibleHost
                fg.1.1 fg.1.2 fg.2 eq_refl) as (_ & H2 & _ & H4).
    split; [reflexivity|]. split; [exact (proj1 (H2 eq_refl)) | exact H4].
Defined.

End BehaviorCloningTrainerProps.

Module ModelManagerProps.
Import ModelManager.

Lemma startsWith_app p rest : startsWith p (p +:+ rest) = true.
Proof.
  unfold startsWith. induction p as [|a p IH]; simpl; [by destruct rest|].
  by destruct (Ascii.ascii_dec a a).
Qed.

Lemma includes_startsWith sub key : startsWith sub key = true → includes sub key = true.
Proof. unfold startsWith. intros H. destruct key; simpl in *; by rewrite H. Qed.

Lemma includes_here sub rest : includes sub (sub +:+ rest) = true.
Proof. apply includes_startsWith, startsWith_app. Qed.

Lemma includes_app_l sub p key : includes sub key = true → includes sub (p +:+ key) = true.
Proof.
  intros H. induction p as [|a p IH]; [done|].
  change (String a p +:+ key) with (String a (p +:+ key)).
  simpl. rewrite IH. apply orb_true_r.
Qed.

Lemma modelKey_not_fixed this modelId : modelKey this modelId ≠ FIXED_MODEL_KEY this.
Proof.
  unfold modelKey, FIXED_MODEL_KEY. intros H.
  apply (inj (String.app (storagePrefix this))) in H. discriminate.
Qed.

Lemma modelKey_isOld this modelId : isOldModelKey this (modelKey this modelId) = true.
Proof.
  unfold isOldModelKey, modelKey.
  rewrite startsWith_app, includes_app_l by apply includes_here. simpl.
  apply negb_true_iff, String.eqb_neq, modelKey_not_fixed.
Qed.

Lemma lookup_removeItems keys (ls : gmap string string) k :
  removeItems keys ls !! k = if decide (k ∈ keys) then None else ls !! k.
Proof.
  unfold removeItems. revert ls. induction keys as [|key keys IH]; intros ls; simpl.
  - destruct (decide (k ∈ [])) as [H|]; [by apply elem_of_nil in H | done].
  - rewrite IH.
    destruct (decide (k ∈ keys)) as [Hin|Hnin];
      destruct (decide (k ∈ key :: keys)) as [Hin'|Hnin']; try done.
    + exfalso. apply Hnin'. by apply list_elem_of_further.
    + apply elem_of_cons in Hin' as [->|?]; [apply lookup_delete_eq | done].
    + apply lookup_delete_ne. intros ->. apply Hnin', list_elem_of_here.
Qed.

(** What [cleanupOldModels] leaves in [localStorage]. *)
Lemma lookup_cleanupOldModels this (ls : gmap string string) k :
  cleanupOldModels this ls !! k =
    if isOldModelKey this k || String.eqb k (modelListKey this) then None else ls !! k.
Proof.
  unfold cleanupOldModels.
  destruct (String.eqb_spec k (modelListKey this)) as [->|Hne].
  - rewrite orb_true_r. apply lookup_delete_eq.
  - rewrite orb_false_r, lookup_delete_ne by done.
    rewrite lookup_removeItems.
    destruct (isOldModelKey this k) eqn:E.
    + destruct (ls !! k) as [v|] eqn:Hk; [|by destruct (decide _)].
      rewrite decide_True; [done|].
      apply list_elem_of_filter. split; [done|].
      apply list_elem_of_fmap. exists (k, v). split; [done|].
      by apply elem_of_map_to_list.
    + rewrite decide_False; [done|].
      rewrite list_elem_of_filter. intros [? _]. congruence.
Qed.

(** [cleanupOldModels] keeps the fixed key, removes every other model
    entry and keeps what is no model entry. *)
Lemma cleanupOldModels_fixed this (ls : gmap string string) :
  cleanupOldModels this ls !! FIXED_MODEL_KEY this = ls !! FIXED_MODEL_KEY this.
Proof.
  rewrite lookup_cleanupOldModels. unfold isOldModelKey.
  rewrite String.eqb_refl, andb_false_r. simpl.
  destruct (String.eqb_spec (FIXED_MODEL_KEY this) (modelListKey this)) as [H|]; [|done].
  exfalso. unfold modelListKey, FIXED_MODEL_KEY in H.
  apply (inj (String.app (storagePrefix this))) in H. discriminate.
Qed.

Lemma cleanupOldModels_gone this (ls : gmap string string) k :
  isModelEntry this k = true → k ≠ FIXED_MODEL_KEY this →
  cleanupOldModels this ls !! k = None.
Proof.
  intros Hk Hne. rewrite lookup_cleanupOldModels.
  unfold isModelEntry in Hk. unfold isOldModelKey.
  rewrite (proj2 (String.eqb_neq _ _) Hne) in *. simpl in Hk. by rewrite Hk.
Qed.

Lemma cleanupOldModels_other this (ls : gmap string string) k :
  isModelEntry this k = false → cleanupOldModels this ls !! k = ls !! k.
Proof.
  intros Hk. unfold isModelEntry in Hk.
  apply orb_false_iff in Hk as [Hne Hk].
  rewrite lookup_cleanupOldModels.
  unfold isOldModelKey. rewrite Hk. simpl.
  destruct (String.eqb_spec k (modelListKey this)) as [->|]; [|done].
  exfalso. unfold modelListKey in Hk.
  rewrite startsWith_app in Hk. simpl in Hk.
  by rewrite includes_app_l in Hk by apply (includes_here "model_" "list").
Qed.

Lemma modelKey_isModelEntry this i : isModelEntry this (modelKey this i) = true.
Proof.
  unfold isModelEntry, modelKey.
  rewrite startsWith_app, includes_app_l by apply includes_here.
  apply orb_true_r.
Qed.

Section SaveModelProps.

Variable stringify : ModelData → string.
Variable parsedId : string → option string.
Variable writeError : gmap string string → ModelData → option string.
Variable putError : ModelData → option string.
Variable deleteFails : string → bool.

Abbreviation saveModelCall' := (saveModelCall stringify parsedId writeError putError deleteFails).

(** C3 (amended): every [saveModel] call, whether it returns or throws,
    leaves no model entry under the prefix other than the fixed key
    [<storagePrefix>current_model] (neither a [model_<id>] entry nor the
    model list) and leaves the entries that are no model entries as they
    were.  When the call returns, the fixed key holds the record just
    written, whatever was stored there before, so it is the one model entry
    in storage, and an open database holds the new record under
    [current_model] over the earlier records, less the record of the old
    model's id when its delete request succeeded.  When the call throws,
    either [model.serialize()] or the write threw and the fixed key holds
    what it held before the call, old model or nothing, or the IndexedDB
    [put] failed after the write.  A [serialize()] that throws always makes
    the call throw. *)
Theorem C3_single_current_model this (ls : gmap string string) m serializeError
    md generated savedAt :
  let '(this', ls', r) := saveModelCall' this ls m serializeError md generated savedAt in
  (∀ k, isModelEntry this k = true → k ≠ FIXED_MODEL_KEY this → ls' !! k = None)
  ∧ (∀ i, ls' !! modelKey this i = None)
  ∧ (∀ k, isModelEntry this k = true → is_Some (ls' !! k) → k = FIXED_MODEL_KEY this)
  ∧ (∀ k, isModelEntry this k = false → ls' !! k = ls !! k)
  ∧ (∀ modelId, r = Js.Returned modelId →
       serializeError = None
       ∧ (∃ data, ls' !! FIXED_MODEL_KEY this = Some (stringify data)
                  ∧ id data = modelId ∧ model data = serialize m
                  ∧ writeError (cleanupOldModels this ls) data = None)
       ∧ (∀ k, isModelEntry this k = true ∧ is_Some (ls' !! k) ↔ k = FIXED_MODEL_KEY this)
       ∧ (db this = None → db this' = None)
       ∧ (∀ stores, db this = Some stores →
            ∃ data', id data' = "current_model" ∧ model data' = serialize m
                     ∧ putError data' = None
                     ∧ db this' =
                         Some (<[("models", "current_model") := data']>
                                 (match oldModelId parsedId this ls with
                                  | Some oldId =>
                                      if deleteFails oldId then stores
                                      else delete ("models", oldId) stores
                                  | None => stores
                                  end))))
  ∧ (∀ e, r = Js.Thrown e →
       (ls' !! FIXED_MODEL_KEY this = ls !! FIXED_MODEL_KEY this
        ∧ (serializeError = Some e
           ∨ serializeError = None
             ∧ ∃ data, model data = serialize m
                       ∧ writeError (cleanupOldModels this ls) data = Some e))
       ∨ (serializeError = None
          ∧ is_Some (db this)
          ∧ ∃ data data', ls' !! FIXED_MODEL_KEY this = Some (stringify data)
                          ∧ model data = serialize m
                          ∧ putError data' = Some e))
  ∧ (∀ e, serializeError = Some e →
       r = Js.Thrown e ∧ ls' !! FIXED_MODEL_KEY this = ls !! FIXED_MODEL_KEY this).
Proof.
  unfold saveModelCall. cbv zeta.
  set (this1 := match oldModelId parsedId this ls with Some _ => _ | None => _ end).
  set (data := {| id := _; model := serialize m; metadata := _ |}).
  set (data' := {| id := "current_model"; model := _; metadata := _ |}).
  assert (db this1 = match db this with
                     | Some stores =>
                         Some (match oldModelId parsedId this ls with
                               | Some oldId =>
                                   if deleteFails oldId then stores
                                   else delete ("models", oldId) stores
                               | None => stores
                               end)
                     | None => None
                     end) as Hdb1.
  { unfold this1. destruct (oldModelId parsedId this ls) as [oldId|]; [|by destruct (db this)].
    destruct (deleteFails oldId); [by destruct (db this)|].
    unfold deleteFromIndexedDB. by destruct (db this) eqn:E. }
  pose proof (cleanupOldModels_gone this ls) as Hgone.
  pose proof (cleanupOldModels_other this ls) as Hother.
  pose proof (cleanupOldModels_fixed this ls) as Hfixed.
  assert (∀ v k, isModelEntry this k = true → k ≠ FIXED_MODEL_KEY this →
            <[FIXED_MODEL_KEY this := v]> (cleanupOldModels this ls) !! k = None) as Hgone'.
  { intros v k Hk Hne. rewrite lookup_insert_ne by done. by apply Hgone. }
  assert (∀ v k, isModelEntry this k = false →
            <[FIXED_MODEL_KEY this := v]> (cleanupOldModels this ls) !! k = ls !! k) as Hother'.
  { intros v k Hk. rewrite lookup_insert_ne; [by apply Hother|].
    intros <-. unfold isModelEntry in Hk. by rewrite String.eqb_refl in Hk. }
  assert (∀ ls' : gmap string string,
            (∀ k, isModelEntry this k = true → k ≠ FIXED_MODEL_KEY this → ls' !! k = None) →
            (∀ i, ls' !! modelKey this i = None)
            ∧ (∀ k, isModelEntry this k = true → is_Some (ls' !! k) → k = FIXED_MODEL_KEY this))
    as Hone.
  { intros ls' H. split.
    - intros i. apply H; [apply modelKey_isModelEntry | apply modelKey_not_fixed].
    - intros k Hk [v Hv]. destruct (decide (k = FIXED_MODEL_KEY this)) as [|Hne]; [done|].
      by rewrite (H k Hk Hne) in Hv. }
  destruct serializeError as [e0|].
  { split; [done|]. split; [apply Hone, Hgone|]. split; [apply Hone, Hgone|].
    split; [done|]. split; [done|]. split.
    - intros e [= <-]. left. split; [done | by left].
    - by intros e [= <-]. }
  destruct (writeError (cleanupOldModels this ls) data) as [e0|] eqn:Hw.
  { split; [done|]. split; [apply Hone, Hgone|]. split; [apply Hone, Hgone|].
    split; [done|]. split; [done|]. split; [|done].
    intros e [= <-]. left. split; [done|]. right. split; [done|]. by exists data. }
  assert (<[FIXED_MODEL_KEY this := stringify data]> (cleanupOldModels this ls)
            !! FIXED_MODEL_KEY this = Some (stringify data)) as Hnew
    by apply lookup_insert_eq.
  assert (∀ k, isModelEntry this k = true
               ∧ is_Some (<[FIXED_MODEL_KEY this := stringify data]>
                            (cleanupOldModels this ls) !! k)
               ↔ k = FIXED_MODEL_KEY this) as Honly.
  { intros k. split.
    - intros [Hk Hv]. by apply (Hone _ (Hgone' (stringify data))).
    - intros ->. split; [|by rewrite Hnew].
      unfold isModelEntry. by rewrite String.eqb_refl. }
  destruct (db this1) as [stores1|] eqn:E1.
  - destruct (db this) as [stores|] eqn:E0; [|done]. injection Hdb1 as ->.
    destruct (putError data') as [e0|] eqn:Hp.
    + split; [apply Hgone'|]. split; [apply Hone, Hgone'|]. split; [apply Hone, Hgone'|].
      split; [apply Hother'|]. split; [done|]. split; [|done].
      intros e [= <-]. right. split; [done|]. split; [done|]. by exists data, data'.
    + split; [apply Hgone'|]. split; [apply Hone, Hgone'|]. split; [apply Hone, Hgone'|].
      split; [apply Hother'|]. split; [|done].
      intros ? [= <-]. split; [done|]. split; [by exists data|]. split; [done|].
      split; [done|]. intros ? [= <-]. exists data'. split; [done|]. split; [done|].
      split; [done|]. unfold saveToIndexedDB. by rewrite E1.
  - destruct (db this) as [stores|] eqn:E0; [done|].
    split; [apply Hgone'|]. split; [apply Hone, Hgone'|]. split; [apply Hone, Hgone'|].
    split; [apply Hother'|]. split; [|done].
    intros ? [= <-]. split; [done|]. split; [by exists data|]. split; [done|].
    split; [|done]. intros _. unfold saveToIndexedDB. by rewrite E1.
Qed.

(** With no exception and no failed request, the call is [saveModel]. *)
Lemma saveModelCall_without_exception this (ls : gmap string string) m md generated savedAt :
  (∀ oldId, deleteFails oldId = false) →
  (∀ ls1 data, writeError ls1 data = None) →
  (∀ data, putError data = None) →
  saveModelCall' this ls m None md generated savedAt =
    let '(this', ls', modelId) :=
      saveModel stringify parsedId this ls m md generated savedAt in
    (this', ls', Js.Returned modelId).
Proof.
  intros Hd Hw Hp. unfold saveModelCall, saveModel, oldModelId. cbv zeta.
  rewrite Hw, Hp.
  destruct (ls !! FIXED_MODEL_KEY this) as [old|].
  - destruct (String.eqb old ""); [by destruct (db this)|].
    destruct (parsedId old) as [oldId|]; [|by destruct (db this)].
    rewrite Hd. by destruct (db (deleteFromIndexedDB this "models" oldId)).
  - by destruct (db this).
Qed.

(** A call that returns, with the delete request for the old record served,
    has done what [saveModel] gives. *)
Lemma saveModelCall_returned this (ls : gmap string string) m serializeError
    md generated savedAt this' ls' modelId :
  (∀ oldId, oldModelId parsedId this ls = Some oldId → deleteFails oldId = false) →
  saveModelCall' this ls m serializeError md generated savedAt
  = (this', ls', Js.Returned modelId) →
  serializeError = None
  ∧ saveModel stringify parsedId this ls m md generated savedAt = (this', ls', modelId).
Proof.
  intros Hd. unfold saveModelCall, saveModel. cbv zeta.
  destruct serializeError as [e|]; [done|].
  destruct (writeError _ _); [done|].
  set (this1 := match oldModelId parsedId this ls with Some _ => _ | None => _ end).
  set (this2 := match ls !! FIXED_MODEL_KEY this with Some _ => _ | None => _ end).
  assert (this1 = this2) as ->.
  { unfold this1, this2. unfold oldModelId in *.
    destruct (ls !! FIXED_MODEL_KEY this) as [old|]; [|done].
    destruct (String.eqb old ""); [done|].
    destruct (parsedId old) as [oldId|]; [|done]. by rewrite Hd. }
  destruct (db this2); [destruct (putError _); [done|]|]; by intros [= <- <- <-].
Qed.

End SaveModelProps.

(** C3 as stated fails for a call that throws: [cleanupOldModels()] runs
    before the write, and the [catch] only rethrows.  On the sample store,
    with a [localStorage] that refuses the new item, the older model
    [model_17] and the model list are removed, the new model is not
    written, and the fixed key still holds the old record. *)
Lemma C3_failed_save_keeps_old_model :
  let '(_, ls', r) :=
    saveModelCall id (λ _, None) (λ _ _, Some "QuotaExceededError") (λ _, None) (λ _, false)
      sampleManager sampleStorage sampleSerializable None ∅
      "model_1_abc" "2024-01-01T00:00:00.000Z" in
  r = Js.Thrown "QuotaExceededError"
  ∧ sampleStorage !! "saber_rl_model_17" = Some "older"
  ∧ ls' = {[ "saber_rl_current_model" := "old"; "saber_rl_settings" := "s" ]}.
Proof. vm_compute. split; [reflexivity|]. split; reflexivity. Qed.


(** Saving over the sample store with an open database: the older model
    and the model list are gone, the fixed key holds the new record, the
    settings entry stays, and the database holds [current_model] next to the
    record of the earlier session. *)
Lemma C3_single_current_model_witness :
  let '(this', ls', r) :=
    saveModelCall id (λ _, None) (λ _ _, None) (λ _, None) (λ _, false)
      openManager sampleStorage sampleSerializable None ∅
      "model_1_abc" "2024-01-01T00:00:00.000Z" in
  r = Js.Returned "model_1_abc"
  ∧ ls' !! modelKey openManager "17" = None
  ∧ (∀ k, isModelEntry openManager k = true ∧ is_Some (ls' !! k)
          ↔ k = FIXED_MODEL_KEY openManager)
  ∧ ls' !! "saber_rl_settings" = sampleStorage !! "saber_rl_settings"
  ∧ ∃ stores', db this' = Some stores'
               ∧ is_Some (stores' !! ("models", "current_model"))
               ∧ is_Some (stores' !! ("models", "m1")).
Proof.
  pose proof (C3_single_current_model id (λ _, None) (λ _ _, None) (λ _, None) (λ _, false)
                openManager sampleStorage sampleSerializable None ∅
                "model_1_abc" "2024-01-01T00:00:00.000Z") as H.
  assert ((saveModelCall id (λ _, None) (λ _ _, None) (λ _, None) (λ _, false)
             openManager sampleStorage sampleSerializable None ∅
             "model_1_abc" "2024-01-01T00:00:00.000Z").2 = Js.Returned "model_1_abc") as Hr
    by (vm_compute; reflexivity).
  destruct (saveModelCall _ _ _ _ _ _ _ _ _ _ _ _) as [[this' ls'] r].
  simpl in Hr. subst r.
  destruct H as (_ & H2 & _ & H4 & H5 & _).
  destruct (H5 _ eq_refl) as (_ & _ & Honly & _ & Hdb).
  split; [reflexivity|]. split; [apply H2|]. split; [exact Honly|].
  split; [apply H4; reflexivity|].
  destruct (Hdb _ eq_refl) as (data' & _ & _ & _ & ->).
  eexists. split; [reflexivity|]. split.
  - rewrite lookup_insert_eq. by eexists.
  - rewrite lookup_insert_ne by done. vm_compute. by eexists.
Defined.

End ModelManagerProps.

Module DemonstrationStorageProps.
Import DemonstrationStorage.

Lemma quiet_ret {A} (a : A) : quiet (ret a).
Proof. intros amb. constructor. Qed.

Lemma quiet_throw {A} e : quiet (@throw A e).
Proof. intros amb. constructor. Qed.

Lemma quiet_storageCall {A} ev (f : gmap string string → A * gmap string string) :
  isProbe ev = false → quiet (storageCall ev f).
Proof.
  intros Hev amb. unfold storageCall.
  destruct (localStorage amb) as [ls|]; [destruct (f ls)|]; simpl; by repeat constructor.
Qed.

Lemma quiet_bind {A B} (c : M A) (k : A → M B) :
  quiet c → (∀ a, quiet (k a)) → quiet (bind c k).
Proof.
  intros Hc Hk amb. unfold bind. specialize (Hc amb).
  destruct (c amb) as [[evs [a|e]] amb']; simpl in *; [|done].
  specialize (Hk a amb'). destruct (k a amb') as [[evs' r] amb'']; simpl in *.
  by apply Forall_app.
Qed.

Lemma starts_storageCall {A} ev (f : gmap string string → A * gmap string string) :
  isStorageCall ev = true → startsWithStorageCall (storageCall ev f).
Proof.
  intros Hev amb. unfold storageCall.
  destruct (localStorage amb) as [ls|]; [destruct (f ls)|]; simpl; by eexists _, _.
Qed.

Lemma starts_bind {A B} (c : M A) (k : A → M B) :
  startsWithStorageCall c → startsWithStorageCall (bind c k).
Proof.
  intros Hc amb. unfold bind. destruct (Hc amb) as (ev & rest & Hevs & Hev).
  destruct (c amb) as [[evs [a|e]] amb']; simpl in *; subst.
  - destruct (k a amb') as [[evs' r] amb'']; simpl. by eexists _, _.
  - by eexists _, _.
Qed.

Lemma quiet_forEachKey {A} fuel from (body : string → A → M A) acc :
  (∀ key a, quiet (body key a)) → quiet (forEachKey fuel from body acc).
Proof.
  intros Hbody. revert from acc. induction fuel as [|fuel IH]; intros from acc; simpl.
  - apply quiet_bind; [by apply quiet_storageCall|].
    intros n. destruct (from <? n); apply quiet_ret.
  - apply quiet_bind; [by apply quiet_storageCall|].
    intros n. destruct (from <? n); [|apply quiet_ret].
    apply quiet_bind; [by apply quiet_storageCall|].
    intros k. apply quiet_bind; [|by intros; apply IH].
    destruct k as [key|]; [|apply quiet_ret].
    destruct (String.eqb key ""); [apply quiet_ret | apply Hbody].
Qed.

Lemma starts_forEachKey {A} fuel from (body : string → A → M A) acc :
  startsWithStorageCall (forEachKey fuel from body acc).
Proof. destruct fuel; simpl; by apply starts_bind, starts_storageCall. Qed.

Lemma implemented_ret {A} (a : A) : implemented (ret a).
Proof. done. Qed.

Lemma implemented_throw {A} e : e ≠ NotImplemented → implemented (@throw A e).
Proof. intros He amb. by destruct e. Qed.

Lemma implemented_storageCall {A} ev (f : gmap string string → A * gmap string string) :
  implemented (storageCall ev f).
Proof.
  intros amb. unfold storageCall.
  by destruct (localStorage amb) as [ls|]; [destruct (f ls)|].
Qed.

Lemma implemented_bind {A B} (c : M A) (k : A → M B) :
  implemented c → (∀ a, implemented (k a)) → implemented (bind c k).
Proof.
  intros Hc Hk amb. unfold bind. specialize (Hc amb).
  destruct (c amb) as [[evs [a|e]] amb']; simpl in *; [|done].
  specialize (Hk a amb'). by destruct (k a amb') as [[evs' r] amb''].
Qed.

Lemma implemented_forEachKey {A} fuel from (body : string → A → M A) acc :
  (∀ key a, implemented (body key a)) → implemented (forEachKey fuel from body acc).
Proof.
  intros Hbody. revert from acc. induction fuel as [|fuel IH]; intros from acc; simpl.
  - apply implemented_bind; [apply implemented_storageCall|].
    intros n. destruct (from <? n); apply implemented_ret.
  - apply implemented_bind; [apply implemented_storageCall|].
    intros n. destruct (from <? n); [|apply implemented_ret].
    apply implemented_bind; [apply implemented_storageCall|].
    intros k. apply implemented_bind; [|by intros; apply IH].
    destruct k as [key|]; [|apply implemented_ret].
    destruct (String.eqb key ""); [apply implemented_ret | apply Hbody].
Qed.

Lemma bind_length_ {B} (k : nat → M B) w (ls : gmap string string) :
  bind length_ k {| hasWindow := w; localStorage := Some ls |}
  = let '(evs, r, amb) :=
      k (length (map_to_list ls)) {| hasWindow := w; localStorage := Some ls |} in
    (Length :: evs, r, amb).
Proof. reflexivity. Qed.

Lemma bind_key_ {B} i (k : option string → M B) w (ls : gmap string string) :
  bind (key_ i) k {| hasWindow := w; localStorage := Some ls |}
  = let '(evs, r, amb) :=
      k ((map_to_list ls).*1 !! i) {| hasWindow := w; localStorage := Some ls |} in
    (Key i :: evs, r, amb).
Proof. reflexivity. Qed.

(** The key loop is total: with as much fuel as there are keys it visits
    every key, in order, when the body only reads. *)
Lemma forEachKey_reads {A} (f : string → A → A) (body : string → A → M A)
    w (ls : gmap string string) fuel from acc :
  let amb := {| hasWindow := w; localStorage := Some ls |} in
  let keys := (map_to_list ls).*1 in
  (∀ key a, ∃ evs, body key a amb = (evs, Js.Returned (f key a), amb)) →
  from + fuel = length keys →
  ∃ evs,
    forEachKey fuel from body acc amb
    = (evs,
       Js.Returned
         (foldl (λ a key, if String.eqb key "" then a else f key a) acc (drop from keys)),
       amb).
Proof.
  intros amb keys Hbody. revert from acc.
  assert (length (map_to_list ls) = length keys) as Hlen
    by (unfold keys; by rewrite length_fmap).
  induction fuel as [|fuel IH]; intros from acc Hfuel.
  - cbn [forEachKey]. unfold amb. rewrite bind_length_, Hlen.
    rewrite (proj2 (Nat.ltb_ge _ _)) by lia.
    rewrite drop_ge by lia. by eexists.
  - cbn [forEachKey]. unfold amb. rewrite bind_length_, Hlen.
    rewrite (proj2 (Nat.ltb_lt _ _)) by lia.
    destruct (lookup_lt_is_Some_2 keys from) as [key Hkey]; [lia|].
    rewrite bind_key_. fold keys amb. rewrite Hkey.
    rewrite (drop_S _ _ _ Hkey). cbn [foldl].
    destruct (IH (S from) (if String.eqb key "" then acc else f key acc)) as [evs Hevs];
      [lia|].
    unfold bind. destruct (String.eqb key "").
    + unfold ret at 1. rewrite Hevs. by eexists.
    + destruct (Hbody key acc) as [evs' ->]. rewrite Hevs. by eexists.
Qed.

Lemma backendTaken_starts evs ev rest :
  evs = ev :: rest → isStorageCall ev = true → backendTaken evs = LocalStorageBackend.
Proof. intros -> Hev. unfold backendTaken. simpl. by rewrite Hev. Qed.

Section OperationsProps.

Context {Dataset : Type}.
Variable stringify : Dataset → string.
Variable parse : string → option Dataset.

Abbreviation run' := (run stringify parse).

Lemma run_no_probe (op : Op) this amb :
  Forall (λ ev, isProbe ev = false) (run' op this amb).1.
Proof.
  destruct op; simpl.
  - unfold saveDataset. destruct (isBrowser this); [|apply quiet_throw].
    apply quiet_bind; [by apply quiet_storageCall | intros; apply quiet_ret].
  - unfold loadDataset. destruct (isBrowser this); [|apply quiet_throw].
    apply quiet_bind; [by apply quiet_storageCall|].
    intros [text|]; [|apply quiet_throw].
    destruct (String.eqb text ""); [apply quiet_throw|].
    destruct (parse text); [apply quiet_ret | apply quiet_throw].
  - unfold listDatasets. destruct (isBrowser this); [|apply quiet_throw].
    apply quiet_forEachKey. intros key a.
    destruct (String.prefix _ key); apply quiet_ret.
  - unfold deleteDataset. destruct (isBrowser this); [|apply quiet_throw].
    by apply quiet_storageCall.
  - unfold getStorageSize. destruct (isBrowser this); [|apply quiet_ret].
    apply quiet_forEachKey. intros key a.
    destruct (String.prefix _ key); [|apply quiet_ret].
    apply quiet_bind; [by apply quiet_storageCall|].
    intros [v|]; [|apply quiet_ret]. destruct (String.eqb v ""); apply quiet_ret.
Qed.

Lemma run_browser (op : Op) this amb :
  isBrowser this = true →
  backendTaken (run' op this amb).1 = LocalStorageBackend.
Proof.
  intros Hb.
  assert (∃ ev rest, (run' op this amb).1 = ev :: rest ∧ isStorageCall ev = true)
    as (ev & rest & Hevs & Hev); [|by eapply backendTaken_starts].
  destruct op; simpl.
  - unfold saveDataset. rewrite Hb. by apply starts_bind, starts_storageCall.
  - unfold loadDataset. rewrite Hb. by apply starts_bind, starts_storageCall.
  - unfold listDatasets. rewrite Hb. apply starts_forEachKey.
  - unfold deleteDataset. rewrite Hb. by apply starts_storageCall.
  - unfold getStorageSize. rewrite Hb. apply starts_forEachKey.
Qed.

Lemma run_browser_implemented (op : Op) this amb :
  isBrowser this = true → (run' op this amb).2 = false.
Proof.
  intros Hb. destruct op; simpl.
  - unfold saveDataset. rewrite Hb.
    apply implemented_bind; [apply implemented_storageCall | intros; apply implemented_ret].
  - unfold loadDataset. rewrite Hb.
    apply implemented_bind; [apply implemented_storageCall|].
    intros [text|]; [|by apply implemented_throw].
    destruct (String.eqb text ""); [by apply implemented_throw|].
    destruct (parse text); [apply implemented_ret | by apply implemented_throw].
  - unfold listDatasets. rewrite Hb.
    apply implemented_forEachKey. intros key a.
    destruct (String.prefix _ key); apply implemented_ret.
  - unfold deleteDataset. rewrite Hb. apply implemented_storageCall.
  - unfold getStorageSize. rewrite Hb.
    apply implemented_forEachKey. intros key a.
    destruct (String.prefix _ key); [|apply implemented_ret].
    apply implemented_bind; [apply implemented_storageCall|].
    intros [v|]; [|apply implemented_ret]. destruct (String.eqb v ""); apply implemented_ret.
Qed.

Lemma run_not_browser (op : Op) this amb :
  isBrowser this = false →
  (run' op this amb).1 = []
  ∧ (run' op this amb).2 = match op with GetStorageSize => false | _ => true end.
Proof.
  intros Hb. destruct op; simpl;
    unfold saveDataset, loadDataset, listDatasets, deleteDataset, getStorageSize;
    by rewrite Hb.
Qed.

(** In a browser [listDatasets] returns: the keys with the store's prefix,
    in the order [localStorage] enumerates them. *)
Lemma listDatasets_returns this w (ls : gmap string string) :
  isBrowser this = true →
  ∃ evs,
    listDatasets this {| hasWindow := w; localStorage := Some ls |}
    = (evs,
       Js.Returned
         (foldl (λ keys key,
                   if String.eqb key "" then keys
                   else if String.prefix (storageKey this +:+ "_") key
                        then keys ++ [key] else keys)
            [] (map_to_list ls).*1),
       {| hasWindow := w; localStorage := Some ls |}).
Proof using Type.
  intros Hb. unfold listDatasets. rewrite Hb. unfold keyCount. cbn [localStorage].
  apply (forEachKey_reads
           (λ key keys, if String.prefix (storageKey this +:+ "_") key
                        then keys ++ [key] else keys)).
  - intros key a. destruct (String.prefix _ key); by eexists.
  - by rewrite length_fmap.
Qed.

Lemma run_backend (op : Op) this amb :
  backendTaken (run' op this amb).1 = backendOf this.
Proof.
  unfold backendOf. destruct (isBrowser this) eqn:Hb.
  - by apply run_browser.
  - by rewrite (proj1 (run_not_browser op this amb Hb)).
Qed.

(** C6: the constructor probes the host once ([typeof window], then
    [typeof localStorage] when there is a window) and stores the result in
    [isBrowser]; every storage operation takes the backend this flag
    selects and probes nothing: on one instance, any two calls, in whatever
    state the host is by then, take the same branch. *)
Theorem C6_backend_chosen_once sk fmt amb0 (this : t) (op : Op) amb1 amb2 :
  (let '(probes, built) := constructor sk fmt amb0 in
   length (filter (λ ev, ev = TypeofWindow) probes) = 1
   ∧ Forall (λ ev, isProbe ev = true) probes
   ∧ isBrowser built = hasWindow amb0 && bool_decide (is_Some (localStorage amb0)))
  ∧ Forall (λ ev, isProbe ev = false) (run' op this amb1).1
  ∧ backendTaken (run' op this amb1).1 = backendOf this
  ∧ backendTaken (run' op this amb1).1 = backendTaken (run' op this amb2).1
  ∧ ((run' op this amb1).2 = true → isBrowser this = false).
Proof.
  split; [|split; [|split; [|split]]].
  - unfold constructor. destruct (hasWindow amb0); simpl; by repeat constructor.
  - apply run_no_probe.
  - apply run_backend.
  - by rewrite !run_backend.
  - destruct (isBrowser this) eqn:Hb; [|done].
    by rewrite run_browser_implemented.
Qed.

End OperationsProps.

(** A store built in a browser keeps going to [localStorage] after the
    global has gone, and one built without it never does. *)
Lemma C6_backend_chosen_once_witness :
  let inBrowser := (constructor None None browser).2 in
  let outside := (constructor None None noStorage).2 in
  (backendTaken (run (λ d : string, d) Some (LoadDataset "k") inBrowser browser).1
     = LocalStorageBackend
   ∧ backendTaken (run (λ d : string, d) Some (LoadDataset "k") inBrowser noStorage).1
     = LocalStorageBackend)
  ∧ (backendTaken (run (λ d : string, d) Some ListDatasets outside noStorage).1
       = FileSystemBackend
     ∧ backendTaken (run (λ d : string, d) Some ListDatasets outside browser).1
       = FileSystemBackend).
Proof.
  intros inBrowser outside. split.
  - destruct (C6_backend_chosen_once (λ d : string, d) Some None None browser
                inBrowser (LoadDataset "k") browser noStorage) as (_ & _ & H1 & H2 & _).
    split; [exact H1 | by rewrite <- H2].
  - destruct (C6_backend_chosen_once (λ d : string, d) Some None None browser
                outside ListDatasets noStorage browser) as (_ & _ & H1 & H2 & _).
    split; [exact H1 | by rewrite <- H2].
Defined.

End DemonstrationStorageProps.

Module NetworkUtilsProps.
Import NetworkUtils.

Section TfProps.

Context {Float32 Number : Type}.
Variable toNumber : Float32 → Number.
Variable convert : string → Number → Float32.
Variable knownActivation : string → bool.
Variable initialValues : string → list nat → list Float32.

(** A [float32] entry read as a number and stored again as [float32] is
    the same entry: every [float32] is a double. *)
Hypothesis convert_toNumber : ∀ x, convert "float32" (toNumber x) = x.

(** [tf.layers.dense] accepts the activation ['linear']. *)
Hypothesis linear_known : knownActivation "linear" = true.

Abbreviation dense' := (dense knownActivation initialValues).
Abbreviation addHidden' := (addHidden knownActivation initialValues).
Abbreviation load' := (loadNetworkFromSerialized convert knownActivation initialValues).
Abbreviation serialize' := (serializeNetwork toNumber).
Abbreviation Tensor' := (@Tensor Float32).
Abbreviation DenseLayer' := (@DenseLayer Float32).

Lemma toTensors_serialized (ws : list Tensor') :
  Forall wellFormed ws →
  toTensors convert
    (map (λ w, {| data := map toNumber (t_data w); shape := t_shape w; dtype := t_dtype w |}) ws)
  = Js.Returned ws.
Proof using convert_toNumber.
  induction 1 as [|w ws [Hd Hl] _ IH]; [done|].
  simpl. unfold tensor. simpl.
  rewrite length_map, Hl, Nat.eqb_refl, IH.
  do 2 f_equal. destruct w as [d sh dt]; simpl in *. subst dt. f_equal.
  rewrite map_map. rewrite <- (map_id d) at 2. apply map_ext. intros x. apply convert_toNumber.
Qed.

Lemma dense_returned inputDim u act nm :
  0 < u → knownActivation act = true →
  ∃ l : DenseLayer',
    dense' inputDim (Some u) act nm = Js.Returned l
    ∧ layerSpec l = (u, act, nm)
    ∧ map t_shape [kernel l; bias l] = [[inputDim; u]; [u]]
    ∧ Forall (λ w, t_dtype w = "float32") [kernel l; bias l].
Proof using Type.
  intros Hu Hact. unfold dense.
  rewrite (proj2 (Nat.eqb_neq u 0)) by lia. rewrite Hact. simpl.
  eexists. split; [reflexivity|]. by repeat constructor.
Qed.

Lemma chainShapes_snoc inputDim sizes out :
  chainShapes inputDim (sizes ++ [out])
  = chainShapes inputDim sizes ++ [[lastDim inputDim sizes; out]; [out]].
Proof using Type.
  revert inputDim. induction sizes as [|u rest IH]; intros inputDim; [done|].
  simpl. by rewrite IH.
Qed.

Lemma addHidden_returned inputDim from sizes act :
  Forall (λ u, 0 < u) sizes → knownActivation act = true →
  ∃ ls : list DenseLayer',
    addHidden' inputDim from sizes act = Js.Returned (ls, lastDim inputDim sizes)
    ∧ map layerSpec ls = hiddenSpecs from sizes act
    ∧ map t_shape (getWeights ls) = chainShapes inputDim sizes
    ∧ Forall (λ w, t_dtype w = "float32") (getWeights ls).
Proof using Type.
  intros Hpos Hact. revert inputDim from.
  induction Hpos as [|u rest Hu _ IH]; intros inputDim from.
  - exists []. by repeat split.
  - destruct (dense_returned inputDim u act ("hidden_layer_" +:+ pretty from) Hu Hact)
      as (l & Hl & Hspec & Hshape & Hdt).
    destruct (IH u (S from)) as (ls & Hls & Hspecs & Hshapes & Hdts).
    exists (l :: ls). cbn [addHidden]. rewrite Hl, Hls.
    split; [done|].
    split; [cbn [map hiddenSpecs]; by rewrite Hspec, Hspecs|].
    split.
    + change (getWeights (l :: ls)) with ([kernel l; bias l] ++ getWeights ls).
      rewrite map_app, Hshape, Hshapes. done.
    + change (getWeights (l :: ls)) with ([kernel l; bias l] ++ getWeights ls).
      by apply Forall_app.
Qed.

Lemma getWeights_app (m1 m2 : list DenseLayer') :
  getWeights (m1 ++ m2) = getWeights m1 ++ getWeights m2.
Proof using Type. unfold getWeights. apply flat_map_app. Qed.

Lemma getWeights_assign (m : list DenseLayer') (ws : list Tensor') :
  length (getWeights m) = length ws →
  getWeights (assign m ws) = ws ∧ map layerSpec (assign m ws) = map layerSpec m.
Proof using Type.
  revert ws. induction m as [|l m IH]; intros ws.
  - destruct ws; [done | simpl; lia].
  - destruct ws as [|k [|b ws]]; simpl; try lia.
    intros [= Hlen]. destruct (IH ws Hlen) as [Hw Hs].
    unfold getWeights in *. simpl. by rewrite Hw, Hs.
Qed.

Lemma dtypes_agree (l1 l2 : list Tensor') :
  Forall (λ w, t_dtype w = "float32") l1 →
  Forall (λ w, t_dtype w = "float32") l2 →
  length l1 = length l2 →
  map t_dtype l1 = map t_dtype l2.
Proof using Type.
  intros H1. revert l2. induction H1 as [|w l1 Hw _ IH]; intros l2 H2 Hlen.
  - by destruct l2.
  - destruct H2 as [|w' l2 Hw' H2]; [done|]. simpl in *.
    rewrite Hw, Hw'. f_equal. apply IH; [done | lia].
Qed.

Lemma setWeights_returned (m : list DenseLayer') (ws : list Tensor') :
  map t_shape (getWeights m) = map t_shape ws →
  Forall (λ w, t_dtype w = "float32") (getWeights m) →
  Forall (λ w, t_dtype w = "float32") ws →
  ∃ m', setWeights m ws = Js.Returned m'
        ∧ getWeights m' = ws
        ∧ map layerSpec m' = map layerSpec m.
Proof using Type.
  intros Hsh Hdm Hdw.
  assert (length (getWeights m) = length ws) as Hlen.
  { rewrite <- (length_map t_shape), Hsh. apply length_map. }
  unfold setWeights. rewrite Hlen, Nat.eqb_refl. simpl.
  rewrite bool_decide_eq_true_2 by done. simpl.
  rewrite bool_decide_eq_true_2 by (by apply dtypes_agree). simpl.
  eexists. split; [reflexivity|]. by apply getWeights_assign.
Qed.

(** C9: for an architecture with at least one hidden layer whose layer
    sizes are positive and whose activation is one TensorFlow.js knows (the
    architectures for which a model exists), and a model whose weight list
    is consistent with it, loading the serialized model succeeds and yields
    a model with the declared layers (each hidden layer with its size and
    the architecture's activation, then a linear output layer of the
    declared size) and exactly the weights of the serialized model: same
    values, shapes and dtypes. *)
Theorem C9_serialize_load_roundtrip arch (m : list DenseLayer') :
  hiddenLayers arch ≠ [] →
  Forall (λ u, 0 < u) (hiddenLayers arch ++ [outputSize arch]) →
  knownActivation (activation arch) = true →
  consistent arch (getWeights m) →
  ∃ m' : list DenseLayer',
    load' (serialize' m arch) = Js.Returned m'
    ∧ getWeights m' = getWeights m
    ∧ map layerSpec m' = declaredLayers arch
    ∧ List.last (map layerSpec m') (0, "", "") = (outputSize arch, "linear", "output_layer").
Proof using convert_toNumber linear_known.
  intros Hne Hpos Hact [Hshapes Hwf].
  destruct (hiddenLayers arch) as [|h0 rest] eqn:Hh; [done|].
  apply Forall_app in Hpos as [Hpos Hout].
  apply Forall_cons in Hpos as [Hh0 Hrest].
  rewrite Forall_singleton in Hout.
  destruct (dense_returned (inputSize arch) h0 (activation arch) "input_layer" Hh0 Hact)
    as (first & Hfirst & Hfspec & Hfshape & Hfdt).
  destruct (addHidden_returned h0 1 rest (activation arch) Hrest Hact)
    as (hidden & Hhidden & Hhspec & Hhshape & Hhdt).
  destruct (dense_returned (lastDim h0 rest) (outputSize arch) "linear" "output_layer"
              Hout linear_known)
    as (output & Houtput & Hospec & Hoshape & Hodt).
  assert (units first = h0) as Hu by (by injection Hfspec).
  set (m0 := first :: hidden ++ [output]).
  assert (getWeights m0 = [kernel first; bias first] ++ getWeights hidden
                          ++ [kernel output; bias output]) as Hgw.
  { unfold m0. change (getWeights (first :: hidden ++ [output]))
      with ([kernel first; bias first] ++ getWeights (hidden ++ [output])).
    by rewrite getWeights_app. }
  assert (map t_shape (getWeights m0) = map t_shape (getWeights m)) as Hsh.
  { rewrite Hshapes, Hgw, !map_app, Hfshape, Hhshape, Hoshape.
    change ((h0 :: rest) ++ [outputSize arch]) with (h0 :: (rest ++ [outputSize arch])).
    cbn [chainShapes]. by rewrite chainShapes_snoc. }
  assert (Forall (λ w : Tensor', t_dtype w = "float32") (getWeights m0)) as Hdt0.
  { rewrite Hgw, !Forall_app. done. }
  assert (Forall (λ w : Tensor', t_dtype w = "float32") (getWeights m)) as Hdt.
  { eapply Forall_impl; [exact Hwf|]. by intros w [? _]. }
  destruct (setWeights_returned m0 (getWeights m) Hsh Hdt0 Hdt) as (m' & Hset & Hw & Hspecs).
  assert (map layerSpec m' = declaredLayers arch) as Hdecl.
  { rewrite Hspecs. unfold declaredLayers, m0. rewrite Hh.
    cbn [map]. by rewrite map_app, Hfspec, Hhspec, <- Hospec. }
  exists m'. split; [|split; [done|split; [done|]]].
  - unfold loadNetworkFromSerialized, serializeNetwork. cbn [architecture weights].
    rewrite Hh. cbn [head tail]. rewrite Hfirst, Hu, Hhidden, Houtput.
    rewrite length_map.
    assert (0 < length (getWeights m)) as Hpos'.
    { rewrite <- (length_map t_shape), Hshapes. simpl. lia. }
    rewrite (proj2 (Nat.ltb_lt _ _) Hpos').
    by rewrite (toTensors_serialized _ Hwf).
  - rewrite Hdecl. unfold declaredLayers. rewrite Hh.
    change ((h0, activation arch, "input_layer")
            :: hiddenSpecs 1 rest (activation arch)
            ++ [(outputSize arch, "linear", "output_layer")])
      with (((h0, activation arch, "input_layer") :: hiddenSpecs 1 rest (activation arch))
            ++ [(outputSize arch, "linear", "output_layer")]).
    apply List.last_last.
Qed.

End TfProps.

Lemma C9_serialize_load_roundtrip_witness :
  ∃ m',
    loadNetworkFromSerialized (λ _ x, x) sampleKnown sampleInitial
      (serializeNetwork (λ x, x) sampleModel sampleArchitecture) = Js.Returned m'
    ∧ getWeights m' = getWeights sampleModel
    ∧ map layerSpec m' = [(2, "relu", "input_layer"); (1, "linear", "output_layer")].
Proof.
  destruct (C9_serialize_load_roundtrip (λ x : Z, x) (λ _ x, x) sampleKnown sampleInitial
              (λ _, eq_refl) eq_refl sampleArchitecture sampleModel)
    as (m' & Hload & Hw & Hspec & _).
  - discriminate.
  - repeat constructor.
  - reflexivity.
  - split; [reflexivity | repeat constructor].
  - exists m'. split; [exact Hload|]. split; [exact Hw | exact Hspec].
Defined.

End NetworkUtilsProps.

Module PPOTrainerProps.
Import PPOTrainer.

Local Open Scope Q_scope.

(** Replacing [λ] and the next advantage by equal rationals. *)
Lemma advantage_step_comp (δ γ lam lam' m a a' : Q) :
  lam == lam' → a == a' → δ + γ * lam * m * a == δ + γ * lam' * m * a'.
Proof.
  intros Hlam Ha.
  apply Qplus_comp; [reflexivity|].
  apply Qmult_comp; [|exact Ha].
  apply Qmult_comp; [|reflexivity].
  apply Qmult_comp; [reflexivity | exact Hlam].
Qed.

(** With [λ = 0] the recursion stops at the residual. *)
Lemma advantages_lambda_zero γ lam vAfter aAfter traj :
  lam == 0 →
  Forall2 Qeq (advantages γ lam vAfter aAfter traj) (tdResiduals γ vAfter traj).
Proof.
  intros Hlam. induction traj as [|tr rest IH]; simpl; constructor; [|exact IH].
  etransitivity; [apply advantage_step_comp; [exact Hlam | reflexivity]|]. ring.
Qed.

(** With [λ = 1] the residuals telescope: the first advantage is the
    return from the first step minus its baseline, given that the same
    holds one step later. *)
Lemma advantage_telescopes γ lam vAfter tr rest aNext gNext :
  lam == 1 →
  (rest = [] → done tr = true) →
  (rest ≠ [] → aNext == gNext - nextValue vAfter rest) →
  tdResidual γ tr (nextValue vAfter rest) + γ * lam * notDone (done tr) * aNext
  == reward tr + γ * notDone (done tr) * gNext - value tr.
Proof.
  intros Hlam Hlast Hnext. destruct rest as [|next rest'].
  - etransitivity; [apply advantage_step_comp; [exact Hlam | reflexivity]|].
    unfold tdResidual. rewrite (Hlast eq_refl). simpl. ring.
  - etransitivity;
      [apply advantage_step_comp; [exact Hlam | apply Hnext; discriminate]|].
    unfold tdResidual. simpl. ring.
Qed.

Lemma advantages_lambda_one γ lam vAfter traj :
  lam == 1 →
  endsDone traj →
  Forall2 Qeq (advantages γ lam vAfter 0 traj)
    (minusBaseline (monteCarloReturns γ traj) traj).
Proof.
  intros Hlam. induction traj as [|tr rest IH]; intros Hend; [constructor|].
  assert (rest ≠ [] → endsDone rest) as Hrest.
  { intros Hne. unfold endsDone in *. destruct rest; [done|]. exact Hend. }
  cbn [advantages monteCarloReturns minusBaseline].
  constructor.
  - apply advantage_telescopes; [done| |].
    + intros ->. exact Hend.
    + intros Hne. specialize (IH (Hrest Hne)).
      destruct rest as [|next rest']; [done|].
      cbn [advantages monteCarloReturns minusBaseline] in IH.
      inversion IH as [|? ? ? ? Hhead _]; subst. exact Hhead.
  - destruct rest as [|next rest']; [constructor|].
    apply IH, Hrest. discriminate.
Qed.

(** C4: for every trajectory, discount and continuation values, the GAE
    recursion gives, when [λ = 0], exactly the one-step TD residual [δ_t]
    at every step, whatever stands after the last step; and when [λ = 1]
    and the episode is not truncated (it ends in a [done] step and nothing
    is bootstrapped after it), exactly the discounted Monte-Carlo return
    from [t] minus the baseline [V(s_t)] at every step. *)
Theorem C4_gae_lambda_zero_and_one γ lam (t : Trajectory) :
  (lam == 0 →
     Forall2 Qeq (gae γ lam t) (tdResiduals γ (valueAfter t) (steps t)))
  ∧ (lam == 1 → ending t = Terminated → endsDone (steps t) →
       Forall2 Qeq (gae γ lam t)
         (minusBaseline (monteCarloReturns γ (steps t)) (steps t))).
Proof.
  unfold gae. split.
  - apply advantages_lambda_zero.
  - intros Hlam -> Hend. simpl. by apply advantages_lambda_one.
Qed.

Lemma C4_gae_lambda_zero_and_one_witness :
  Forall2 Qeq (gae (1 # 2) 0 sampleTrajectory)
    (tdResiduals (1 # 2) (valueAfter sampleTrajectory) (steps sampleTrajectory))
  ∧ Forall2 Qeq (gae (1 # 2) 1 sampleTrajectory)
      (minusBaseline (monteCarloReturns (1 # 2) (steps sampleTrajectory))
         (steps sampleTrajectory))
  ∧ Forall2 Qeq (gae (1 # 2) 1 sampleTrajectory) [3 # 2; 7 # 4].
Proof.
  split; [|split].
  - apply (proj1 (C4_gae_lambda_zero_and_one (1 # 2) 0 sampleTrajectory)).
    reflexivity.
  - apply (proj2 (C4_gae_lambda_zero_and_one (1 # 2) 1 sampleTrajectory));
      reflexivity.
  - repeat constructor.
Defined.

(** *** The training call *)

Lemma decorate_empty h t : steps t = [] → decorate h t = [].
Proof. intros H. unfold decorate. by rewrite H. Qed.

Lemma pool_empty h (trajectories : list Trajectory) :
  Forall (λ t, steps t = []) trajectories →
  flat_map (decorate h) trajectories = [].
Proof.
  induction 1 as [|t ts Ht _ IH]; [done|].
  simpl. by rewrite (decorate_empty h t Ht), IH.
Qed.

Section TrainProps.

Context {Params : Type}.
Variable normalize : list Sample → list Sample.
Variable shuffle : nat → list Sample → list Sample.
Variable gradientStep : Params → list Sample → Params * Diagnostics.

(** Without transitions there is no mini-batch, hence no gradient step. *)
Lemma optimize_empty h (agent : Params) :
  optimize shuffle gradientStep h [] agent = (agent, []).
Proof.
  unfold optimize. simpl.
  induction (seq 0 (epochs h)) as [|e es IH]; [done|]. simpl. exact IH.
Qed.

(** C5: when the pool holds no transition (no trajectory was collected, or
    every collected trajectory is empty), [train] returns, without raising,
    the diagnostics with all five fields zero and the agent's parameters as
    they were. *)
Theorem C5_train_empty_pool h (trajectories : list Trajectory) (agent : Params) :
  Forall (λ t, steps t = []) trajectories →
  train normalize shuffle gradientStep h trajectories agent
  = Js.Returned (zeroDiagnostics, agent)
  ∧ policyLoss zeroDiagnostics = 0 ∧ valueLoss zeroDiagnostics = 0
  ∧ entropy zeroDiagnostics = 0 ∧ klDivergence zeroDiagnostics = 0
  ∧ clipFraction zeroDiagnostics = 0
  ∧ optimize shuffle gradientStep h [] agent = (agent, []).
Proof.
  intros Hempty. unfold train. rewrite (pool_empty h trajectories Hempty).
  repeat split. apply optimize_empty.
Qed.

End TrainProps.

Lemma C5_train_empty_pool_witness :
  train (λ l, l) (λ _ l, l) countingStep sampleHyper [] 0%nat
    = Js.Returned (zeroDiagnostics, 0%nat)
  ∧ train (λ l, l) (λ _ l, l) countingStep sampleHyper [emptyTrajectory; emptyTrajectory] 7%nat
    = Js.Returned (zeroDiagnostics, 7%nat).
Proof.
  split.
  - apply (C5_train_empty_pool (λ l, l) (λ _ l, l) countingStep sampleHyper [] 0%nat).
    constructor.
  - apply (C5_train_empty_pool (λ l, l) (λ _ l, l) countingStep sampleHyper
             [emptyTrajectory; emptyTrajectory] 7%nat).
    repeat constructor.
Defined.

End PPOTrainerProps.

(* ===================================================================== *)
(** * Part III: further properties of the code                            *)
(* ===================================================================== *)

Module DemonstrationCollectorMore.
Import DemonstrationCollector.

Lemma notRecording_recording c ep :
  isRecording c = true → currentEpisode c = Some ep → notRecording c = false.
Proof. intros Hr Hc. unfold notRecording. by rewrite Hr, Hc. Qed.

(** X1: a [recordStep] call made while recording never loses or reorders a
    step: the steps held by the collector (buffered episodes, then the
    running one) are those held before followed by the new step, whether or
    not the call flushed the running episode to the buffer. *)
Theorem X1_recordStep_keeps_every_step c ep obs act md :
  isRecording c = true →
  currentEpisode c = Some ep →
  ∃ st, observation st = obs ∧ action st = act
        ∧ allSteps (recordStep c obs act md) = allSteps c ++ [st].
Proof.
  intros Hr Hc. unfold recordStep.
  rewrite (notRecording_recording c ep Hr Hc), Hc.
  exists {| observation := obs; action := act;
            step_metadata :=
              Js.spread md ∪ {[ "stepIndex" := Js.of_nat (length (steps ep)) ]} |}.
  split; [reflexivity|]. split; [reflexivity|].
  assert (allSteps c = flat_map steps (episodeBuffer c) ++ steps ep) as ->
    by (unfold allSteps, currentSteps; by rewrite Hc).
  destruct (_ <=? _)%Z.
  - unfold flushCurrentEpisode; simpl. rewrite length_app; simpl.
    rewrite (proj2 (Nat.ltb_lt _ _)) by lia.
    unfold allSteps, currentSteps; simpl.
    rewrite flat_map_app; simpl. by rewrite !app_nil_r, app_assoc.
  - unfold allSteps, currentSteps; simpl. by rewrite app_assoc.
Qed.

Lemma X1_recordStep_keeps_every_step_witness :
  let c0 := startEpisode (constructor None (Some 2%Z)) "e" None 0%Q Js.Undefined in
  let c1 := recordStep c0 [1%Q] [0%Q] None in
  length (allSteps (recordStep c1 [2%Q] [1%Q] None)) = 2%nat
  ∧ length (episodeBuffer (recordStep c1 [2%Q] [1%Q] None)) = 1%nat.
Proof.
  intros c0 c1. split; [|reflexivity].
  destruct (X1_recordStep_keeps_every_step c1 _ [2%Q] [1%Q] None eq_refl eq_refl)
    as (st & _ & _ & H).
  by rewrite H.
Defined.

(** X2: with a flush threshold of at least one step, [recordStep] keeps the
    running episode below the threshold; when it moves the running episode
    to the buffer, that episode holds exactly [maxBufferSize] steps and the
    episode that continues under the same id starts empty. *)
Theorem X2_recordStep_flushes_at_threshold c ep obs act md :
  (1 ≤ maxBufferSize c)%Z →
  isRecording c = true →
  currentEpisode c = Some ep →
  belowThreshold c →
  let c' := recordStep c obs act md in
  belowThreshold c'
  ∧ maxBufferSize c' = maxBufferSize c
  ∧ isRecording c' = true
  ∧ (episodeBuffer c' = episodeBuffer c
     ∨ ∃ full, episodeBuffer c' = episodeBuffer c ++ [full]
               ∧ Z.of_nat (length (steps full)) = maxBufferSize c
               ∧ id full = id ep
               ∧ currentEpisode c'
                 = Some {| id := id ep; steps := []; metadata := metadata ep |}).
Proof.
  intros Hmax Hr Hc Hb. unfold belowThreshold, currentSteps in Hb. rewrite Hc in Hb.
  unfold recordStep. rewrite (notRecording_recording c ep Hr Hc), Hc. cbn zeta.
  destruct (_ <=? _)%Z eqn:E.
  - apply Z.leb_le in E. cbn [steps] in E. rewrite length_app in E. simpl in E.
    unfold flushCurrentEpisode; cbn [currentEpisode steps].
    rewrite length_app; simpl. rewrite (proj2 (Nat.ltb_lt _ _)) by lia.
    unfold belowThreshold, currentSteps; simpl.
    split; [lia|]. split; [done|]. split; [done|]. right.
    eexists. split; [reflexivity|]. simpl. rewrite length_app; simpl.
    split; [lia | done].
  - apply Z.leb_gt in E. unfold belowThreshold, currentSteps; simpl.
    split; [done|]. split; [done|]. split; [done|]. by left.
Qed.

Lemma X2_recordStep_flushes_at_threshold_witness :
  let c0 := startEpisode (constructor None (Some 2%Z)) "e" None 0%Q Js.Undefined in
  let c1 := recordStep c0 [1%Q] [0%Q] None in
  belowThreshold (recordStep c1 [2%Q] [1%Q] None)
  ∧ currentSteps (recordStep c1 [2%Q] [1%Q] None) = [].
Proof.
  intros c0 c1. split; [|reflexivity].
  edestruct (X2_recordStep_flushes_at_threshold c1) as (H & _);
    [| reflexivity | reflexivity | | exact H].
  - done.
  - unfold belowThreshold. simpl. lia.
Defined.

Lemma endEpisode_recording c ep emd dur :
  isRecording c = true →
  currentEpisode c = Some ep →
  ∃ episode,
    endEpisode c emd dur
    = ({| autoRecord := autoRecord c; maxBufferSize := maxBufferSize c;
          currentEpisode := None; episodeBuffer := episodeBuffer c ++ [episode];
          isRecording := false |}, Some episode)
    ∧ id episode = id ep
    ∧ steps episode = steps ep
    ∧ metadata episode
      = {[ "duration" := dur ]} ∪ (Js.spread emd ∪ metadata ep).
Proof.
  intros Hr Hc. unfold endEpisode. rewrite (notRecording_recording c ep Hr Hc), Hc.
  by eexists.
Qed.

(** X3: [endEpisode] called while recording returns the running episode
    with all its steps, appends exactly that episode to the buffer and stops
    recording.  In the returned metadata [duration] is the measured one even
    when the caller's metadata has a [duration] of its own, while any other
    key of the caller's metadata wins over the episode's. *)
Theorem X3_endEpisode_closes_episode c ep emd dur :
  isRecording c = true →
  currentEpisode c = Some ep →
  ∃ episode,
    endEpisode c emd dur
    = ({| autoRecord := autoRecord c; maxBufferSize := maxBufferSize c;
          currentEpisode := None; episodeBuffer := episodeBuffer c ++ [episode];
          isRecording := false |}, Some episode)
    ∧ id episode = id ep
    ∧ steps episode = steps ep
    ∧ metadata episode !! "duration" = Some dur
    ∧ (∀ k v, k ≠ "duration" → Js.spread emd !! k = Some v →
         metadata episode !! k = Some v)
    ∧ (∀ k, k ≠ "duration" → Js.spread emd !! k = None →
         metadata episode !! k = metadata ep !! k).
Proof.
  intros Hr Hc.
  destruct (endEpisode_recording c ep emd dur Hr Hc) as (episode & He & Hid & Hs & Hm).
  exists episode. split; [done|]. split; [done|]. split; [done|]. rewrite Hm.
  split; [|split].
  - apply lookup_union_Some_l, lookup_singleton_eq.
  - intros k v Hk Hv. rewrite lookup_union_r by (by apply lookup_singleton_ne).
    by apply lookup_union_Some_l.
  - intros k Hk Hv. rewrite lookup_union_r by (by apply lookup_singleton_ne).
    by rewrite lookup_union_r.
Qed.

Lemma X3_endEpisode_closes_episode_witness :
  let c0 := startEpisode (constructor None None) "e" None 5%Q Js.Undefined in
  let c1 := recordStep c0 [1%Q] [0%Q] None in
  ∃ episode,
    (endEpisode c1 (Some {[ "duration" := Js.Number 1; "outcome" := Js.Str "win" ]})
       (Js.Number 40)).2 = Some episode
    ∧ length (steps episode) = 1%nat
    ∧ metadata episode !! "duration" = Some (Js.Number 40)
    ∧ metadata episode !! "outcome" = Some (Js.Str "win").
Proof.
  intros c0 c1.
  destruct (X3_endEpisode_closes_episode c1 _
              (Some {[ "duration" := Js.Number 1; "outcome" := Js.Str "win" ]})
              (Js.Number 40) eq_refl eq_refl)
    as (episode & Hend & _ & Hsteps & Hdur & Hcaller & _).
  exists episode. rewrite Hend. split; [done|]. split; [by rewrite Hsteps|].
  split; [exact Hdur|]. apply Hcaller; [done | reflexivity].
Defined.

(** X4: [startEpisode] never drops a running episode: when the collector is
    recording, the running episode is first ended and appended to the
    buffer with all its steps; in every case the collector is then
    recording a new episode with the given id and no steps, whose
    [timestamp] is the start time unless the caller's metadata has one. *)
Theorem X4_startEpisode_saves_running_episode c episodeId md ts dur :
  let c' := startEpisode c episodeId md ts dur in
  isRecording c' = true
  ∧ (∃ ep', currentEpisode c' = Some ep' ∧ id ep' = episodeId ∧ steps ep' = []
            ∧ (Js.spread md !! "timestamp" = None →
                 metadata ep' !! "timestamp" = Some (Js.Number ts)))
  ∧ (∀ ep, isRecording c = true → currentEpisode c = Some ep →
       ∃ saved, episodeBuffer c' = episodeBuffer c ++ [saved]
                ∧ id saved = id ep ∧ steps saved = steps ep)
  ∧ (isRecording c = false → episodeBuffer c' = episodeBuffer c).
Proof.
  unfold startEpisode. cbn zeta. split; [done|]. split; [|split].
  - eexists. split; [reflexivity|]. simpl. split; [done|]. split; [done|].
    intros H. rewrite lookup_union_r by done. apply lookup_singleton_eq.
  - intros ep Hr Hc. rewrite Hr. cbn [episodeBuffer].
    destruct (endEpisode_recording c ep None dur Hr Hc)
      as (saved & -> & Hid & Hsteps & _).
    by exists saved.
  - by intros ->.
Qed.

Lemma X4_startEpisode_saves_running_episode_witness :
  let c0 := startEpisode (constructor None None) "first" None 0%Q Js.Undefined in
  let c1 := recordStep c0 [1%Q] [0%Q] None in
  let c2 := startEpisode c1 "second" None 9%Q (Js.Number 9) in
  ∃ saved, episodeBuffer c2 = [saved] ∧ id saved = "first"
           ∧ length (steps saved) = 1%nat.
Proof.
  intros c0 c1 c2.
  destruct (X4_startEpisode_saves_running_episode c1 "second" None 9%Q (Js.Number 9))
    as (_ & _ & H & _).
  destruct (H _ eq_refl eq_refl) as (saved & Hbuf & Hid & Hsteps).
  exists saved. split; [exact Hbuf|]. split; [exact Hid | by rewrite Hsteps].
Defined.

(** X5: [discardEpisode] throws the running episode away without touching
    the buffer, and the collector then ignores steps until the next
    [startEpisode]; [clearEpisodes] empties the buffer without interrupting
    the recording, so the episode ended afterwards is the only buffered
    one. *)
Theorem X5_discard_and_clear c obs act md emd dur :
  (let d := discardEpisode c in
   getEpisodes d = getEpisodes c
   ∧ getRecording d = false
   ∧ recordStep d obs act md = d
   ∧ endEpisode d emd dur = (d, None))
  ∧ (let e := clearEpisodes c in
     getEpisodes e = []
     ∧ getRecording e = getRecording c
     ∧ currentEpisode e = currentEpisode c
     ∧ (∀ ep, isRecording c = true → currentEpisode c = Some ep →
          ∃ episode, (endEpisode e emd dur).2 = Some episode
                     ∧ steps episode = steps ep
                     ∧ getEpisodes (endEpisode e emd dur).1 = [episode])).
Proof.
  split.
  - cbn zeta. by repeat split.
  - cbn zeta. split; [done|]. split; [done|]. split; [done|].
    intros ep Hr Hc.
    destruct (endEpisode_recording (clearEpisodes c) ep emd dur Hr Hc)
      as (episode & -> & _ & Hsteps & _).
    by exists episode.
Qed.

Lemma X5_discard_and_clear_witness :
  let c0 := startEpisode (constructor None None) "e" None 0%Q Js.Undefined in
  let c1 := recordStep c0 [1%Q] [0%Q] None in
  allSteps (discardEpisode c1) = []
  ∧ ∃ episode, getEpisodes (endEpisode (clearEpisodes c1) None Js.Undefined).1 = [episode].
Proof.
  intros c0 c1. split; [reflexivity|].
  destruct (proj2 (X5_discard_and_clear c1 [] [] None None Js.Undefined))
    as (_ & _ & _ & H).
  destruct (H _ eq_refl eq_refl) as (episode & _ & _ & Hbuf).
  by exists episode.
Defined.

End DemonstrationCollectorMore.

Module DemonstrationStorageMore.
Import DemonstrationStorage.

Lemma ownKey_nonempty this key : ownKey this key = true → key ≠ "".
Proof.
  unfold ownKey. intros H ->.
  destruct (storageKey this +:+ "_") eqn:E; [|done].
  by destruct (storageKey this).
Qed.

Lemma ownKey_app this rest : ownKey this (storageKey this +:+ "_" +:+ rest) = true.
Proof.
  unfold ownKey. induction (storageKey this) as [|a sk IH]; simpl.
  - by destruct rest.
  - by destruct (Ascii.ascii_dec a a).
Qed.

Lemma foldl_collect (P : string → bool) (l acc : list string) :
  (∀ k, P k = true → k ≠ "") →
  foldl (λ keys key, if String.eqb key "" then keys
                     else if P key then keys ++ [key] else keys) acc l
  = acc ++ filter (λ k, P k = true) l.
Proof.
  intros HP. revert acc. induction l as [|k l IH]; intros acc; simpl.
  - by rewrite app_nil_r.
  - rewrite IH. destruct (String.eqb_spec k "") as [->|Hne].
    + rewrite filter_cons_False; [done|]. intros H. by apply HP in H.
    + destruct (P k) eqn:E.
      * rewrite filter_cons_True by done. by rewrite <- app_assoc.
      * rewrite filter_cons_False; [done|]. congruence.
Qed.

Lemma foldl_total this (ls : gmap string string) (l : list (string * string)) acc :
  (∀ k v, (k, v) ∈ l → ls !! k = Some v) →
  foldl (λ total key,
           if String.eqb key "" then total
           else if ownKey this key
                then match ls !! key with
                     | Some v => if String.eqb v "" then total
                                 else total + String.length v
                     | None => total
                     end
                else total) acc l.*1
  = acc + sum_list_with (entrySize this) l.
Proof.
  revert acc. induction l as [|[k v] l IH]; intros acc Hl; simpl; [lia|].
  rewrite IH by (intros; apply Hl; by right).
  unfold entrySize at 2. simpl.
  destruct (ownKey this k) eqn:E.
  - rewrite (proj2 (String.eqb_neq _ _) (ownKey_nonempty this k E)).
    rewrite (Hl k v) by by left.
    destruct (String.eqb_spec v "") as [->|]; simpl; lia.
  - destruct (String.eqb k ""); lia.
Qed.

Section OperationsMore.

Context {Dataset : Type}.
Variable stringify : Dataset → string.
Variable parse : string → option Dataset.


(** X7: in a browser, [loadDataset] on a key that is not stored, or whose
    stored text is empty, throws "Dataset not found" and changes nothing;
    after [deleteDataset] the key is in that state, and every other entry
    is as before. *)
Theorem X7_load_missing_dataset this w (ls : gmap string string) key :
  isBrowser this = true →
  let amb := {| hasWindow := w; localStorage := Some ls |} in
  (ls !! key = None ∨ ls !! key = Some "" →
     (loadDataset parse this key amb).1.2 = Js.Thrown (DatasetNotFound key)
     ∧ (loadDataset parse this key amb).2 = amb)
  ∧ (let deleted := deleteDataset this key amb in
     deleted.1.2 = Js.Returned tt
     ∧ deleted.2 = {| hasWindow := w; localStorage := Some (delete key ls) |}
     ∧ (loadDataset parse this key deleted.2).1.2 = Js.Thrown (DatasetNotFound key)).
Proof using Type.
  intros Hb amb. split.
  - intros H. unfold loadDataset. rewrite Hb.
    unfold bind, getItem, storageCall. cbn. by destruct H as [-> | ->].
  - unfold deleteDataset, loadDataset. rewrite Hb.
    unfold removeItem, bind, getItem, storageCall. cbn.
    by rewrite lookup_delete_eq.
Qed.


(** In a browser the size is the sum of the lengths of the store's own
    entries. *)
Lemma getStorageSize_sum this w (ls : gmap string string) :
  isBrowser this = true →
  ∃ evs,
    getStorageSize this {| hasWindow := w; localStorage := Some ls |}
    = (evs, Js.Returned (sum_list_with (entrySize this) (map_to_list ls)),
       {| hasWindow := w; localStorage := Some ls |}).
Proof using Type.
  intros Hb. unfold getStorageSize. rewrite Hb. unfold keyCount. cbn [localStorage].
  destruct (DemonstrationStorageProps.forEachKey_reads
              (λ key total,
                 if ownKey this key
                 then match ls !! key with
                      | Some v => if String.eqb v "" then total
                                  else total + String.length v
                      | None => total
                      end
                 else total)
              (λ key total,
                 if String.prefix (storageKey this +:+ "_") key then
                   bind (getItem key)
                     (λ value,
                        match value with
                        | Some v => if String.eqb v "" then ret total
                                    else ret (total + String.length v)
                        | None => ret total
                        end)
                 else ret total)
              w ls (length (map_to_list ls)) 0 0) as [evs Hevs].
  - intros key a. unfold ownKey. destruct (String.prefix _ key); [|by eexists].
    unfold bind, getItem, storageCall. cbn.
    destruct (ls !! key) as [v|]; [|by eexists].
    destruct (String.eqb v ""); by eexists.
  - by rewrite length_fmap.
  - exists evs. rewrite Hevs. do 2 f_equal. rewrite drop_0.
    rewrite (foldl_total this ls); [done|].
    intros k v. apply elem_of_map_to_list.
Qed.

(** X10: in a browser, [getStorageSize] is the total length of the values
    stored under the store's own keys and reads without writing; saving a
    data set under a key not stored before raises it by exactly the length
    of the data set's JSON text.  Outside a browser it is 0. *)
Theorem X10_getStorageSize_counts_own_entries this w (ls : gmap string string) :
  let amb := {| hasWindow := w; localStorage := Some ls |} in
  (isBrowser this = true →
     (getStorageSize this amb).1.2
       = Js.Returned (sum_list_with (entrySize this) (map_to_list ls))
     ∧ (getStorageSize this amb).2 = amb
     ∧ ∀ d filename timestamp key,
         (saveDataset stringify this d filename timestamp amb).1.2 = Js.Returned key →
         ls !! key = None →
         (getStorageSize this (saveDataset stringify this d filename timestamp amb).2).1.2
         = Js.Returned (sum_list_with (entrySize this) (map_to_list ls)
                        + String.length (stringify d)))
  ∧ (isBrowser this = false → (getStorageSize this amb).1.2 = Js.Returned 0).
Proof using Type.
  intros amb. split.
  - intros Hb. destruct (getStorageSize_sum this w ls Hb) as [evs Hevs].
    fold amb in Hevs. rewrite Hevs. split; [done|]. split; [done|].
    intros d filename timestamp key. unfold saveDataset. rewrite Hb.
    unfold bind, setItem, storageCall, ret. cbn. intros [= <-] Hfresh.
    set (key := storageKey this +:+ "_" +:+ _) in *.
    destruct (getStorageSize_sum this w (<[key := stringify d]> ls) Hb) as [evs' ->].
    assert (entrySize this (key, stringify d) = String.length (stringify d)) as Hsize.
    { unfold entrySize, key. cbn [fst snd]. by rewrite ownKey_app. }
    cbn [fst snd]. f_equal. rewrite map_to_list_insert by done.
    cbn [sum_list_with]. rewrite Hsize. lia.
  - intros Hb. unfold getStorageSize. by rewrite Hb.
Qed.

End OperationsMore.


Lemma X7_load_missing_dataset_witness :
  (loadDataset Some (constructor None None browser).2 "nowhere" browser).1.2
  = Js.Thrown (DatasetNotFound "nowhere").
Proof.
  apply (proj1 (X7_load_missing_dataset (@Some string) (constructor None None browser).2
                  true {[ "mimicrl_demonstrations_a.json" := "{}" ]} "nowhere" eq_refl)).
  left. reflexivity.
Defined.


Lemma X10_getStorageSize_counts_own_entries_witness :
  (getStorageSize (constructor None None browser).2 browser).1.2 = Js.Returned 2
  ∧ (getStorageSize (constructor None None noStorage).2 browser).1.2 = Js.Returned 0.
Proof.
  split.
  - destruct (proj1 (X10_getStorageSize_counts_own_entries (λ d : string, d)
                       (constructor None None browser).2 true
                       {[ "mimicrl_demonstrations_a.json" := "{}" ]}) eq_refl)
      as (H & _).
    etransitivity; [exact H|]. by vm_compute.
  - exact (proj2 (X10_getStorageSize_counts_own_entries (λ d : string, d)
                    (constructor None None noStorage).2 true
                    {[ "mimicrl_demonstrations_a.json" := "{}" ]}) eq_refl).
Defined.

(** X9: the [totalSteps] that [createDataset] records is the number of
    steps in all the episodes given; for the episodes a collector returns
    after its running episode was ended, that is every step the collector
    held. *)
Theorem X9_createDataset_counts_steps episodes info t1 t2 :
  Demonstration.totalSteps (Demonstration.metadata (createDataset episodes info t1 t2))
  = length (flat_map DemonstrationCollector.steps episodes)
  ∧ Demonstration.episodes (createDataset episodes info t1 t2) = episodes
  ∧ ∀ c ep emd dur,
      DemonstrationCollector.isRecording c = true →
      DemonstrationCollector.currentEpisode c = Some ep →
      Demonstration.totalSteps
        (Demonstration.metadata
           (createDataset
              (DemonstrationCollector.getEpisodes
                 (DemonstrationCollector.endEpisode c emd dur).1) info t1 t2))
      = length (DemonstrationCollector.allSteps c).
Proof.
  assert (∀ eps acc,
            foldl (λ sum ep, sum + length (DemonstrationCollector.steps ep)) acc eps
            = acc + length (flat_map DemonstrationCollector.steps eps)) as Hsum.
  { induction eps as [|ep eps IH]; intros acc; simpl; [lia|].
    rewrite IH, length_app. lia. }
  split; [|split; [done|]].
  - unfold createDataset; simpl. by rewrite Hsum.
  - intros c ep emd dur Hr Hc. unfold createDataset; simpl. rewrite Hsum.
    destruct (DemonstrationCollectorMore.endEpisode_recording c ep emd dur Hr Hc)
      as (episode & -> & _ & Hsteps & _).
    unfold DemonstrationCollector.getEpisodes, DemonstrationCollector.allSteps,
      DemonstrationCollector.currentSteps. simpl.
    rewrite Hc, flat_map_app, !length_app. simpl. rewrite Hsteps, app_nil_r. lia.
Qed.

Lemma X9_createDataset_counts_steps_witness :
  let c0 := DemonstrationCollector.startEpisode
              (DemonstrationCollector.constructor None (Some 2%Z)) "e" None 0%Q Js.Undefined in
  let c1 := DemonstrationCollector.recordStep c0 [1%Q] [0%Q] None in
  let c2 := DemonstrationCollector.recordStep c1 [2%Q] [1%Q] None in
  let c3 := DemonstrationCollector.recordStep c2 [3%Q] [1%Q] None in
  Demonstration.totalSteps
    (Demonstration.metadata
       (createDataset
          (DemonstrationCollector.getEpisodes
             (DemonstrationCollector.endEpisode c3 None Js.Undefined).1) None 0%Q 0%Q))
  = 3.
Proof.
  intros c0 c1 c2 c3.
  rewrite (proj2 (proj2 (X9_createDataset_counts_steps [] None 0%Q 0%Q))
             c3 _ None Js.Undefined eq_refl eq_refl).
  reflexivity.
Defined.

End DemonstrationStorageMore.

Module BehaviorCloningTrainerMore.
Import BehaviorCloningTrainer.

(** *** Shuffling *)

Lemma delete_insert_same {A} (l : list A) k b : delete k (<[k := b]> l) = delete k l.
Proof. revert k. induction l as [|a l IH]; intros [|k]; simpl; f_equal; auto. Qed.

Lemma insert_Permutation {A} (l : list A) k a b :
  l !! k = Some a → <[k := b]> l ≡ₚ b :: delete k l.
Proof.
  intros Hk. rewrite <- (delete_insert_same l k b).
  apply delete_Permutation, list_lookup_insert_eq. by eapply lookup_lt_Some.
Qed.

Lemma swap_Permutation {A} i j (l : list A) : swap i j l ≡ₚ l.
Proof.
  unfold swap. destruct (l !! i) as [x|] eqn:Hi; [|done].
  destruct (l !! j) as [y|] eqn:Hj; [|done].
  assert ((<[j := x]> l) !! i = Some x) as Hi'.
  { destruct (decide (i = j)) as [->|Hne].
    - apply list_lookup_insert_eq. by eapply lookup_lt_Some.
    - by rewrite list_lookup_insert_ne. }
  transitivity (y :: delete i (<[j := x]> l)); [by eapply insert_Permutation|].
  transitivity (y :: delete j l); [|symmetry; by apply delete_Permutation].
  apply Permutation_cons; [done|].
  apply (Permutation_cons_inv (a := x)).
  transitivity (<[j := x]> l); [symmetry; by apply delete_Permutation|].
  by eapply insert_Permutation.
Qed.

Lemma randomIndex_bound r i : (0 <= r)%Q → (r < 1)%Q → randomIndex r i ≤ i.
Proof.
  intros H0 H1. unfold randomIndex.
  set (n := inject_Z (Z.of_nat (i + 1))).
  assert (0 < n)%Q as Hn.
  { unfold n. rewrite <- (Zlt_Qlt 0). lia. }
  assert (inject_Z (Qfloor (r * n)) < n)%Q as Hlt.
  { eapply Qle_lt_trans; [apply Qfloor_le|].
    eapply Qlt_le_trans; [apply (Qmult_lt_compat_r r 1 n Hn H1)|].
    rewrite Qmult_1_l. apply Qle_refl. }
  subst n. rewrite <- Zlt_Qlt in Hlt. lia.
Qed.

Lemma shuffleFrom_Permutation {A} random i (l : list A) : shuffleFrom random i l ≡ₚ l.
Proof.
  revert l. induction i as [|i IH]; intros l; [done|].
  simpl. rewrite IH. apply swap_Permutation.
Qed.

(** X11: [shuffleArray] rearranges: for every sequence of values drawn from
    [Math.random()] (each in [0, 1)), the array after the call is a
    permutation of the array before, of the same length, and the index
    drawn in the iteration with index [i] lies in [0 .. i]. *)
Theorem X11_shuffleArray_permutes {A} (random : nat → Q) (l : list A) :
  (∀ i, (0 <= random i)%Q ∧ (random i < 1)%Q) →
  shuffleArrayWith random l ≡ₚ l
  ∧ length (shuffleArrayWith random l) = length l
  ∧ ∀ i, randomIndex (random i) i ≤ i.
Proof.
  intros Hr.
  assert (shuffleArrayWith random l ≡ₚ l) as Hp by apply shuffleFrom_Permutation.
  split; [done|]. split; [by rewrite Hp|].
  intros i. by apply randomIndex_bound; apply Hr.
Qed.

Lemma X11_shuffleArray_permutes_witness :
  shuffleArrayWith (λ _, 1 # 2) [10; 20; 30; 40] ≡ₚ [10; 20; 30; 40]
  ∧ shuffleArrayWith (λ _, 1 # 2) [10; 20; 30; 40] = [10; 40; 20; 30].
Proof.
  split; [|reflexivity].
  apply (X11_shuffleArray_permutes (λ _, 1 # 2) [10; 20; 30; 40]).
  intros i. split; [discriminate | reflexivity].
Defined.

(** *** Mini-batches *)

Lemma numBatchesOf_covers total bs :
  total ≤ numBatchesOf total bs * Pos.to_nat bs
  ∧ (0 < total → (numBatchesOf total bs - 1) * Pos.to_nat bs < total).
Proof.
  unfold numBatchesOf. set (b := Pos.to_nat bs).
  assert (0 < b) as Hb by (unfold b; lia).
  pose proof (Nat.div_mod_eq (total + b - 1) b) as Hdm.
  pose proof (Nat.mod_upper_bound (total + b - 1) b ltac:(lia)) as Hmod.
  set (q := (total + b - 1) / b) in *. set (r := (total + b - 1) mod b) in *.
  split; [nia|]. intros Hpos. destruct q; nia.
Qed.

Lemma batches_prefix bs (indices : list nat) k :
  concat (map (batchIndices bs indices (length indices)) (seq 0 k))
  = take (k * Pos.to_nat bs) indices.
Proof.
  induction k as [|k IH]; [done|].
  rewrite seq_S, map_app, concat_app, IH. simpl. rewrite app_nil_r.
  unfold batchIndices. set (b := Pos.to_nat bs). set (total := length indices).
  rewrite take_take_drop.
  destruct (decide (k * b + b ≤ total)) as [Hle|Hgt].
  - f_equal. lia.
  - rewrite (take_ge indices (b + k * b)) by (fold total; lia).
    destruct (decide (k * b ≤ total)).
    + apply take_ge. fold total. lia.
    + apply take_ge. fold total. lia.
Qed.

(** X12: the mini-batches of an epoch partition the shuffled index array:
    taken in order they give back the array, so every sample index is used
    in exactly one mini-batch; every mini-batch is non-empty and has at
    most [batchSize] indices, and all but the last have exactly
    [batchSize]. *)
Theorem X12_batches_partition_indices bs (indices : list nat) :
  let total := length indices in
  let n := numBatchesOf total bs in
  concat (map (batchIndices bs indices total) (seq 0 n)) = indices
  ∧ (∀ i, i < n →
       0 < length (batchIndices bs indices total i) ≤ Pos.to_nat bs
       ∧ (S i < n → length (batchIndices bs indices total i) = Pos.to_nat bs))
  ∧ (total = 0 → n = 0).
Proof.
  intros total n.
  destruct (numBatchesOf_covers total bs) as [Hcover Hlast]. fold n in Hcover, Hlast.
  split; [|split].
  - rewrite batches_prefix. apply take_ge. fold total. lia.
  - intros i Hi. unfold batchIndices.
    rewrite length_take, length_drop. fold total.
    assert (0 < total) as Hpos by (destruct total; [|lia]; unfold n, numBatchesOf in Hi;
                                   rewrite Nat.div_small in Hi by lia; lia).
    specialize (Hlast Hpos).
    assert (i * Pos.to_nat bs < total) as Hstart by nia.
    split; [lia|]. intros HS.
    assert (S i * Pos.to_nat bs ≤ (n - 1) * Pos.to_nat bs) by (apply Nat.mul_le_mono_r; lia).
    lia.
  - intros H0. unfold n, numBatchesOf. rewrite H0. apply Nat.div_small. lia.
Qed.

Lemma X12_batches_partition_indices_witness :
  map (batchIndices 2 [4; 0; 3; 1; 2] 5) (seq 0 (numBatchesOf 5 2)) = [[4; 0]; [3; 1]; [2]]
  ∧ concat (map (batchIndices 2 [4; 0; 3; 1; 2] 5) (seq 0 (numBatchesOf 5 2)))
    = [4; 0; 3; 1; 2].
Proof.
  split; [reflexivity|].
  exact (proj1 (X12_batches_partition_indices 2 [4; 0; 3; 1; 2])).
Defined.

(** *** Validation of the data set *)

(** X13: [validateDataset] accepts a data set exactly when its
    [gameCoreInfo], if present, has the policy agent's two sizes and the
    first step of its first episode, if there is one, has an observation
    and an action of those sizes; no other step is looked at. *)
Theorem X13_validateDataset_checks_first_step dataset observationSize actionSize :
  validateDataset dataset observationSize actionSize = Js.Returned tt
  ↔ (∀ info, Demonstration.gameCoreInfo (Demonstration.metadata dataset) = Some info →
       Demonstration.observationSize info = observationSize
       ∧ Demonstration.actionSize info = actionSize)
    ∧ (∀ step, firstStep dataset = Some step →
         length (DemonstrationCollector.observation step) = observationSize
         ∧ length (DemonstrationCollector.action step) = actionSize).
Proof.
  unfold validateDataset.
  destruct (Demonstration.gameCoreInfo _) as [info|];
    [destruct (Nat.eqb_spec (Demonstration.observationSize info) observationSize);
     [destruct (Nat.eqb_spec (Demonstration.actionSize info) actionSize)|]|];
    simpl.
  1,4: destruct (firstStep dataset) as [step|];
    [destruct (Nat.eqb_spec (length (DemonstrationCollector.observation step)) observationSize);
     [destruct (Nat.eqb_spec (length (DemonstrationCollector.action step)) actionSize)|]|];
    simpl.
  all: split; [try done; intros _|intros [H1 H2]; try done].
  all: try (split; [by intros ? [= <-] | by intros ? [= <-]]).
  all: try (split; [by intros ? [= <-] | done]).
  all: try (split; [done | by intros ? [= <-]]).
  all: try (destruct (H2 _ eq_refl); done).
  all: try (destruct (H1 _ eq_refl); done).
Qed.

Lemma X13_validateDataset_checks_first_step_witness :
  let step n := {| DemonstrationCollector.observation := replicate n 0%Q;
                   DemonstrationCollector.action := [1%Q];
                   DemonstrationCollector.step_metadata := ∅ |} in
  let dataset :=
    {| Demonstration.episodes :=
         [ {| DemonstrationCollector.id := "e";
              DemonstrationCollector.steps := [step 2; step 5];
              DemonstrationCollector.metadata := ∅ |} ];
       Demonstration.metadata :=
         {| Demonstration.totalSteps := 2; Demonstration.createdAt := 0;
            Demonstration.updatedAt := 0; Demonstration.gameCoreInfo := None |} |} in
  validateDataset dataset 2 1 = Js.Returned tt.
Proof.
  intros step dataset.
  apply (proj2 (X13_validateDataset_checks_first_step dataset 2 1)).
  split; [discriminate|]. by intros ? [= <-].
Defined.

(** *** The training call *)

Lemma slice_returned x begin size m r m' :
  slice x begin size m = Js.Returned (r, m') →
  r = nextId m ∧ nextId m' = S (nextId m)
  ∧ live m' = {[nextId m]} ∪ live m
  ∧ (wfMemory m → wfMemory m').
Proof.
  unfold slice. repeat case_match; try done.
  intros [= <- <-]. split; [done|]. split; [done|].
  split; [apply BehaviorCloningTrainerProps.live_alloc
         | apply BehaviorCloningTrainerProps.wfMemory_alloc].
Qed.

Lemma alloc_returned pl m r m' :
  alloc pl m = (r, m') →
  r = nextId m ∧ nextId m' = S (nextId m)
  ∧ live m' = {[nextId m]} ∪ live m
  ∧ (wfMemory m → wfMemory m').
Proof.
  intros [= <- <-]. split; [done|]. split; [done|].
  split; [apply BehaviorCloningTrainerProps.live_alloc
         | apply BehaviorCloningTrainerProps.wfMemory_alloc].
Qed.

Lemma validationSize_bounds (n : nat) split :
  (0 < split)%Q → (split <= 1)%Q →
  (0 ≤ exactFloor n split ≤ Z.of_nat n)%Z.
Proof.
  intros H0 H1. unfold exactFloor. split.
  - rewrite <- (Qfloor_Z 0). apply Qfloor_resp_le.
    apply Qmult_le_0_compat; [|by apply Qlt_le_weak].
    rewrite <- (Zle_Qle 0). lia.
  - rewrite <- (Qfloor_Z (Z.of_nat n)) at 2. apply Qfloor_resp_le.
    rewrite <- (Qmult_1_r (inject_Z (Z.of_nat n))) at 2.
    rewrite !(Qmult_comm (inject_Z (Z.of_nat n))).
    apply Qmult_le_compat_r; [done|]. rewrite <- (Zle_Qle 0). lia.
Qed.

Lemma sliceRows_in_range rows (begin size : nat) :
  begin + size ≤ length rows →
  sliceRows rows (Z.of_nat begin) (Z.of_nat size) = Js.Returned (take size (drop begin rows)).
Proof.
  intros H. unfold sliceRows.
  rewrite (proj2 (Z.ltb_ge _ _)) by lia.
  rewrite (proj2 (Z.eqb_neq _ _)) by lia.
  rewrite (proj2 (Z.ltb_ge _ _)) by lia.
  rewrite (proj2 (Z.ltb_ge _ _)) by lia.
  by rewrite !Nat2Z.id.
Qed.

Section TrainCallProps.

Variable tensor2dRows : list (list Q) → nat → nat → Js.outcome string (list (list Q)).
Variable floorOfProduct : nat → Q → Z.

Abbreviation prepare' := (prepareTrainingData tensor2dRows floorOfProduct).

(** The tensors a returning [prepareTrainingData] leaves allocated are the
    ones it hands out, all of them new. *)
Lemma prepareTrainingData_returned split dataset oSize aSize m m1 to ta vd :
  prepare' split dataset oSize aSize m = (m1, Js.Returned (to, ta, vd)) →
  wfMemory m →
  wfMemory m1
  ∧ nextId m ≤ to ∧ nextId m ≤ ta
  ∧ match vd with
    | Some (vo, va) =>
        nextId m ≤ vo ∧ nextId m ≤ va ∧ live m1 = {[to; ta; vo; va]} ∪ live m
    | None => live m1 = {[to; ta]} ∪ live m
    end.
Proof.
  unfold prepareTrainingData, tensor2d. intros H Hwf.
  destruct (tensor2dRows _ _ oSize) as [orows|]; [|done].
  destruct (alloc _ m) as [o m0] eqn:E0.
  apply alloc_returned in E0 as (-> & Hn0 & Hl0 & Hwf0). specialize (Hwf0 Hwf).
  destruct (tensor2dRows _ _ aSize) as [arows|]; [|done].
  destruct (alloc _ m0) as [a m2] eqn:E2.
  apply alloc_returned in E2 as (-> & Hn2 & Hl2 & Hwf2). specialize (Hwf2 Hwf0).
  destruct (negb (Qle_bool split 0)).
  - destruct (slice _ _ _ m2) as [[to' m3]|] eqn:E3; [|done].
    apply slice_returned in E3 as (-> & Hn3 & Hl3 & Hwf3).
    destruct (slice _ _ _ m3) as [[ta' m4]|] eqn:E4; [|done].
    apply slice_returned in E4 as (-> & Hn4 & Hl4 & Hwf4).
    destruct (slice _ _ _ m4) as [[vo' m5]|] eqn:E5; [|done].
    apply slice_returned in E5 as (-> & Hn5 & Hl5 & Hwf5).
    destruct (slice _ _ _ m5) as [[va' m6]|] eqn:E6; [|done].
    apply slice_returned in E6 as (-> & Hn6 & Hl6 & Hwf6).
    injection H as <- <- <- <-.
    split; [repeat apply BehaviorCloningTrainerProps.wfMemory_dispose; auto|].
    split; [lia|]. split; [lia|]. split; [lia|]. split; [lia|].
    rewrite !BehaviorCloningTrainerProps.live_dispose, Hl6, Hl5, Hl4, Hl3, Hl2, Hl0.
    rewrite Hn5, Hn4, Hn3, Hn2, Hn0 in *.
    pose proof (BehaviorCloningTrainerProps.nextId_fresh m Hwf) as Hfresh.
    assert (∀ x, x ∈ live m → x < nextId m) as Hlt by exact Hwf.
    apply set_eq. intros x.
    rewrite !elem_of_difference, !elem_of_union, !elem_of_singleton.
    split.
    + intros [[Hx ?] ?]. destruct_or!; subst; (try lia); auto 10.
    + intros Hx. destruct_or!; subst; (try specialize (Hlt _ Hx)); repeat split;
        (try lia); auto 10.
  - injection H as <- <- <- <-.
    split; [done|]. split; [lia|]. split; [lia|].
    rewrite Hl2, Hl0, Hn0. set_solver.
Qed.

Ltac lookup_rows :=
  unfold rowsOf, dispose; cbn [tensors];
  rewrite !lookup_delete_ne by lia;
  repeat (first [rewrite lookup_insert_eq | rewrite lookup_insert_ne by lia]);
  try rewrite drop_0; reflexivity.

Lemma slice_in_range x rows (begin size : nat) m :
  tensors m !! x = Some (Tensor2d rows) →
  begin + size ≤ length rows →
  slice x (Z.of_nat begin) (Z.of_nat size) m
  = Js.Returned (alloc (Tensor2d (take size (drop begin rows))) m).
Proof.
  intros Hx Hle. unfold slice. by rewrite Hx, sliceRows_in_range.
Qed.

(** X14: with a positive validation split, [prepareTrainingData] cuts the
    flattened data set in two without losing or repeating a sample: the
    training rows followed by the validation rows are the rows of the full
    tensor, for observations and for actions alike, and the validation part
    has as many rows as the host computes for
    [Math.floor(total * validationSplit)], when that number lies between 0
    and the total; the two full tensors are released, so that exactly the
    four tensors handed out are new. *)
Theorem X14_prepareTrainingData_splits split dataset oSize aSize m orows arows :
  let steps := flat_map DemonstrationCollector.steps (Demonstration.episodes dataset) in
  let n := length steps in
  wfMemory m →
  tensor2dRows (map DemonstrationCollector.observation steps) n oSize = Js.Returned orows →
  tensor2dRows (map DemonstrationCollector.action steps) n aSize = Js.Returned arows →
  length orows = n → length arows = n →
  (0 < split)%Q →
  (0 ≤ floorOfProduct n split ≤ Z.of_nat n)%Z →
  ∃ m' to ta vo va,
    prepare' split dataset oSize aSize m = (m', Js.Returned (to, ta, Some (vo, va)))
    ∧ rowsOf to m' ++ rowsOf vo m' = orows
    ∧ rowsOf ta m' ++ rowsOf va m' = arows
    ∧ Z.of_nat (length (rowsOf vo m')) = floorOfProduct n split
    ∧ length (rowsOf va m') = length (rowsOf vo m')
    ∧ length (rowsOf ta m') = length (rowsOf to m')
    ∧ live m' = {[to; ta; vo; va]} ∪ live m.
Proof.
  intros steps n Hwf Hobs Hact Hon Han H0 [Hv0 Hvn].
  set (v := Z.to_nat (floorOfProduct n split)).
  assert (floorOfProduct n split = Z.of_nat v) as Hv by (unfold v; lia).
  assert (v ≤ n) as Hvle by lia.
  destruct (prepare' split dataset oSize aSize m) as [m' r] eqn:E.
  pose proof E as E'. unfold prepareTrainingData, tensor2d in E.
  fold steps in E. rewrite !length_map in E. fold n in E.
  rewrite Hobs, Hact in E. cbn [alloc] in E.
  assert (negb (Qle_bool split 0) = true) as Hneg.
  { apply negb_true_iff. destruct (Qle_bool split 0) eqn:Eb; [|done].
    apply Qle_bool_iff in Eb. by apply Qlt_not_le in H0. }
  rewrite Hneg, Hv in E.
  replace (Z.of_nat n - Z.of_nat v)%Z with (Z.of_nat (n - v)) in E by lia.
  change 0%Z with (Z.of_nat 0) in E.
  set (o := nextId m) in *.
  erewrite (slice_in_range o orows 0 (n - v)) in E; cycle 1.
  { cbn. rewrite lookup_insert_ne by lia. apply lookup_insert_eq. }
  { lia. }
  cbn [alloc nextId tensors] in E.
  erewrite (slice_in_range (S o) arows 0 (n - v)) in E; cycle 1.
  { cbn. rewrite lookup_insert_ne by lia. apply lookup_insert_eq. }
  { lia. }
  cbn [alloc nextId tensors] in E.
  erewrite (slice_in_range o orows (n - v) v) in E; cycle 1.
  { cbn. rewrite !lookup_insert_ne by lia. apply lookup_insert_eq. }
  { lia. }
  cbn [alloc nextId tensors] in E.
  erewrite (slice_in_range (S o) arows (n - v) v) in E; cycle 1.
  { cbn. rewrite !lookup_insert_ne by lia. apply lookup_insert_eq. }
  { lia. }
  cbn [alloc nextId tensors] in E.
  injection E as <- <-.
  destruct (prepareTrainingData_returned split dataset oSize aSize m _ _ _ _ E' Hwf)
    as (_ & _ & _ & _ & _ & Hlive).
  eexists _, _, _, _, _. split; [reflexivity|].
  match goal with
  | |- rowsOf ?to ?mf ++ rowsOf ?vo ?mf = _ ∧ rowsOf ?ta ?mf ++ rowsOf ?va ?mf = _ ∧ _ =>
      assert (rowsOf to mf = take (n - v) orows) as -> by lookup_rows;
      assert (rowsOf ta mf = take (n - v) arows) as -> by lookup_rows;
      assert (rowsOf vo mf = take v (drop (n - v) orows)) as -> by lookup_rows;
      assert (rowsOf va mf = take v (drop (n - v) arows)) as -> by lookup_rows
  end.
  split; [rewrite take_take_drop; apply take_ge; lia|].
  split; [rewrite take_take_drop; apply take_ge; lia|].
  rewrite !length_take, !length_drop.
  split; [lia|]. split; [lia|]. split; [lia|]. exact Hlive.
Qed.

Lemma prepareTrainingData_thrown split dataset oSize aSize m m1 e :
  prepare' split dataset oSize aSize m = (m1, Js.Thrown e) →
  live m ⊆ live m1.
Proof.
  unfold prepareTrainingData, tensor2d. intros H.
  destruct (tensor2dRows _ _ oSize) as [orows|]; [|by injection H as <- _].
  destruct (alloc _ m) as [o m0] eqn:E0.
  apply alloc_returned in E0 as (-> & _ & Hl0 & _).
  destruct (tensor2dRows _ _ aSize) as [arows|]; [|injection H as <- _; set_solver].
  destruct (alloc _ m0) as [a m2] eqn:E2.
  apply alloc_returned in E2 as (-> & _ & Hl2 & _).
  destruct (negb (Qle_bool split 0)); [|done].
  destruct (slice _ _ _ m2) as [[to' m3]|] eqn:E3; [|injection H as <- _; set_solver].
  apply slice_returned in E3 as (-> & _ & Hl3 & _).
  destruct (slice _ _ _ m3) as [[ta' m4]|] eqn:E4; [|injection H as <- _; set_solver].
  apply slice_returned in E4 as (-> & _ & Hl4 & _).
  destruct (slice _ _ _ m4) as [[vo' m5]|] eqn:E5; [|injection H as <- _; set_solver].
  apply slice_returned in E5 as (-> & _ & Hl5 & _).
  destruct (slice _ _ _ m5) as [[va' m6]|] eqn:E6; [done|injection H as <- _; set_solver].
Qed.

End TrainCallProps.

Lemma X14_prepareTrainingData_splits_witness :
  ∃ m' to ta vo va,
    prepareTrainingData rowsAsGiven exactFloor (1 # 2) threeSteps 2 1 emptyMemory
    = (m', Js.Returned (to, ta, Some (vo, va)))
    ∧ rowsOf to m' = [[1; 1]; [2; 2]]%Q
    ∧ rowsOf vo m' = [[3; 3]]%Q.
Proof.
  destruct (X14_prepareTrainingData_splits rowsAsGiven exactFloor (1 # 2) threeSteps 2 1
              emptyMemory [[1; 1]; [2; 2]; [3; 3]]%Q [[1]; [2]; [3]]%Q)
    as (m' & to & ta & vo & va & Hp & _); try reflexivity.
  - intros x Hx. unfold live, emptyMemory in Hx. simpl in Hx. set_solver.
  - by vm_compute.
  - exists m', to, ta, vo, va. split; [exact Hp|].
    assert (prepareTrainingData rowsAsGiven exactFloor (1 # 2) threeSteps 2 1 emptyMemory
            = (dispose 1 (dispose 0
                 {| tensors := {[ 0 := Tensor2d [[1; 1]; [2; 2]; [3; 3]]%Q;
                                  1 := Tensor2d [[1]; [2]; [3]]%Q;
                                  2 := Tensor2d [[1; 1]; [2; 2]]%Q;
                                  3 := Tensor2d [[1]; [2]]%Q;
                                  4 := Tensor2d [[3; 3]]%Q;
                                  5 := Tensor2d [[3]]%Q ]};
                    nextId := 6 |}),
               Js.Returned (2, 3, Some (4, 5)))) as Hrun by (by vm_compute).
    rewrite Hrun in Hp. injection Hp as <- <- <- <- <-. by vm_compute.
Defined.

Section TrainProps.

Context {Policy : Type}.
Variable trainBatch :
  Policy → Tensor → Tensor → Policy * list Tensor * Js.outcome string (option Q).
Variable computeValidationLoss :
  Policy → Tensor → Tensor → Js.outcome string (option Q).
Variable shuffleArray : nat → list nat → list nat.
Variable tensor2dRows : list (list Q) → nat → nat → Js.outcome string (list (list Q)).
Variable floorOfProduct : nat → Q → Z.

Abbreviation trainEpoch' := (trainEpoch trainBatch shuffleArray).
Abbreviation epochLoop' := (epochLoop trainBatch computeValidationLoss shuffleArray).
Abbreviation train' :=
  (train trainBatch computeValidationLoss shuffleArray tensor2dRows floorOfProduct).

Lemma trainEpoch_memory bs obs act e m pol tr (l : LoopState) loss :
  trainEpoch' bs obs act e m pol tr = (l, Js.Returned loss) →
  wfMemory m →
  live m ⊆ live (mem l) ∧ wfMemory (mem l)
  ∧ ((∀ pol o a, (trainBatch pol o a).1.2 = []) → live (mem l) = live m)
  ∧ loss = meanLoss (totalLoss l) (numBatchesOf (shape0 obs m) bs).
Proof.
  unfold trainEpoch. intros H Hwf.
  destruct (batchLoop _ _ _ _ _ _ _ _ _ _) as [s [[]|err]] eqn:E; [|done].
  injection H as <- <-.
  apply BehaviorCloningTrainerProps.batchLoop_returned in E as (Hl & Hw & Hq); done.
Qed.

Lemma epochLoop_memory bs obs act val n from (s s' : TrainState) :
  epochLoop' bs obs act val n from s = (s', Js.Returned tt) →
  wfMemory (t_mem s) →
  live (t_mem s) ⊆ live (t_mem s') ∧ wfMemory (t_mem s')
  ∧ ((∀ pol o a, (trainBatch pol o a).1.2 = []) → live (t_mem s') = live (t_mem s))
  ∧ (n = 0 → t_stats s' = t_stats s)
  ∧ (0 < n → epoch (t_stats s') = from + n
             ∧ step (t_stats s') = (from + n) * Pos.to_nat bs).
Proof.
  revert from s. induction n as [|n IH]; intros from s H Hwf; simpl in H.
  - injection H as <-. split; [done|]. split; [done|]. split; [done|]. split; [done | lia].
  - destruct (trainEpoch _ _ _ _ _ _ _ _ _) as [l [loss|err]] eqn:E; [|done].
    destruct (trainEpoch_memory _ _ _ _ _ _ _ _ _ E Hwf) as (Hl & Hw & Hq & _).
    destruct (match val with Some _ => _ | None => _ end) as [v|err]; [|done].
    apply IH in H as (Hl' & Hw' & Hq' & Hz & Hp); [|done]. simpl in *.
    split; [set_solver|]. split; [done|].
    split; [intros Hquiet; by rewrite (Hq' Hquiet), (Hq Hquiet)|].
    split; [lia|]. intros _.
    destruct n as [|n].
    + rewrite Hz by done. simpl. split; lia.
    + destruct Hp as [-> ->]; [lia|]. split; lia.
Qed.

(** X15: a [train] call that returns has released the tensors it prepared
    and no tensor that was live before the call: the training and
    validation tensors that [prepareTrainingData] handed out are not live
    after it.  What may stay beyond the tensors of before are the variables
    that [trainBatch] left (those of the optimizer): with a [trainBatch]
    that leaves none, the live tensors are those of before the call.  The
    statistics it returns count the epochs run, with [step] equal to
    [epochs * batchSize]; with zero epochs they are the statistics the
    trainer already had.  It returns only for a data set that
    [validateDataset] accepts. *)
Theorem X15_train_releases_its_tensors this bs epochs split dataset oSize aSize
    (pol : Policy) m tr (s' : TrainState) stats :
  wfMemory m →
  train' this bs epochs split dataset oSize aSize pol m tr = (s', Js.Returned stats) →
  live m ⊆ live (t_mem s')
  ∧ (∃ m1 to ta vd,
       prepareTrainingData tensor2dRows floorOfProduct split dataset oSize aSize m
       = (m1, Js.Returned (to, ta, vd))
       ∧ (to ∉ live (t_mem s')) ∧ (ta ∉ live (t_mem s'))
       ∧ match vd with
         | Some (vo, va) => (vo ∉ live (t_mem s')) ∧ (va ∉ live (t_mem s'))
         | None => True
         end)
  ∧ ((∀ pol o a, (trainBatch pol o a).1.2 = []) → live (t_mem s') = live m)
  ∧ stats = t_stats s'
  ∧ (epochs = 0 → stats = trainingStats this)
  ∧ (0 < epochs → epoch stats = epochs ∧ step stats = epochs * Pos.to_nat bs)
  ∧ validateDataset dataset oSize aSize = Js.Returned tt.
Proof.
  intros Hwf. unfold train.
  destruct (validateDataset dataset oSize aSize) as [[]|] eqn:Ev; [|done].
  destruct (prepareTrainingData _ _ _ _ _ _ m) as [m1 [[[to ta] vd]|]] eqn:Ep; [|done].
  destruct (prepareTrainingData_returned _ _ _ _ _ _ _ _ _ _ _ Ep Hwf)
    as (Hwf1 & Hto & Hta & Hvd).
  destruct (epochLoop _ _ _ _ _ _ _ _ _ _) as [s [[]|]] eqn:El; [|done].
  apply epochLoop_memory in El as (Hl & _ & Hq & Hz & Hp); [|done].
  cbn [t_mem t_stats] in *.
  intros [= <- <-]. cbn [t_mem t_stats].
  assert (∀ x, x ∈ live m → x < nextId m) as Hlt by exact Hwf.
  split; [|split; [|split; [|split; [done|split; [done|split; [|done]]]]]].
  - intros x Hx. specialize (Hlt x Hx).
    destruct vd as [[vo va]|].
    + destruct Hvd as (Hvo & Hva & Hlive).
      rewrite !BehaviorCloningTrainerProps.live_dispose.
      rewrite !elem_of_difference, !elem_of_singleton.
      repeat split; try lia. apply Hl. rewrite Hlive. set_solver.
    + rewrite !BehaviorCloningTrainerProps.live_dispose.
      rewrite !elem_of_difference, !elem_of_singleton.
      repeat split; try lia. apply Hl. rewrite Hvd. set_solver.
  - exists m1, to, ta, vd. split; [done|].
    destruct vd as [[vo va]|]; rewrite !BehaviorCloningTrainerProps.live_dispose;
      set_solver.
  - intros Hquiet. specialize (Hq Hquiet).
    destruct vd as [[vo va]|].
    + destruct Hvd as (Hvo & Hva & Hlive).
      rewrite !BehaviorCloningTrainerProps.live_dispose, Hq, Hlive.
      apply set_eq. intros x.
      rewrite !elem_of_difference, !elem_of_union, !elem_of_singleton.
      split; [intros [[[[Hx ?] ?] ?] ?]; destruct_or!; done|].
      intros Hx. specialize (Hlt x Hx). repeat split; (try lia); auto.
    + rewrite !BehaviorCloningTrainerProps.live_dispose, Hq, Hvd.
      apply set_eq. intros x.
      rewrite !elem_of_difference, !elem_of_union, !elem_of_singleton.
      split; [intros [[Hx ?] ?]; destruct_or!; done|].
      intros Hx. specialize (Hlt x Hx). repeat split; (try lia); auto.
  - intros Hpos. destruct (Hp Hpos) as [-> ->]. done.
Qed.

Lemma batchLoop_totalLoss bs obs act idx total e n from (s s' : LoopState) :
  (∀ pol o a x, (trainBatch pol o a).2 = Js.Returned x → x ≠ None) →
  wfMemory (mem s) →
  batchLoop trainBatch bs obs act idx total e n from s = (s', Js.Returned tt) →
  totalLoss s ≠ None → totalLoss s' ≠ None.
Proof using trainBatch.
  intros Hnum. revert from s. induction n as [|n IH]; intros from s Hwf H Hs; simpl in H.
  - by injection H as <-.
  - destruct (batchStep _ _ _ _ _ _ _ _ _) as [s1 [[]|err]] eqn:E; [|done].
    apply BehaviorCloningTrainerProps.batchStep_returned in E
      as (o & a & pol' & variables & loss & Etb & _ & Hw & _ & Ht); [|done].
    apply IH in H; [done | done |].
    rewrite Ht. specialize (Hnum (policy s) o a loss). rewrite Etb in Hnum.
    destruct (totalLoss s), loss; try done. by specialize (Hnum eq_refl).
Qed.

(** X16: a [trainEpoch] call on a training tensor with no row trains no
    mini-batch, yields nowhere, leaves memory, policy and trace as they
    were and reports [NaN] as its loss ([0 / 0]).  A call that returns
    reports [NaN] exactly when the tensor has no row or the losses added up
    to [NaN]; when [trainBatch] reports numbers only, they do not, so that
    the loss is then [NaN] exactly when the tensor has no row. *)
Theorem X16_trainEpoch_empty_data bs obs act e m (pol : Policy) tr :
  (shape0 obs m = 0 →
   trainEpoch' bs obs act e m pol tr
   = ({| mem := m; policy := pol; trace := tr; totalLoss := Some 0%Q |},
      Js.Returned None))
  ∧ (∀ (l : LoopState) loss,
       wfMemory m →
       trainEpoch' bs obs act e m pol tr = (l, Js.Returned loss) →
       (loss = None ↔ shape0 obs m = 0 ∨ totalLoss l = None)
       ∧ ((∀ pol o a x, (trainBatch pol o a).2 = Js.Returned x → x ≠ None) →
          totalLoss l ≠ None ∧ (loss = None ↔ shape0 obs m = 0))).
Proof using trainBatch shuffleArray.
  assert (∀ (l : LoopState) loss,
            trainEpoch' bs obs act e m pol tr = (l, Js.Returned loss) →
            (loss = None ↔ shape0 obs m = 0 ∨ totalLoss l = None)) as Hiff.
  { intros l loss H. unfold trainEpoch in H.
    destruct (batchLoop _ _ _ _ _ _ _ _ _ _) as [s [[]|err]]; [|done].
    injection H as <- <-. unfold meanLoss.
    destruct (numBatchesOf_covers (shape0 obs m) bs) as [Hc _].
    destruct (totalLoss s) as [x|]; [|by split; [right|]].
    destruct (Nat.eqb_spec (numBatchesOf (shape0 obs m) bs) 0) as [H0|Hn].
    - split; [intros _; left; lia | done].
    - split; [done|]. intros [Hs|]; [|done]. exfalso. apply Hn.
      unfold numBatchesOf. rewrite Hs. apply Nat.div_small. lia. }
  split.
  - intros Hs. unfold trainEpoch. rewrite Hs.
    assert (numBatchesOf 0 bs = 0) as -> by (unfold numBatchesOf; apply Nat.div_small; lia).
    done.
  - intros l loss Hwf H. split; [by apply Hiff|].
    intros Hnum.
    assert (totalLoss l ≠ None) as Ht.
    { unfold trainEpoch in H.
      destruct (batchLoop _ _ _ _ _ _ _ _ _ _) as [s [[]|err]] eqn:E; [|done].
      injection H as <- _.
      refine (batchLoop_totalLoss _ _ _ _ _ _ _ _ _ _ Hnum _ E _); [exact Hwf | done]. }
    split; [done|]. rewrite (Hiff l loss H).
    split; [intros [?|?]; done | by left].
Qed.

Lemma batchLoop_keeps bs obs act idx total e n from (s s' : LoopState) r :
  wfMemory (mem s) →
  batchLoop trainBatch bs obs act idx total e n from s = (s', r) →
  live (mem s) ⊆ live (mem s').
Proof.
  revert from s. induction n as [|n IH]; intros from s Hwf H; simpl in H.
  - by injection H as <- _.
  - destruct (batchStep _ _ _ _ _ _ _ _ _) as [s1 [[]|err]] eqn:E.
    + apply BehaviorCloningTrainerProps.batchStep_returned in E
        as (o & a & pol' & variables & loss & _ & Hl & Hw & _); [|done].
      apply IH in H; [|done]. set_solver.
    + injection H as <- _.
      by apply BehaviorCloningTrainerProps.batchStep_thrown in E as (_ & _ & ?).
Qed.

Lemma epochLoop_keeps bs obs act val n from (s s' : TrainState) r :
  wfMemory (t_mem s) →
  epochLoop' bs obs act val n from s = (s', r) →
  live (t_mem s) ⊆ live (t_mem s').
Proof.
  revert from s. induction n as [|n IH]; intros from s Hwf H; simpl in H.
  - by injection H as <- _.
  - destruct (trainEpoch _ _ _ _ _ _ _ _ _) as [l [loss|err]] eqn:E.
    + apply trainEpoch_memory in E as (Hl & Hw & _); [|done].
      destruct (match val with Some _ => _ | None => _ end) as [v|err].
      * apply IH in H; [|done]. simpl in H. set_solver.
      * injection H as <- _. done.
    + injection H as <- _. simpl.
      unfold trainEpoch in E.
      destruct (batchLoop _ _ _ _ _ _ _ _ _ _) as [s1 [[]|err']] eqn:Eb; [done|].
      injection E as <- _. by apply batchLoop_keeps in Eb.
Qed.

(** X27: a [train] call that throws releases nothing.  When the data set is
    rejected, the error is the one of [validateDataset] and nothing has
    been allocated, trained or recorded.  When the exception comes later,
    every tensor that was live before the call is still live, and so are
    the training and validation tensors that [prepareTrainingData] handed
    out: the dispose calls at the end of [train] are skipped. *)
Theorem X27_train_that_throws_releases_nothing this bs epochs split dataset oSize aSize
    (pol : Policy) m tr (s' : TrainState) err :
  wfMemory m →
  train' this bs epochs split dataset oSize aSize pol m tr = (s', Js.Thrown err) →
  live m ⊆ live (t_mem s')
  ∧ (∀ e, validateDataset dataset oSize aSize = Js.Thrown e →
          err = e
          ∧ s' = {| t_mem := m; t_policy := pol; t_trace := tr;
                    t_stats := trainingStats this |})
  ∧ (∀ m1 to ta vd,
       validateDataset dataset oSize aSize = Js.Returned tt →
       prepareTrainingData tensor2dRows floorOfProduct split dataset oSize aSize m
       = (m1, Js.Returned (to, ta, vd)) →
       to ∉ live m ∧ ta ∉ live m
       ∧ to ∈ live (t_mem s') ∧ ta ∈ live (t_mem s')
       ∧ match vd with
         | Some (vo, va) => vo ∈ live (t_mem s') ∧ va ∈ live (t_mem s')
         | None => True
         end).
Proof.
  intros Hwf. unfold train.
  destruct (validateDataset dataset oSize aSize) as [[]|e0] eqn:Ev.
  - destruct (prepareTrainingData _ _ _ _ _ _ m) as [m1 [[[to ta] vd]|e1]] eqn:Ep.
    + destruct (prepareTrainingData_returned _ _ _ _ _ _ _ _ _ _ _ Ep Hwf)
        as (Hwf1 & Hto & Hta & Hvd).
      destruct (epochLoop _ _ _ _ _ _ _ _ _ _) as [s [[]|e2]] eqn:El; [done|].
      intros [= <- <-].
      apply epochLoop_keeps in El; [|done]. cbn [t_mem] in El.
      assert (∀ x, x ∈ live m → x < nextId m) as Hlt by exact Hwf.
      assert (live m ⊆ live m1 ∧ to ∈ live m1 ∧ ta ∈ live m1
              ∧ match vd with
                | Some (vo, va) => vo ∈ live m1 ∧ va ∈ live m1
                | None => True
                end) as (Hsub & Hto1 & Hta1 & Hvd1).
      { destruct vd as [[vo va]|]; [destruct Hvd as (_ & _ & ->) | rewrite Hvd];
          repeat split; set_solver. }
      split; [set_solver|]. split; [done|].
      intros m1' to' ta' vd' _ [= <- <- <- <-].
      split; [intros Hin; apply Hlt in Hin; lia|].
      split; [intros Hin; apply Hlt in Hin; lia|].
      split; [set_solver|]. split; [set_solver|].
      destruct vd as [[vo va]|]; [|done]. split; set_solver.
    + intros [= <- <-]. cbn [t_mem].
      split; [|split; [done|]].
      * by eapply prepareTrainingData_thrown.
      * intros m1' to ta vd _. done.
  - intros [= <- <-]. cbn [t_mem]. split; [done|]. split; [|done].
    by intros e [= <-].
Qed.

End TrainProps.

Lemma emptyMemory_wf : wfMemory emptyMemory.
Proof. intros x Hx. unfold live, emptyMemory in Hx. simpl in Hx. set_solver. Qed.

(** Three epochs over three steps, two of them for training: with a
    [trainBatch] that leaves no variable nothing stays allocated; with an
    optimizer that creates a variable on its first step, that variable
    (id 9) is all that stays. *)
Lemma X15_train_releases_its_tensors_witness :
  (∃ s' stats,
     train okTrainBatch (λ _ _ _, Js.Returned (Some 0%Q)) (λ _ l, l) rowsAsGiven exactFloor
       freshTrainer 2%positive 3 (1 # 2) threeSteps 2 1 tt emptyMemory []
     = (s', Js.Returned stats)
     ∧ live (t_mem s') = live emptyMemory
     ∧ epoch stats = 3 ∧ step stats = 6)
  ∧ (∃ s' stats,
       train firstStepTrainBatch (λ _ _ _, Js.Returned (Some 0%Q)) (λ _ l, l) rowsAsGiven
         exactFloor freshTrainer 2%positive 3 (1 # 2) threeSteps 2 1 false emptyMemory []
       = (s', Js.Returned stats)
       ∧ 2 ∉ live (t_mem s')
       ∧ tensors (t_mem s') !! 9 = Some (Tensor2d [[0%Q]])).
Proof.
  split.
  - destruct (train okTrainBatch (λ _ _ _, Js.Returned (Some 0%Q)) (λ _ l, l) rowsAsGiven
        exactFloor freshTrainer 2%positive 3 (1 # 2) threeSteps 2 1 tt emptyMemory [])
      as [s' [stats|e]] eqn:E.
    + exists s', stats. split; [done|].
      apply X15_train_releases_its_tensors in E as (_ & _ & Hl & _ & _ & Hp & _);
        [|exact emptyMemory_wf].
      split; [by apply Hl|]. apply Hp. lia.
    + exfalso. revert E. vm_compute. discriminate.
  - destruct (train firstStepTrainBatch (λ _ _ _, Js.Returned (Some 0%Q)) (λ _ l, l)
        rowsAsGiven exactFloor freshTrainer 2%positive 3 (1 # 2) threeSteps 2 1 false
        emptyMemory []) as [s' [stats|e]] eqn:E.
    + exists s', stats. split; [done|].
      pose proof E as E'.
      apply X15_train_releases_its_tensors in E'
        as (_ & (m1 & to & ta & vd & Hprep & Hto & _) & _); [|exact emptyMemory_wf].
      assert (to = 2) as -> by (revert Hprep; vm_compute; congruence).
      split; [exact Hto|].
      revert E. vm_compute. by intros [= <- _].
    + exfalso. revert E. vm_compute. discriminate.
Defined.

(** An empty training tensor, and a loss that is not a number on a tensor
    of two rows. *)
Lemma X16_trainEpoch_empty_data_witness :
  trainEpoch okTrainBatch (λ _ l, l) 2%positive 0 1 0 emptyMemory tt []
  = ({| mem := emptyMemory; policy := tt; trace := []; totalLoss := Some 0%Q |},
     Js.Returned None)
  ∧ (trainEpoch nanTrainBatch (λ _ l, l) 1%positive 0 1 0 (mem twoRows) tt []).2
    = Js.Returned None.
Proof.
  split.
  - apply (proj1 (X16_trainEpoch_empty_data okTrainBatch (λ _ l, l) 2%positive 0 1 0
                    emptyMemory tt [])).
    reflexivity.
  - by vm_compute.
Defined.

Lemma X27_train_that_throws_releases_nothing_witness :
  ∃ s' err,
    train failingTrainBatch (λ _ _ _, Js.Returned (Some 0%Q)) (λ _ l, l) rowsAsGiven
      exactFloor freshTrainer 2%positive 3 (1 # 2) threeSteps 2 1 tt emptyMemory []
    = (s', Js.Thrown err)
    ∧ live emptyMemory ⊆ live (t_mem s')
    ∧ 2 ∈ live (t_mem s').
Proof.
  destruct (train failingTrainBatch (λ _ _ _, Js.Returned (Some 0%Q)) (λ _ l, l) rowsAsGiven
      exactFloor freshTrainer 2%positive 3 (1 # 2) threeSteps 2 1 tt emptyMemory [])
    as [s' [stats|err]] eqn:E.
  - exfalso. revert E. vm_compute. discriminate.
  - exists s', err. split; [done|].
    apply X27_train_that_throws_releases_nothing in E as (Hsub & _ & Hleak);
      [|exact emptyMemory_wf].
    split; [exact Hsub|].
    refine (proj1 (proj2 (proj2 (Hleak _ 2 3 (Some (4, 5)) _ _)))); [reflexivity|].
    by vm_compute.
Defined.

End BehaviorCloningTrainerMore.

(** ** [ModelManager]: loading, listing, deleting *)

Module ModelManagerMore.
Import ModelManager.

Lemma truthy_Some s x : truthy s = Some x ↔ s = Some x ∧ x ≠ "".
Proof.
  unfold truthy. destruct s as [y|]; [|naive_solver].
  destruct (String.eqb_spec y ""); naive_solver.
Qed.

Lemma truthy_nonempty x : x ≠ "" → truthy (Some x) = Some x.
Proof. intros. by apply truthy_Some. Qed.

Lemma fixed_not_list this : FIXED_MODEL_KEY this ≠ modelListKey this.
Proof.
  unfold modelListKey, FIXED_MODEL_KEY. intros H.
  apply (inj (String.app (storagePrefix this))) in H. discriminate.
Qed.

Lemma keys_of_prefix this this' :
  storagePrefix this' = storagePrefix this →
  FIXED_MODEL_KEY this' = FIXED_MODEL_KEY this
  ∧ modelListKey this' = modelListKey this
  ∧ ∀ i, modelKey this' i = modelKey this i.
Proof. unfold FIXED_MODEL_KEY, modelListKey, modelKey. by intros ->. Qed.

Section SaveThenLoad.

Variable stringify : ModelData → string.
Variable parsedId : string → option string.
Variable parse : string → Js.outcome string ModelData.

Abbreviation saveModel' := (saveModel stringify parsedId).

(** What [saveModel] leaves in the [models] store of IndexedDB. *)
Lemma saveModel_db this ls m md generated savedAt :
  let '(this', _, _) := saveModel' this ls m md generated savedAt in
  storagePrefix this' = storagePrefix this
  ∧ (is_Some (db this) →
     ∃ d, loadFromIndexedDB this' "models" "current_model" = Some d
          ∧ model d = serialize m)
  ∧ (∀ k, k ≠ "current_model" →
          loadFromIndexedDB this "models" k = None →
          loadFromIndexedDB this' "models" k = None).
Proof.
  unfold saveModel. cbv zeta.
  set (this1 := match ls !! FIXED_MODEL_KEY this with Some _ => _ | None => _ end).
  assert (storagePrefix this1 = storagePrefix this
          ∧ (is_Some (db this) → is_Some (db this1))
          ∧ ∀ k, loadFromIndexedDB this "models" k = None →
                 loadFromIndexedDB this1 "models" k = None) as (Hp & Hs & Hn).
  { assert (∀ oldId, let t1 := deleteFromIndexedDB this "models" oldId in
              storagePrefix t1 = storagePrefix this
              ∧ (is_Some (db this) → is_Some (db t1))
              ∧ ∀ k, loadFromIndexedDB this "models" k = None →
                     loadFromIndexedDB t1 "models" k = None) as Hdel.
    { intros oldId. cbv zeta. unfold deleteFromIndexedDB, loadFromIndexedDB.
      destruct (db this) as [stores|] eqn:E; simpl; rewrite ?E; [|by auto].
      split; [done|]. split; [by eexists|].
      intros k Hk. destruct (decide (("models", k) = ("models", oldId))) as [->|Hne].
      - apply lookup_delete_eq.
      - by rewrite lookup_delete_ne. }
    unfold this1. destruct (ls !! FIXED_MODEL_KEY this) as [old|]; [|done].
    destruct (String.eqb old ""); [done|].
    destruct (parsedId old) as [oldId|]; [apply Hdel | done]. }
  unfold saveToIndexedDB, loadFromIndexedDB in *.
  destruct (db this1) as [stores1|] eqn:E1; simpl.
  - split; [done|]. split.
    + intros _. eexists. rewrite lookup_insert_eq. done.
    + intros k Hne Hk. rewrite lookup_insert_ne by congruence. by apply Hn.
  - split; [done|]. split.
    + intros Hs'. apply Hs in Hs'. by destruct Hs'.
    + intros k _ _. by rewrite E1.
Qed.

(** X17: the model that [loadModel()] returns after a [saveModel] call is
    the serialized model just saved, read from [localStorage]; when the
    database is open and the [localStorage] entry has been lost, it is
    found again in IndexedDB. *)
Theorem X17_saveModel_loadModel_roundtrip this ls m md generated savedAt :
  (∀ d, model d = serialize m →
        stringify d ≠ "" ∧ ∃ d', parse (stringify d) = Js.Returned d'
                                  ∧ model d' = serialize m) →
  let '(this', ls', _) := saveModel' this ls m md generated savedAt in
  loadModel parse this' ls' None = Js.Returned (serialize m)
  ∧ (is_Some (db this) →
     ∀ ls'', truthy (ls'' !! FIXED_MODEL_KEY this) = None →
             loadModel parse this' ls'' None = Js.Returned (serialize m)).
Proof.
  intros Hjson.
  pose proof (saveModel_db this ls m md generated savedAt) as Hdb.
  unfold saveModel in *. cbv zeta in *.
  set (data := {| id := _; model := serialize m; metadata := _ |}) in *.
  destruct Hdb as (Hp & Hcur & _).
  destruct (Hjson data eq_refl) as (Hne & d' & Hparse & Hmodel).
  unfold loadModel. rewrite (proj1 (keys_of_prefix _ _ Hp)).
  cbn [truthy]. split.
  - rewrite lookup_insert_eq, truthy_nonempty, Hparse by done.
    unfold deserializeModel. by rewrite Hmodel.
  - intros Hs ls'' ->. cbn [default].
    destruct (Hcur Hs) as (d & -> & Hd). unfold deserializeModel. by rewrite Hd.
Qed.

(** X18: the id that [saveModel] returns does not lead back to the model:
    [loadModel] with that id looks under [<prefix>model_<id>], which
    [saveModel] has just cleaned, and then in IndexedDB under that id,
    where [saveModel] files the record as [current_model]; unless the
    database already held a record of that id, the call throws
    "Model not found". *)
Theorem X18_loadModel_by_saved_id_not_found this ls m md generated savedAt :
  let '(this', ls', modelId) := saveModel' this ls m md generated savedAt in
  modelId ≠ "" →
  modelId ≠ "current_model" →
  loadFromIndexedDB this "models" modelId = None →
  loadModel parse this' ls' (Some modelId) = Js.Thrown ("Model not found: " +:+ modelId).
Proof.
  pose proof (saveModel_db this ls m md generated savedAt) as Hdb.
  unfold saveModel in *. cbv zeta in *.
  set (modelId := match model_id m with Some _ => _ | None => _ end) in *.
  set (data := {| id := modelId; model := serialize m; metadata := _ |}) in *.
  destruct Hdb as (Hp & _ & Hold).
  intros Hne Hcur Hnone.
  unfold loadModel. rewrite (truthy_nonempty _ Hne). cbn [default].
  rewrite (proj2 (proj2 (keys_of_prefix _ _ Hp))).
  rewrite lookup_insert_ne by (apply not_eq_sym, ModelManagerProps.modelKey_not_fixed).
  rewrite ModelManagerProps.lookup_cleanupOldModels, ModelManagerProps.modelKey_isOld.
  cbn [orb truthy]. by rewrite Hold.
Qed.

End SaveThenLoad.


Lemma modelKey_list this i : modelKey this i = modelListKey this → i = "list".
Proof.
  unfold modelKey, modelListKey. intros H.
  apply (inj (String.app (storagePrefix this))) in H.
  by apply (inj (String.app "model_") i "list") in H.
Qed.

Section ModelList.

Variable parse : string → Js.outcome string ModelData.
Variable parseList : string → Js.outcome string (list string).
Variable stringifyList : list string → string.
Variable getTime : Js.object → Z.

Abbreviation deleteModel' := (deleteModel parseList stringifyList).
Abbreviation updateModelList' := (updateModelList parseList stringifyList).
Abbreviation listModels' := (listModels parse parseList getTime).



Abbreviation listed := (ModelManager.listed parse).

Lemma collectModels_listed this ls ids acc models :
  collectModels parse this ls ids acc = Js.Returned models →
  Forall (listed this ls) acc →
  Forall (listed this ls) models
  ∧ (info_id <$> models) `sublist_of` (info_id <$> acc) ++ ids.
Proof.
  revert acc. induction ids as [|i ids IH]; intros acc H Hacc; simpl in H.
  - injection H as <-. split; [done|]. by rewrite app_nil_r.
  - destruct (truthy (ls !! modelKey this i)) as [stored|] eqn:Et.
    + apply truthy_Some in Et as [Hs Hne].
      destruct (parse stored) as [d|e] eqn:Ep; [|done].
      apply IH in H as [HF Hsub].
      * split; [done|]. rewrite fmap_app in Hsub. simpl in Hsub.
        by rewrite <- app_assoc in Hsub.
      * apply Forall_app. split; [done|]. apply Forall_singleton.
        by exists stored, d.
    + apply IH in H as [HF Hsub]; [|done]. split; [done|].
      etransitivity; [exact Hsub|].
      apply sublist_app; [done|]. by apply sublist_cons.
Qed.

Abbreviation newestFirst := (ModelManager.newestFirst getTime).

Lemma insertByTime_Permutation a models : insertByTime getTime a models ≡ₚ a :: models.
Proof.
  induction models as [|b rest IH]; simpl; [done|].
  destruct (_ <=? _)%Z; [done|]. rewrite IH. apply Permutation_swap.
Qed.

Lemma insertByTime_sorted a models :
  StronglySorted newestFirst models →
  StronglySorted newestFirst (insertByTime getTime a models).
Proof.
  induction 1 as [|b rest Hs IH Hall]; simpl.
  - by repeat constructor.
  - destruct (Z.leb_spec (getTime (info_metadata b)) (getTime (info_metadata a))) as [Hle|Hlt].
    + constructor; [by constructor|]. constructor; [done|].
      eapply Forall_impl; [exact Hall|]. unfold newestFirst. intros c Hc. simpl in *. lia.
    + constructor; [done|].
      rewrite insertByTime_Permutation. constructor; [|done].
      unfold newestFirst. lia.
Qed.

Lemma sortByTime_Permutation models : sortByTime getTime models ≡ₚ models.
Proof.
  induction models as [|a rest IH]; simpl; [done|].
  by rewrite insertByTime_Permutation, IH.
Qed.

Lemma sortByTime_sorted models : StronglySorted newestFirst (sortByTime getTime models).
Proof.
  induction models as [|a rest IH]; simpl; [constructor | by apply insertByTime_sorted].
Qed.

(** X21: [listModels] answers newest first (by [savedAt]), and every entry
    it answers is backed by a stored, non-empty, parsable text under
    [<prefix>model_<id>], whose metadata and length it reports; each id of
    the stored list gives at most one entry per occurrence. *)
Theorem X21_listModels_sorted_and_backed this ls :
  let models := listModels' this ls in
  StronglySorted newestFirst models
  ∧ Forall (listed this ls) models
  ∧ (∀ stored ids, ls !! modelListKey this = Some stored →
       parseList stored = Js.Returned ids →
       ∃ collected, models ≡ₚ collected
                    ∧ (info_id <$> collected) `sublist_of` ids).
Proof.
  unfold listModels. cbv zeta.
  split; [|split].
  - destruct (match truthy _ with Some _ => _ | None => _ end);
      [apply sortByTime_sorted | constructor].
  - destruct (truthy (ls !! modelListKey this)) as [stored|]; [|by constructor].
    destruct (parseList stored) as [ids|e]; [|by constructor].
    destruct (collectModels _ _ _ _ _) as [collected|e] eqn:E; [|by constructor].
    apply collectModels_listed in E as [HF _]; [|by constructor].
    by rewrite sortByTime_Permutation.
  - intros stored ids Hs Hp. rewrite Hs. unfold truthy.
    destruct (String.eqb stored ""); [by exists [] ; split; [|apply sublist_nil_l]|].
    rewrite Hp.
    destruct (collectModels _ _ _ _ _) as [collected|e] eqn:E;
      [|by exists []; split; [|apply sublist_nil_l]].
    apply collectModels_listed in E as [_ Hsub]; [|by constructor].
    exists collected. split; [apply sortByTime_Permutation | done].
Qed.

End ModelList.


Section AfterSave.

Variable stringify : ModelData → string.
Variable parsedId : string → option string.
Variable parse : string → Js.outcome string ModelData.
Variable parseList : string → Js.outcome string (list string).
Variable getTime : Js.object → Z.

(** X22: after a [saveModel] call [listModels] answers the empty list: the
    call removes the stored model list and writes none, so the model just
    saved is not listed, whatever was stored before. *)
Theorem X22_saved_model_not_listed this ls m md generated savedAt :
  let '(this', ls', _) := saveModel stringify parsedId this ls m md generated savedAt in
  listModels parse parseList getTime this' ls' = [].
Proof.
  pose proof (saveModel_db stringify parsedId this ls m md generated savedAt) as Hdb.
  unfold saveModel in *. cbv zeta in *. destruct Hdb as (Hp & _).
  unfold listModels. rewrite (proj1 (proj2 (keys_of_prefix _ _ Hp))).
  rewrite lookup_insert_ne by apply fixed_not_list.
  rewrite ModelManagerProps.lookup_cleanupOldModels, String.eqb_refl, orb_true_r.
  done.
Qed.

End AfterSave.

(** The two counters of [getStorageStats] as a sum and a count over the
    entries. *)
Lemma getStorageStats_counts this (ls : gmap string string) :
  totalSize (getStorageStats this ls)
  = sum_list_with (λ kv, String.length kv.2)
      (filter (λ kv, (kv.1 ≠ "" ∧ startsWith (storagePrefix this) kv.1 = true)
                     ∧ kv.2 ≠ "")
              (map_to_list ls))
  ∧ modelCount (getStorageStats this ls)
    = length (filter (λ kv, (kv.1 ≠ "" ∧ startsWith (storagePrefix this) kv.1 = true)
                            ∧ kv.2 ≠ "" ∧ includes "model_" kv.1 = true)
                     (map_to_list ls)).
Proof.
  unfold getStorageStats.
  set (f := λ '(total, count) '(key, value), _).
  assert (∀ l t c,
    foldl f (t, c) l
    = (t + sum_list_with (λ kv, String.length kv.2)
             (filter (λ kv, (kv.1 ≠ "" ∧ startsWith (storagePrefix this) kv.1 = true)
                            ∧ kv.2 ≠ "") l),
       c + length (filter (λ kv, (kv.1 ≠ "" ∧ startsWith (storagePrefix this) kv.1 = true)
                                 ∧ kv.2 ≠ "" ∧ includes "model_" kv.1 = true) l))) as Hfold.
  { induction l as [|[k v] l IH]; intros t c; [simpl; f_equal; lia|].
    cbn [foldl]. rewrite !filter_cons. cbn [fst snd].
    assert (f (t, c) (k, v)
            = if negb (String.eqb k "") && startsWith (storagePrefix this) k then
                if String.eqb v "" then (t, c)
                else (t + String.length v, if includes "model_" k then S c else c)
              else (t, c)) as -> by done.
    destruct (negb (String.eqb k "") && startsWith (storagePrefix this) k) eqn:Ep.
    - apply andb_true_iff in Ep as [Hk Ep].
      apply negb_true_iff, String.eqb_neq in Hk.
      destruct (String.eqb_spec v "") as [->|Hv].
      + rewrite IH, !decide_False by naive_solver. done.
      + rewrite (decide_True (P := _ ∧ v ≠ "")) by done.
        destruct (includes "model_" k) eqn:Ei.
        * rewrite IH, decide_True by done. simpl. f_equal; lia.
        * rewrite IH, decide_False by naive_solver. simpl. f_equal; lia.
    - assert (¬ (k ≠ "" ∧ startsWith (storagePrefix this) k = true)) as Hn.
      { intros [Hk Hs]. apply String.eqb_neq in Hk. by rewrite Hk, Hs in Ep. }
      rewrite IH, !decide_False by naive_solver. done. }
  rewrite (Hfold (map_to_list ls) 0 0). done.
Qed.

Lemma filter_none {A} (P : A → Prop) `{∀ x, Decision (P x)} (l : list A) :
  Forall (λ x, ¬ P x) l → filter P l = [].
Proof.
  induction 1 as [|x l Hx _ IH]; [done|].
  by rewrite filter_cons, decide_False, IH.
Qed.

Section StatsAfterSave.

Variable stringify : ModelData → string.
Variable parsedId : string → option string.

(** X23: after a [saveModel] call [getStorageStats] counts one model when
    the key of the current model contains [model_] (which depends on the
    prefix alone) and none otherwise: every other entry that would count
    has been removed by the call. *)
Theorem X23_getStorageStats_after_save this ls m md generated savedAt :
  (∀ d, stringify d ≠ "") →
  let '(this', ls', _) := saveModel stringify parsedId this ls m md generated savedAt in
  modelCount (getStorageStats this' ls')
  = if includes "model_" (FIXED_MODEL_KEY this) then 1 else 0.
Proof.
  intros Hne.
  pose proof (saveModel_db stringify parsedId this ls m md generated savedAt) as Hdb.
  unfold saveModel in *. cbv zeta in *. destruct Hdb as (Hp & _).
  set (data := {| id := _; model := serialize m; metadata := _ |}) in *.
  rewrite (proj2 (getStorageStats_counts _ _)), Hp.
  set (base := cleanupOldModels this ls).
  rewrite <- (insert_delete_eq base).
  rewrite map_to_list_insert by apply lookup_delete_eq.
  rewrite filter_cons. cbn [fst snd].
  rewrite (filter_none _ (map_to_list _)).
  - assert (startsWith (storagePrefix this) (FIXED_MODEL_KEY this) = true) as Hpre
      by apply ModelManagerProps.startsWith_app.
    assert (FIXED_MODEL_KEY this ≠ "") as Hkey.
    { unfold FIXED_MODEL_KEY. by destruct (storagePrefix this). }
    destruct (includes "model_" (FIXED_MODEL_KEY this)) eqn:Ei.
    + rewrite decide_True; [done|]. split; [done|]. split; [apply Hne | done].
    + rewrite decide_False; [done|]. intros (_ & _ & ?). congruence.
  - apply Forall_forall. intros [k v] Hkv ((_ & Hpre) & _ & Hinc). cbn [fst snd] in *.
    apply elem_of_map_to_list, lookup_delete_Some in Hkv as [Hk Hkv].
    unfold base in Hkv. rewrite ModelManagerProps.lookup_cleanupOldModels in Hkv.
    unfold isOldModelKey in Hkv. rewrite Hpre, Hinc in Hkv.
    rewrite (proj2 (String.eqb_neq _ _)) in Hkv by done. done.
Qed.

End StatsAfterSave.

Lemma onupgradeneeded_elem name names :
  name ∈ onupgradeneeded names
  ↔ name ∈ names ∨ name = "models" ∨ name = "experiences" ∨ name = "metrics".
Proof.
  unfold onupgradeneeded.
  assert (∀ n l, name ∈ (if bool_decide (n ∈ l) then l else l ++ [n])
                 ↔ name ∈ l ∨ name = n) as Hc.
  { intros n l. destruct (bool_decide_reflect (n ∈ l)) as [Hin|Hnin].
    - split; [by left | intros [?| ->]; done].
    - rewrite elem_of_app, list_elem_of_singleton. done. }
  rewrite !Hc. tauto.
Qed.

(** What the first half of [clearAllData] leaves in [localStorage]. *)
Lemma lookup_clearPrefix this (ls : gmap string string) k :
  removeItems (filter (λ key, key ≠ "" ∧ startsWith (storagePrefix this) key = true)
                      (map_to_list ls).*1) ls !! k
  = if negb (String.eqb k "") && startsWith (storagePrefix this) k then None else ls !! k.
Proof.
  rewrite ModelManagerProps.lookup_removeItems.
  destruct (negb (String.eqb k "") && startsWith (storagePrefix this) k) eqn:Ep.
  - apply andb_true_iff in Ep as [Hk Ep].
    apply negb_true_iff, String.eqb_neq in Hk.
    destruct (ls !! k) as [v|] eqn:Hv; [|by destruct (decide _)].
    rewrite decide_True; [done|].
    apply list_elem_of_filter. split; [done|].
    apply list_elem_of_fmap. exists (k, v). split; [done|].
    by apply elem_of_map_to_list.
  - rewrite decide_False; [done|].
    rewrite list_elem_of_filter. intros [[Hk Hs] _].
    apply String.eqb_neq in Hk. by rewrite Hk, Hs in Ep.
Qed.

(** X24: [clearAllData] removes from [localStorage] exactly the entries
    whose key is not empty and starts with the prefix, whatever it then
    answers; without a
    database it answers [true], and when it answers [true] no record is
    left in the four stores it clears, the records of other stores being
    as before. *)
Theorem X24_clearAllData_effect this ls names :
  let '(this', ls', ok) := clearAllData this ls names in
  (∀ k, ls' !! k
        = if negb (String.eqb k "") && startsWith (storagePrefix this) k then None
          else ls !! k)
  ∧ (db this = None → ok = true)
  ∧ (ok = true →
     ∀ name key,
       loadFromIndexedDB this' name key
       = if bool_decide (name ∈ storesToClear) then None
         else loadFromIndexedDB this name key).
Proof.
  unfold clearAllData. cbv zeta.
  pose proof (lookup_clearPrefix this ls) as Hls.
  destruct (db this) as [stores|] eqn:Edb.
  - destruct (forallb _ storesToClear) eqn:Eall.
    + split; [done|]. split; [done|]. intros _ name key.
      unfold loadFromIndexedDB. cbn [db]. rewrite Edb.
      destruct (bool_decide_reflect (name ∈ storesToClear)) as [Hin|Hnin].
      * apply map_lookup_filter_None. right. intros x _ Hx. by apply Hx.
      * destruct (stores !! (name, key)) as [x|] eqn:Ex.
        -- by apply map_lookup_filter_Some.
        -- apply map_lookup_filter_None. by left.
    + split; [done|]. split; [done|]. done.
  - split; [done|]. split; [done|]. intros _ name key.
    unfold loadFromIndexedDB. rewrite Edb. by destruct (bool_decide _).
Qed.

(** X25: the database that [initializeIndexedDB] creates has no [sessions]
    store, and creating the three stores of the upgrade never adds one;
    on such a database, once open, [clearAllData] answers [false] and
    leaves every IndexedDB record in place, the [localStorage] entries
    under the prefix being removed all the same. *)
Theorem X25_clearAllData_without_sessions_store this ls names :
  is_Some (db this) →
  "sessions" ∉ names →
  let '(this', ls', ok) := clearAllData this ls (onupgradeneeded names) in
  ok = false ∧ this' = this
  ∧ (∀ k, k ≠ "" → startsWith (storagePrefix this) k = true → ls' !! k = None).
Proof.
  intros [stores Hdb] Hnames.
  pose proof (lookup_clearPrefix this ls) as Hls.
  unfold clearAllData. cbv zeta. rewrite Hdb.
  assert (forallb (λ name, bool_decide (name ∈ onupgradeneeded names)) storesToClear = false)
    as Hall.
  { cbn [forallb storesToClear].
    rewrite (bool_decide_eq_false_2 ("sessions" ∈ onupgradeneeded names)).
    - by rewrite !andb_false_r.
    - rewrite onupgradeneeded_elem. intros [?|[?|[?|?]]]; done. }
  rewrite Hall.
  split; [done|]. split; [done|]. intros k Hne Hk.
  by rewrite Hls, Hk, (proj2 (String.eqb_neq _ _) Hne).
Qed.

Lemma X17_saveModel_loadModel_roundtrip_witness :
  let '(this', ls', _) :=
    saveModel (λ _, "{}") (λ _, None) sampleManager sampleStorage sampleSerializable ∅
      "model_1_abc" "2024-01-01T00:00:00.000Z" in
  loadModel (λ _, Js.Returned {| id := "model_1_abc"; model := Js.Str "weights";
                                 metadata := ∅ |})
    this' ls' None
  = Js.Returned (Js.Str "weights").
Proof.
  pose proof (X17_saveModel_loadModel_roundtrip (λ _, "{}") (λ _, None)
                (λ _, Js.Returned {| id := "model_1_abc"; model := Js.Str "weights";
                                     metadata := ∅ |})
                sampleManager sampleStorage sampleSerializable ∅
                "model_1_abc" "2024-01-01T00:00:00.000Z") as H.
  destruct (saveModel _ _ _ _ _ _ _ _) as [[this' ls'] modelId].
  destruct H as [H _]; [|exact H].
  intros d _. split; [discriminate|]. eexists. split; reflexivity.
Defined.

Lemma X18_loadModel_by_saved_id_not_found_witness :
  let '(this', ls', modelId) :=
    saveModel id (λ _, None) sampleManager sampleStorage sampleSerializable ∅
      "model_1_abc" "2024-01-01T00:00:00.000Z" in
  loadModel (λ s, Js.Returned {| id := s; model := Js.Str s; metadata := ∅ |})
    this' ls' (Some modelId)
  = Js.Thrown "Model not found: model_1_abc".
Proof.
  pose proof (X18_loadModel_by_saved_id_not_found id (λ _, None)
                (λ s, Js.Returned {| id := s; model := Js.Str s; metadata := ∅ |})
                sampleManager sampleStorage sampleSerializable ∅
                "model_1_abc" "2024-01-01T00:00:00.000Z") as H.
  unfold saveModel in *.
  cbv beta iota zeta delta [model_id sampleSerializable] in *.
  apply H; [discriminate | discriminate | reflexivity].
Defined.



Lemma X21_listModels_sorted_and_backed_witness :
  StronglySorted (newestFirst (λ _, 0%Z))
    (listModels (λ s, Js.Returned {| id := s; model := Js.Str s; metadata := ∅ |})
       (λ _, Js.Returned ["17"]) (λ _, 0%Z) sampleManager sampleStorage).
Proof.
  apply (X21_listModels_sorted_and_backed
           (λ s, Js.Returned {| id := s; model := Js.Str s; metadata := ∅ |})
           (λ _, Js.Returned ["17"]) (λ _, 0%Z) sampleManager sampleStorage).
Defined.

Lemma X22_saved_model_not_listed_witness :
  let '(this', ls', _) :=
    saveModel id (λ _, None) sampleManager sampleStorage sampleSerializable ∅
      "model_1_abc" "2024-01-01T00:00:00.000Z" in
  listModels (λ s, Js.Returned {| id := s; model := Js.Str s; metadata := ∅ |})
    (λ _, Js.Returned ["17"]) (λ _, 0%Z) this' ls' = [].
Proof.
  apply (X22_saved_model_not_listed id (λ _, None)
           (λ s, Js.Returned {| id := s; model := Js.Str s; metadata := ∅ |})
           (λ _, Js.Returned ["17"]) (λ _, 0%Z)
           sampleManager sampleStorage sampleSerializable ∅
           "model_1_abc" "2024-01-01T00:00:00.000Z").
Defined.

Lemma X23_getStorageStats_after_save_witness :
  let '(this', ls', _) :=
    saveModel (λ _, "{}") (λ _, None) sampleManager sampleStorage sampleSerializable ∅
      "model_1_abc" "2024-01-01T00:00:00.000Z" in
  modelCount (getStorageStats this' ls') = 0.
Proof.
  pose proof (X23_getStorageStats_after_save (λ _, "{}") (λ _, None)
                sampleManager sampleStorage sampleSerializable ∅
                "model_1_abc" "2024-01-01T00:00:00.000Z") as H.
  destruct (saveModel _ _ _ _ _ _ _ _) as [[this' ls'] modelId].
  rewrite H; [reflexivity | discriminate].
Defined.

Lemma X24_clearAllData_effect_witness :
  let '(_, ls', ok) := clearAllData sampleManager sampleStorage [] in
  ok = true ∧ ls' !! "saber_rl_settings" = None.
Proof.
  pose proof (X24_clearAllData_effect sampleManager sampleStorage []) as H.
  destruct (clearAllData _ _ _) as [[this' ls'] ok].
  destruct H as (H1 & H2 & _). split; [by apply H2|]. apply H1.
Defined.

Lemma X25_clearAllData_without_sessions_store_witness :
  onupgradeneeded [] = ["models"; "experiences"; "metrics"]
  ∧ let '(this', _, ok) := clearAllData openManager sampleStorage (onupgradeneeded []) in
    ok = false ∧ this' = openManager.
Proof.
  split; [reflexivity|].
  pose proof (X25_clearAllData_without_sessions_store openManager sampleStorage []) as H.
  destruct (clearAllData _ _ _) as [[this' ls'] ok].
  destruct H as (H1 & H2 & _); [by eexists | apply not_elem_of_nil | done].
Defined.

End ModelManagerMore.

(** ** [NetworkUtils]: what a loaded model is *)

Module NetworkUtilsMore.
Import NetworkUtils.

Section LoadProps.

Context {Float32 Number : Type}.
Variable convert : string → Number → Float32.
Variable knownActivation : string → bool.
Variable initialValues : string → list nat → list Float32.

Abbreviation dense' := (dense knownActivation initialValues).
Abbreviation addHidden' := (addHidden knownActivation initialValues).
Abbreviation load' := (loadNetworkFromSerialized convert knownActivation initialValues).
Abbreviation Tensor' := (@Tensor Float32).
Abbreviation DenseLayer' := (@DenseLayer Float32).

Lemma dense_inv inputDim units_opt act nm (l : DenseLayer') :
  dense' inputDim units_opt act nm = Js.Returned l →
  ∃ u, units_opt = Some u ∧ 0 < u ∧ knownActivation act = true
       ∧ units l = u
       ∧ layerSpec l = (u, act, nm)
       ∧ kernel l = {| t_data := initialValues (nm +:+ "/kernel") [inputDim; u];
                       t_shape := [inputDim; u]; t_dtype := "float32" |}
       ∧ bias l = {| t_data := initialValues (nm +:+ "/bias") [u];
                     t_shape := [u]; t_dtype := "float32" |}.
Proof.
  unfold dense. destruct units_opt as [u|]; [|done].
  destruct (Nat.eqb_spec u 0); [done|].
  destruct (knownActivation act); [|done]. simpl.
  intros [= <-]. exists u. repeat split; try done. lia.
Qed.

Lemma addHidden_inv inputDim from sizes act (ls : list DenseLayer') out :
  addHidden' inputDim from sizes act = Js.Returned (ls, out) →
  Forall (λ u, 0 < u) sizes
  ∧ out = lastDim inputDim sizes
  ∧ map layerSpec ls = hiddenSpecs from sizes act
  ∧ map t_shape (getWeights ls) = chainShapes inputDim sizes
  ∧ Forall (λ w, t_dtype w = "float32") (getWeights ls).
Proof.
  revert inputDim from ls. induction sizes as [|u rest IH]; intros inputDim from ls H.
  - injection H as <- <-. by repeat split.
  - cbn [addHidden] in H.
    destruct (dense _ _ _ _ _ _) as [l|e] eqn:El; [|done].
    destruct (addHidden _ _ _ _ _ _) as [[ls' out']|e] eqn:Els; [|done].
    injection H as <- <-.
    apply dense_inv in El as (u' & [= <-] & Hu & _ & _ & Hspec & Hk & Hb).
    apply IH in Els as (Hpos & Hout & Hspecs & Hshapes & Hdts).
    split; [by constructor|]. split; [done|].
    split; [cbn [map hiddenSpecs]; by rewrite Hspec, Hspecs|].
    change (getWeights (l :: ls')) with ([kernel l; bias l] ++ getWeights ls').
    split.
    + rewrite map_app, Hshapes, Hk, Hb. done.
    + apply Forall_app. split; [|done]. rewrite Hk, Hb. by repeat constructor.
Qed.

Lemma dense_initial inputDim units_opt act nm (l : DenseLayer') :
  dense' inputDim units_opt act nm = Js.Returned l →
  t_data (kernel l) = initialValues (name l +:+ "/kernel") (t_shape (kernel l))
  ∧ t_data (bias l) = initialValues (name l +:+ "/bias") (t_shape (bias l)).
Proof.
  unfold dense. destruct units_opt as [u|]; [|done].
  destruct (u =? 0); [done|]. destruct (knownActivation act); [|done].
  simpl. by intros [= <-].
Qed.

Lemma addHidden_initial inputDim from sizes act (ls : list DenseLayer') out :
  addHidden' inputDim from sizes act = Js.Returned (ls, out) →
  Forall (λ l, t_data (kernel l) = initialValues (name l +:+ "/kernel") (t_shape (kernel l))
               ∧ t_data (bias l) = initialValues (name l +:+ "/bias") (t_shape (bias l)))
         ls.
Proof.
  revert inputDim from ls out.
  induction sizes as [|u rest IH]; intros inputDim from ls out H.
  - by injection H as <- _.
  - cbn [addHidden] in H.
    destruct (dense _ _ _ _ _ _) as [l|e] eqn:El; [|done].
    destruct (addHidden _ _ _ _ _ _) as [[ls' out']|e] eqn:Els; [|done].
    injection H as <- _. constructor; [exact (dense_initial _ _ _ _ _ El) | exact (IH _ _ _ _ Els)].
Qed.

Lemma toTensors_inv (ws : list (@SerializedWeight Number)) (ts : list Tensor') :
  toTensors convert ws = Js.Returned ts →
  map t_shape ts = map shape ws
  ∧ map t_dtype ts = map dtype ws
  ∧ Forall2 (λ w t, t_data t = map (convert (dtype w)) (data w)
                    ∧ length (data w) = sizeFromShape (shape w)) ws ts.
Proof.
  revert ts. induction ws as [|w ws IH]; intros ts H; simpl in H.
  - injection H as <-. by repeat split.
  - unfold tensor in H.
    destruct (Nat.eqb_spec (length (data w)) (sizeFromShape (shape w))) as [Hfill|];
      [|done].
    destruct (toTensors convert ws) as [ts'|err]; [|done].
    injection H as <-. destruct (IH ts' eq_refl) as (Hs & Hd & HF).
    simpl. rewrite Hs, Hd. repeat split; try done. by constructor.
Qed.

Lemma setWeights_inv (m m' : list DenseLayer') (ws : list Tensor') :
  setWeights m ws = Js.Returned m' →
  map t_shape (getWeights m) = map t_shape ws
  ∧ map t_dtype (getWeights m) = map t_dtype ws
  ∧ getWeights m' = ws
  ∧ map layerSpec m' = map layerSpec m.
Proof.
  unfold setWeights.
  destruct (Nat.eqb_spec (length (getWeights m)) (length ws)) as [Hlen|]; [|done].
  destruct (bool_decide_reflect (map t_shape (getWeights m) = map t_shape ws)); [|done].
  destruct (bool_decide_reflect (map t_dtype (getWeights m) = map t_dtype ws)); [|done].
  simpl. intros [= <-].
  destruct (NetworkUtilsProps.getWeights_assign m ws Hlen) as [Hw Hs]. done.
Qed.

(** X26: a model that [loadNetworkFromSerialized] returns always fits the
    architecture it was given: the architecture has a first hidden layer,
    its sizes are positive and its activation is a known one, the layers
    are the declared ones and the weights have the shapes of the declared
    chain.  When weights were given, the model holds exactly the tensors
    built from them, so a weight list of other shapes, of another dtype
    than [float32] or with data that does not fill its shape is never
    loaded silently; without weights the model keeps the initial ones. *)
Theorem X26_loaded_model_fits_architecture sd (m : list DenseLayer') :
  load' sd = Js.Returned m →
  let arch := architecture sd in
  let shapes := chainShapes (inputSize arch) (hiddenLayers arch ++ [outputSize arch]) in
  hiddenLayers arch ≠ []
  ∧ Forall (λ u, 0 < u) (hiddenLayers arch ++ [outputSize arch])
  ∧ knownActivation (activation arch) = true
  ∧ map layerSpec m = declaredLayers arch
  ∧ map t_shape (getWeights m) = shapes
  ∧ Forall (λ w, t_dtype w = "float32") (getWeights m)
  ∧ (weights sd ≠ [] →
     toTensors convert (weights sd) = Js.Returned (getWeights m)
     ∧ map shape (weights sd) = shapes
     ∧ Forall (λ w, dtype w = "float32" ∧ length (data w) = sizeFromShape (shape w))
              (weights sd))
  ∧ (weights sd = [] →
     Forall (λ l, t_data (kernel l) = initialValues (name l +:+ "/kernel") (t_shape (kernel l))
                  ∧ t_data (bias l) = initialValues (name l +:+ "/bias") (t_shape (bias l)))
            m).
Proof.
  intros H arch shapes. unfold loadNetworkFromSerialized in H. fold arch in H.
  destruct (dense _ _ _ _ _ _) as [first|e] eqn:Ef; [|done].
  destruct (addHidden _ _ _ _ _ _) as [[hidden out]|e] eqn:Eh; [|done].
  destruct (dense _ _ out _ _ _) as [output|e] eqn:Eo; [|done].
  pose proof (dense_initial _ _ _ _ _ Ef) as Hfinit.
  apply dense_inv in Ef as (u & Hhead & Hu & Hact & Hunits & Hspec & Hk & Hb).
  destruct (hiddenLayers arch) as [|u' rest] eqn:Ehl; [done|].
  injection Hhead as ->. cbn [tail] in Eh. rewrite Hunits in Eh.
  pose proof (addHidden_initial _ _ _ _ _ _ Eh) as Hinit.
  apply addHidden_inv in Eh as (Hpos & Hout & Hspecs & Hshapes & Hdts).
  pose proof (dense_initial _ _ _ _ _ Eo) as Hoinit.
  apply dense_inv in Eo as (o & [= <-] & Ho & _ & _ & Hospec & Hok & Hob).
  set (fresh := first :: hidden ++ [output]) in H.
  assert (map layerSpec fresh = declaredLayers arch) as Hdecl.
  { unfold fresh, declaredLayers. rewrite Ehl. cbn [map].
    by rewrite map_app, Hspec, Hspecs; cbn [map]; rewrite Hospec. }
  assert (map t_shape (getWeights fresh) = shapes) as Hfresh.
  { unfold fresh, shapes. rewrite ?Ehl.
    change (getWeights (first :: hidden ++ [output]))
      with ([kernel first; bias first] ++ getWeights (hidden ++ [output])).
    rewrite NetworkUtilsProps.getWeights_app, !map_app, Hshapes, Hk, Hb.
    change (getWeights [output]) with [kernel output; bias output].
    rewrite Hok, Hob. cbn [map t_shape app chainShapes].
    rewrite NetworkUtilsProps.chainShapes_snoc. by rewrite Hout. }
  assert (Forall (λ w, t_dtype w = "float32") (getWeights fresh)) as Hfdt.
  { unfold fresh.
    change (getWeights (first :: hidden ++ [output]))
      with ([kernel first; bias first] ++ getWeights (hidden ++ [output])).
    rewrite NetworkUtilsProps.getWeights_app.
    change (getWeights [output]) with [kernel output; bias output].
    rewrite Hk, Hb, Hok, Hob. repeat (apply Forall_app; split); by repeat constructor. }
  assert (Forall (λ u, 0 < u) (u :: rest ++ [outputSize arch])) as Hall.
  { constructor; [done|]. apply Forall_app. split; [done | by constructor]. }
  destruct (Nat.ltb_spec 0 (length (weights sd))) as [Hlen|Hlen].
  - destruct (toTensors convert (weights sd)) as [ts|e] eqn:Et; [|done].
    apply setWeights_inv in H as (Hsh & Hdt & Hw & Hs).
    pose proof Et as Et'. apply toTensors_inv in Et' as (Hts & Htd & HF).
    split; [done|]. split; [done|]. split; [done|].
    split; [congruence|]. split; [congruence|].
    assert (Forall (λ d, d = "float32") (map t_dtype ts)) as Htsdt.
    { rewrite <- Hdt. by apply List.Forall_map. }
    split; [rewrite Hw; by apply List.Forall_map in Htsdt|]. split.
    + intros _. rewrite Hw. split; [done|]. split; [congruence|].
      rewrite Htd in Htsdt. apply List.Forall_map in Htsdt.
      clear -HF Htsdt. induction HF as [|w t ws ts [_ Hl] _ IH]; [done|].
      apply Forall_cons in Htsdt as [Hd Htl]. constructor; [done | by apply IH].
    + intros Hnil. rewrite Hnil in Hlen. simpl in Hlen. lia.
  - injection H as <-.
    split; [done|]. split; [done|]. split; [done|].
    split; [done|]. split; [done|]. split; [done|]. split.
    + intros Hne. destruct (weights sd); [done | simpl in Hlen; lia].
    + intros _. unfold fresh. constructor; [done|].
      apply Forall_app. split; [done|]. by constructor.
Qed.

End LoadProps.

Lemma X26_loaded_model_fits_architecture_witness :
  ∃ m, loadNetworkFromSerialized (λ _ (x : Z), x) sampleKnown sampleInitial
         (serializeNetwork (λ x : Z, x) sampleModel sampleArchitecture) = Js.Returned m
       ∧ map t_shape (getWeights m) = [[2; 2]; [2]; [2; 1]; [1]].
Proof.
  destruct (loadNetworkFromSerialized (λ _ (x : Z), x) sampleKnown sampleInitial
              (serializeNetwork (λ x : Z, x) sampleModel sampleArchitecture))
    as [m|e] eqn:E.
  - exists m. split; [done|].
    apply X26_loaded_model_fits_architecture in E as (_ & _ & _ & _ & Hshapes & _).
    exact Hshapes.
  - exfalso. revert E. vm_compute. discriminate.
Defined.

End NetworkUtilsMore.

(** ** [TrainingVisualizer]: the window of the charts *)

Module TrainingVisualizerMore.
Import TrainingVisualizer.

Lemma lastPoints_push {A} (maxPoints n : nat) (l : list A) (x : A) :
  length l = n → n ≤ maxPoints →
  (if maxPoints <? length (push x l) then shift (push x l) else push x l)
  = lastPoints maxPoints (l ++ [x])
  ∧ length (lastPoints maxPoints (l ++ [x])) = Nat.min (n + 1) maxPoints.
Proof.
  intros Hl Hn. unfold lastPoints, push, shift. rewrite length_drop, length_app. cbn [length].
  split; [|lia].
  destruct (Nat.ltb_spec maxPoints (length l + 1)) as [Hlt|Hge].
  - replace (length l + 1 - maxPoints) with 1 by lia. by destruct (l ++ [x]).
  - by replace (length l + 1 - maxPoints) with 0 by lia.
Qed.

(** X28: every chart keeps the last [maxDataPoints] points.  On a chart
    whose labels and datasets all hold [n] points, with [n] within the
    window, each update function appends the label [Rollout <batchNumber>]
    and one value per dataset and then holds the last [maxDataPoints] of
    them: labels and datasets stay aligned on [min (n + 1) maxDataPoints]
    points.  [reset] leaves every chart aligned on no point. *)
Theorem X28_charts_keep_last_points this stats n :
  n ≤ maxDataPoints this →
  let label := "Rollout " +:+ pretty (batchNumber this) in
  let kept {A} (l : list A) := lastPoints (maxDataPoints this) l in
  let n' := Nat.min (n + 1) (maxDataPoints this) in
  (∀ l d0 d1 d2,
     rewardChart this = Some {| labels := l; datasets := [d0; d1; d2] |} →
     aligned n {| labels := l; datasets := [d0; d1; d2] |} →
     updateRewardChart this stats
     = Some {| labels := kept (l ++ [label]);
               datasets := [kept (d0 ++ [avgReward stats]);
                            kept (d1 ++ [minReward stats]);
                            kept (d2 ++ [maxReward stats])] |}
     ∧ aligned n' {| labels := kept (l ++ [label]);
                     datasets := [kept (d0 ++ [avgReward stats]);
                                  kept (d1 ++ [minReward stats]);
                                  kept (d2 ++ [maxReward stats])] |})
  ∧ (∀ l d0,
       lengthChart this = Some {| labels := l; datasets := [d0] |} →
       aligned n {| labels := l; datasets := [d0] |} →
       updateLengthChart this stats
       = Some {| labels := kept (l ++ [label]);
                 datasets := [kept (d0 ++ [avgLength stats])] |}
       ∧ aligned n' {| labels := kept (l ++ [label]);
                       datasets := [kept (d0 ++ [avgLength stats])] |})
  ∧ (∀ l d0,
       completionChart this = Some {| labels := l; datasets := [d0] |} →
       aligned n {| labels := l; datasets := [d0] |} →
       updateCompletionChart this stats
       = Some {| labels := kept (l ++ [label]);
                 datasets := [kept (d0 ++ [completionRate stats])] |}
       ∧ aligned n' {| labels := kept (l ++ [label]);
                       datasets := [kept (d0 ++ [completionRate stats])] |})
  ∧ (∀ l d0 d1 d2,
       policyChart this = Some {| labels := l; datasets := [d0; d1; d2] |} →
       aligned n {| labels := l; datasets := [d0; d1; d2] |} →
       updatePolicyChart this stats
       = Some {| labels := kept (l ++ [label]);
                 datasets := [kept (d0 ++ [policyEntropy stats]);
                              kept (d1 ++ [policyLoss stats]);
                              kept (d2 ++ [valueLoss stats])] |}
       ∧ aligned n' {| labels := kept (l ++ [label]);
                       datasets := [kept (d0 ++ [policyEntropy stats]);
                                    kept (d1 ++ [policyLoss stats]);
                                    kept (d2 ++ [valueLoss stats])] |})
  ∧ Forall (aligned 0) (charts (reset this)).
Proof.
  intros Hn label kept n'.
  assert (∀ {A} (l : list A) x, length l = n →
            (if maxDataPoints this <? length (push x l) then shift (push x l) else push x l)
            = kept A (l ++ [x])
            ∧ length (kept A (l ++ [x])) = n') as Hpush
    by (intros A l x Hl; by apply lastPoints_push).
  assert (∀ {A B} (l : list A) (k : list B) x, length l = n → length k = n →
            (maxDataPoints this <? length (push x l)) = (maxDataPoints this <? n + 1)) as Hcond.
  { intros A B l k x Hl _. unfold push. rewrite length_app. cbn [length]. by rewrite Hl. }
  split; [|split; [|split; [|split]]].
  - intros l d0 d1 d2 Hc (Hl & Hd). cbn [labels datasets] in *.
    apply Forall_cons in Hd as [H0 Hd]. apply Forall_cons in Hd as [H1 Hd].
    apply Forall_cons in Hd as [H2 _].
    unfold updateRewardChart. rewrite Hc. cbn -[Nat.ltb length].
    unfold push at 1. rewrite length_app. cbn [length]. rewrite Hl.
    destruct (Hpush _ l label Hl) as [El Ll].
    destruct (Hpush _ d0 (avgReward stats) H0) as [E0 L0].
    destruct (Hpush _ d1 (minReward stats) H1) as [E1 L1].
    destruct (Hpush _ d2 (maxReward stats) H2) as [E2 L2].
    unfold push in *. rewrite length_app in *. cbn [length] in *.
    rewrite H0, H1, H2, Hl in *.
    split; [|by repeat constructor].
    destruct (maxDataPoints this <? n + 1); by rewrite <- El, <- E0, <- E1, <- E2.
  - intros l d0 Hc (Hl & Hd). cbn [labels datasets] in *.
    apply Forall_cons in Hd as [H0 _].
    unfold updateLengthChart. rewrite Hc. cbn -[Nat.ltb length].
    unfold push at 1. rewrite length_app. cbn [length]. rewrite Hl.
    destruct (Hpush _ l label Hl) as [El Ll].
    destruct (Hpush _ d0 (avgLength stats) H0) as [E0 L0].
    unfold push in *. rewrite length_app in *. cbn [length] in *.
    rewrite H0, Hl in *.
    split; [|by repeat constructor].
    destruct (maxDataPoints this <? n + 1); by rewrite <- El, <- E0.
  - intros l d0 Hc (Hl & Hd). cbn [labels datasets] in *.
    apply Forall_cons in Hd as [H0 _].
    unfold updateCompletionChart. rewrite Hc. cbn -[Nat.ltb length].
    unfold push at 1. rewrite length_app. cbn [length]. rewrite Hl.
    destruct (Hpush _ l label Hl) as [El Ll].
    destruct (Hpush _ d0 (completionRate stats) H0) as [E0 L0].
    unfold push in *. rewrite length_app in *. cbn [length] in *.
    rewrite H0, Hl in *.
    split; [|by repeat constructor].
    destruct (maxDataPoints this <? n + 1); by rewrite <- El, <- E0.
  - intros l d0 d1 d2 Hc (Hl & Hd). cbn [labels datasets] in *.
    apply Forall_cons in Hd as [H0 Hd]. apply Forall_cons in Hd as [H1 Hd].
    apply Forall_cons in Hd as [H2 _].
    unfold updatePolicyChart. rewrite Hc. cbn -[Nat.ltb length].
    unfold push at 1. rewrite length_app. cbn [length]. rewrite Hl.
    destruct (Hpush _ l label Hl) as [El Ll].
    destruct (Hpush _ d0 (policyEntropy stats) H0) as [E0 L0].
    destruct (Hpush _ d1 (policyLoss stats) H1) as [E1 L1].
    destruct (Hpush _ d2 (valueLoss stats) H2) as [E2 L2].
    unfold push in *. rewrite length_app in *. cbn [length] in *.
    rewrite H0, H1, H2, Hl in *.
    split; [|by repeat constructor].
    destruct (maxDataPoints this <? n + 1); by rewrite <- El, <- E0, <- E1, <- E2.
  - assert (∀ c, aligned 0 (resetChart c)) as Hreset.
    { intros c. split; [done|]. unfold resetChart. cbn [datasets].
      apply Forall_fmap. by apply Forall_true. }
    unfold charts, reset. cbn [rewardChart lengthChart completionChart policyChart].
    destruct (rewardChart this), (lengthChart this), (completionChart this),
      (policyChart this); cbn; repeat constructor; apply Hreset.
Qed.

Section UpdateMetricsProps.

Variable initializeCharts : t → t.

Lemma updateRewardChart_labels this stats :
  match rewardChart this with
  | Some c =>
      ∃ c', updateRewardChart this stats = Some c'
            ∧ (length (labels c) ≤ maxDataPoints this →
               labels c' = lastPoints (maxDataPoints this)
                             (labels c ++ ["Rollout " +:+ pretty (batchNumber this)]))
  | None => updateRewardChart this stats = None
  end.
Proof.
  unfold updateRewardChart. destruct (rewardChart this) as [c|]; [|done].
  eexists. split; [reflexivity|]. intros Hn.
  destruct (lastPoints_push (maxDataPoints this) _ (labels c)
              ("Rollout " +:+ pretty (batchNumber this)) eq_refl Hn) as [<- _].
  cbn -[Nat.ltb length]. by destruct (_ <? _).
Qed.

Lemma updateLengthChart_labels this stats :
  match lengthChart this with
  | Some c =>
      ∃ c', updateLengthChart this stats = Some c'
            ∧ (length (labels c) ≤ maxDataPoints this →
               labels c' = lastPoints (maxDataPoints this)
                             (labels c ++ ["Rollout " +:+ pretty (batchNumber this)]))
  | None => updateLengthChart this stats = None
  end.
Proof.
  unfold updateLengthChart. destruct (lengthChart this) as [c|]; [|done].
  eexists. split; [reflexivity|]. intros Hn.
  destruct (lastPoints_push (maxDataPoints this) _ (labels c)
              ("Rollout " +:+ pretty (batchNumber this)) eq_refl Hn) as [<- _].
  cbn -[Nat.ltb length]. by destruct (_ <? _).
Qed.

Lemma updateCompletionChart_labels this stats :
  match completionChart this with
  | Some c =>
      ∃ c', updateCompletionChart this stats = Some c'
            ∧ (length (labels c) ≤ maxDataPoints this →
               labels c' = lastPoints (maxDataPoints this)
                             (labels c ++ ["Rollout " +:+ pretty (batchNumber this)]))
  | None => updateCompletionChart this stats = None
  end.
Proof.
  unfold updateCompletionChart. destruct (completionChart this) as [c|]; [|done].
  eexists. split; [reflexivity|]. intros Hn.
  destruct (lastPoints_push (maxDataPoints this) _ (labels c)
              ("Rollout " +:+ pretty (batchNumber this)) eq_refl Hn) as [<- _].
  cbn -[Nat.ltb length]. by destruct (_ <? _).
Qed.

Lemma updatePolicyChart_labels this stats :
  match policyChart this with
  | Some c =>
      ∃ c', updatePolicyChart this stats = Some c'
            ∧ (length (labels c) ≤ maxDataPoints this →
               labels c' = lastPoints (maxDataPoints this)
                             (labels c ++ ["Rollout " +:+ pretty (batchNumber this)]))
  | None => updatePolicyChart this stats = None
  end.
Proof.
  unfold updatePolicyChart. destruct (policyChart this) as [c|]; [|done].
  eexists. split; [reflexivity|]. intros Hn.
  destruct (lastPoints_push (maxDataPoints this) _ (labels c)
              ("Rollout " +:+ pretty (batchNumber this)) eq_refl Hn) as [<- _].
  cbn -[Nat.ltb length]. by destruct (_ <? _).
Qed.

Lemma charts_one_axis (maxPoints : nat) (ls ls' : list string)
    (o1 o2 o3 o4 n1 n2 n3 n4 : option ChartData) :
  let R (o n : option ChartData) :=
    match o with
    | Some c =>
        ∃ c', n = Some c'
              ∧ (length (labels c) ≤ maxPoints →
                 labels c' = lastPoints maxPoints (labels c ++ ls'))
    | None => n = None
    end in
  R o1 n1 → R o2 n2 → R o3 n3 → R o4 n4 →
  length ls ≤ maxPoints →
  Forall (λ c, labels c = ls) (omap id [o1; o2; o3; o4]) →
  length (omap id [n1; n2; n3; n4]) = length (omap id [o1; o2; o3; o4])
  ∧ Forall (λ c, labels c = lastPoints maxPoints (ls ++ ls')) (omap id [n1; n2; n3; n4]).
Proof.
  intros R H1 H2 H3 H4 Hlen Hls. subst R.
  destruct o1 as [c1|]; [destruct H1 as (c1' & -> & L1) | subst n1];
  (destruct o2 as [c2|]; [destruct H2 as (c2' & -> & L2) | subst n2]);
  (destruct o3 as [c3|]; [destruct H3 as (c3' & -> & L3) | subst n3]);
  (destruct o4 as [c4|]; [destruct H4 as (c4' & -> & L4) | subst n4]);
  cbn in Hls |- *;
  repeat match goal with
         | H : Forall _ (_ :: _) |- _ => apply Forall_cons in H as [? H]
         end;
  (split; [done|]); repeat constructor;
  match goal with
  | L : _ → labels ?c = _ |- labels ?c = _ => rewrite L by congruence; congruence
  end.
Qed.

(** X29: the charts stay on one x axis.  [updateMetrics] counts a rollout
    only when the metrics report a completed game; metrics that are missing
    or report none change neither the counter nor a chart.  On a visualizer
    whose charts are created and show the same labels, a counted rollout
    raises the counter by one and leaves every chart with the same labels
    again: the last [maxDataPoints] of the old labels followed by
    [Rollout <new counter>]; no chart appears or disappears. *)
Theorem X29_updateMetrics_one_axis this metrics ls :
  isInitialized this = true →
  Forall (λ c, labels c = ls) (charts this) →
  length ls ≤ maxDataPoints this →
  let this' := updateMetrics initializeCharts this metrics in
  let counted :=
    match metrics with
    | Some m => negb (Qle_bool (orZero (gamesCompleted m)) 0)
    | None => false
    end in
  (counted = false → this' = this)
  ∧ (counted = true →
     batchNumber this' = S (batchNumber this)
     ∧ length (charts this') = length (charts this)
     ∧ Forall (λ c, labels c
                    = lastPoints (maxDataPoints this)
                        (ls ++ ["Rollout " +:+ pretty (S (batchNumber this))]))
              (charts this')).
Proof.
  intros Hinit Hls Hlen this' counted. subst this' counted.
  destruct metrics as [m|]; [|split; [done | done]].
  unfold updateMetrics.
  destruct (negb (Qle_bool (orZero (gamesCompleted m)) 0)); [|split; [done | done]].
  split; [done|]. intros _.
  set (this1 := {| maxDataPoints := _; batchNumber := S (batchNumber this) |}).
  unfold updateCharts. replace (isInitialized this1) with true by done.
  set (stats := calculateBatchStats this1 m).
  split; [done|].
  unfold charts in *. cbn [rewardChart lengthChart completionChart policyChart].
  apply (charts_one_axis (maxDataPoints this) ls
           ["Rollout " +:+ pretty (S (batchNumber this))]); try done.
  - apply (updateRewardChart_labels this1 stats).
  - apply (updateLengthChart_labels this1 stats).
  - apply (updateCompletionChart_labels this1 stats).
  - apply (updatePolicyChart_labels this1 stats).
Qed.

End UpdateMetricsProps.

Lemma X28_charts_keep_last_points_witness :
  updateRewardChart sampleVisualizer
    (calculateBatchStats sampleVisualizer sampleMetrics)
  = Some {| labels := ["Rollout 2"; "Rollout 2"];
            datasets := [[2; 3]; [1; 2]; [3; 4]]%Q |}.
Proof.
  destruct (X28_charts_keep_last_points sampleVisualizer
              (calculateBatchStats sampleVisualizer sampleMetrics) 2) as (H & _).
  - simpl. lia.
  - destruct (H ["Rollout 1"; "Rollout 2"] [1; 2]%Q [0; 1]%Q [2; 3]%Q) as [Hu _].
    + reflexivity.
    + by repeat constructor.
    + etransitivity; [exact Hu|]. reflexivity.
Defined.

Lemma X29_updateMetrics_one_axis_witness :
  let this' := updateMetrics (λ v, v) sampleVisualizer (Some sampleMetrics) in
  batchNumber this' = 3
  ∧ Forall (λ c, labels c = ["Rollout 2"; "Rollout 3"]) (charts this').
Proof.
  destruct (X29_updateMetrics_one_axis (λ v, v) sampleVisualizer (Some sampleMetrics)
              ["Rollout 1"; "Rollout 2"]) as (_ & H).
  - reflexivity.
  - by repeat constructor.
  - simpl. lia.
  - destruct (H eq_refl) as (Hb & _ & Hl). split; [exact Hb | exact Hl].
Defined.

End TrainingVisualizerMore.
